(** * Response decoding and normalisation of the llama.cpp client

    A shallow embedding of [simple_llamacpp_client.py]: the text repair
    helpers, the answer/thinking splitter, the embedded JSON extractor, the
    streaming decoder and the entry point [run], together with the
    properties of them that the specification states.

    Python strings are sequences of Unicode code points; they are modelled
    as lists of [N].  Values of dynamic type (the decoded JSON documents)
    are modelled by the inductive type [pyval]. *)

From Stdlib Require Import Ascii String.
From Stdlib Require Import List NArith ZArith Bool Lia.
Import ListNotations.

#[local] Set Warnings "-register-all".

Local Open Scope N_scope.

(** ** Python strings *)

Module PyStr.

Definition pystr := list N.

(** A literal of the source, written as a Rocq string of ASCII characters. *)
Definition lit (s : string) : pystr :=
  map N_of_ascii (list_ascii_of_string s).

Fixpoint str_eqb (a b : pystr) : bool :=
  match a, b with
  | [], [] => true
  | x :: a', y :: b' => (x =? y) && str_eqb a' b'
  | _, _ => false
  end.

(** [str.isspace] on one code point, which is also the class [\s] of [re]
    for text patterns: the ASCII table of CPython and the Unicode
    characters of bidirectional type WS, B or S, or of category Zs. *)
Definition isspace (c : N) : bool :=
  ((9 <=? c) && (c <=? 13)) || ((28 <=? c) && (c <=? 32))
  || (c =? 133) || (c =? 160) || (c =? 5760)
  || ((8192 <=? c) && (c <=? 8202))
  || (c =? 8232) || (c =? 8233) || (c =? 8239) || (c =? 8287)
  || (c =? 12288).

Fixpoint lstrip_with (p : N -> bool) (s : pystr) : pystr :=
  match s with
  | [] => []
  | c :: r => if p c then lstrip_with p r else s
  end.

Fixpoint rstrip_with (p : N -> bool) (s : pystr) : pystr :=
  match s with
  | [] => []
  | c :: r =>
      match rstrip_with p r with
      | [] => if p c then [] else [c]
      | r' => c :: r'
      end
  end.

Definition strip_with (p : N -> bool) (s : pystr) : pystr :=
  rstrip_with p (lstrip_with p s).

(** [s.strip()], [s.rstrip(chars)] and [s.strip(chars)] for a one-character
    [chars]. *)
Definition strip (s : pystr) : pystr := strip_with isspace s.
Definition rstrip_char (ch : N) (s : pystr) : pystr := rstrip_with (N.eqb ch) s.
Definition strip_char (ch : N) (s : pystr) : pystr := strip_with (N.eqb ch) s.

Fixpoint startswith (s p : pystr) : bool :=
  match p, s with
  | [], _ => true
  | x :: p', y :: s' => (x =? y) && startswith s' p'
  | _ :: _, [] => false
  end.

Definition endswith (s p : pystr) : bool :=
  startswith (rev s) (rev p).

(** [s] begins with the literal [p]: what follows it. *)
Fixpoint after_prefix (p s : pystr) : option pystr :=
  match p, s with
  | [], _ => Some s
  | x :: p', y :: s' => if x =? y then after_prefix p' s' else None
  | _ :: _, [] => None
  end.

(** [s.find(ch)] for a one-character [ch]: the index of the first
    occurrence, [None] for Python's [-1]. *)
Fixpoint find_char (ch : N) (s : pystr) : option nat :=
  match s with
  | [] => None
  | c :: r =>
      if c =? ch then Some O
      else match find_char ch r with
           | Some i => Some (S i)
           | None => None
           end
  end.

(** [s.replace(old, new)] for one-character [old] and [new]. *)
Definition replace_char (old new : N) (s : pystr) : pystr :=
  map (fun c => if c =? old then new else c) s.

(** [sep.join(parts)] for the empty separator. *)
Definition join (parts : list pystr) : pystr := concat parts.

Definition is_empty (s : pystr) : bool :=
  match s with [] => true | _ => false end.

End PyStr.

Import PyStr.

(** ** Codecs used by the mojibake repair *)

Module Codec.

(** [text.encode("latin1")]: every code point must be below 256. *)
Fixpoint encode_latin1 (s : pystr) : option (list N) :=
  match s with
  | [] => Some []
  | c :: r =>
      if c <? 256 then
        match encode_latin1 r with
        | Some bs => Some (c :: bs)
        | None => None
        end
      else None
  end.

Definition is_cont (b : N) : bool := (128 <=? b) && (b <=? 191).

Definition cont_bits (b : N) : N := b - 128.

(** [bytes.decode("utf-8")], strict: shortest forms only, no surrogates,
    nothing above U+10FFFF. *)
Fixpoint decode_utf8 (bs : list N) : option pystr :=
  match bs with
  | [] => Some []
  | b0 :: r0 =>
      if b0 <? 128 then
        option_map (cons b0) (decode_utf8 r0)
      else if (194 <=? b0) && (b0 <=? 223) then
        match r0 with
        | b1 :: r1 =>
            if is_cont b1 then
              option_map (cons ((b0 - 192) * 64 + cont_bits b1)) (decode_utf8 r1)
            else None
        | _ => None
        end
      else if (224 <=? b0) && (b0 <=? 239) then
        match r0 with
        | b1 :: b2 :: r2 =>
            if is_cont b1 && is_cont b2
               && (if b0 =? 224 then 160 <=? b1 else true)
               && (if b0 =? 237 then b1 <=? 159 else true)
            then
              option_map
                (cons ((b0 - 224) * 4096 + cont_bits b1 * 64 + cont_bits b2))
                (decode_utf8 r2)
            else None
        | _ => None
        end
      else if (240 <=? b0) && (b0 <=? 244) then
        match r0 with
        | b1 :: b2 :: b3 :: r3 =>
            if is_cont b1 && is_cont b2 && is_cont b3
               && (if b0 =? 240 then 144 <=? b1 else true)
               && (if b0 =? 244 then b1 <=? 143 else true)
            then
              option_map
                (cons ((b0 - 240) * 262144 + cont_bits b1 * 4096
                       + cont_bits b2 * 64 + cont_bits b3))
                (decode_utf8 r3)
            else None
        | _ => None
        end
      else None
  end.

End Codec.

Import Codec.

(** ** Text repair utilities *)

(** The four curly punctuation marks and their replacements. *)
Definition RSQUO : N := 8217.  (* U+2019 *)
Definition LSQUO : N := 8216.  (* U+2018 *)
Definition LDQUO : N := 8220.  (* U+201C *)
Definition RDQUO : N := 8221.  (* U+201D *)
Definition APOS : N := 39.
Definition QUOT : N := 34.

Definition _fix_mojibake (text : pystr) : pystr :=
  if is_empty text then []
  else
    match encode_latin1 text with
    | Some bs =>
        match decode_utf8 bs with
        | Some t => t
        | None => text
        end
    | None => text
    end.

Definition _replace_smart_quotes (text : pystr) : pystr :=
  if is_empty text then []
  else
    replace_char RDQUO QUOT
      (replace_char LDQUO QUOT
         (replace_char LSQUO APOS
            (replace_char RSQUO APOS text))).

Definition MODE_NONE : pystr := lit "none".
Definition MODE_FIX : pystr := lit "fix_mojibake".
Definition MODE_ASCII : pystr := lit "ascii_quotes".
Definition MODE_FIX_ASCII : pystr := lit "fix_mojibake+ascii_quotes".

Definition _postprocess_text (text mode : pystr) : pystr :=
  let t := text in
  let mode := strip (if is_empty mode then MODE_FIX else mode) in
  if str_eqb mode MODE_NONE then t
  else if str_eqb mode MODE_FIX then _fix_mojibake t
  else if str_eqb mode MODE_ASCII then _replace_smart_quotes t
  else if str_eqb mode MODE_FIX_ASCII then _replace_smart_quotes (_fix_mojibake t)
  else _fix_mojibake t.

(** ** Dynamically typed values *)

(** A Python [float] that came out of a decimal literal is kept as that
    decimal: [FDec neg m e] is the double nearest to [(-1)^neg * m * 10^e]. *)
Inductive pyfloat : Type :=
| FNaN
| FInf (neg : bool)
| FDec (neg : bool) (m : N) (e : Z).

(** The values [json.loads] builds.  A [dict] keeps its keys in insertion
    order, so it is an association list with pairwise distinct keys. *)
Inductive pyval : Type :=
| PNone
| PBool (b : bool)
| PInt (z : Z)
| PFloat (f : pyfloat)
| PStr (s : pystr)
| PList (l : list pyval)
| PDict (d : list (pystr * pyval)).

Module PyVal.

(** A decimal [m * 10^e] is read as the double [0.0] exactly when it is at
    most [2^-1075], half of the least subnormal. *)
Definition dec_is_zero (m : N) (e : Z) : bool :=
  (m =? 0)
  || ((e <? 0)%Z && (Z.of_N m * 2 ^ 1075 <=? 10 ^ (- e))%Z).

Definition float_truthy (f : pyfloat) : bool :=
  match f with
  | FNaN => true
  | FInf _ => true
  | FDec _ m e => negb (dec_is_zero m e)
  end.

(** [bool(v)] *)
Definition truthy (v : pyval) : bool :=
  match v with
  | PNone => false
  | PBool b => b
  | PInt z => negb (z =? 0)%Z
  | PFloat f => float_truthy f
  | PStr s => negb (is_empty s)
  | PList l => match l with [] => false | _ => true end
  | PDict d => match d with [] => false | _ => true end
  end.

(** [a or b] *)
Definition py_or (a b : pyval) : pyval := if truthy a then a else b.

Definition is_none (v : pyval) : bool :=
  match v with PNone => true | _ => false end.

Definition is_dict (v : pyval) : bool :=
  match v with PDict _ => true | _ => false end.

(** [d.get(k)] and [d[k] = v] on the entries of a [dict]. *)
Fixpoint dict_get (d : list (pystr * pyval)) (k : pystr) : pyval :=
  match d with
  | [] => PNone
  | (k', v) :: r => if str_eqb k' k then v else dict_get r k
  end.

Fixpoint dict_set (d : list (pystr * pyval)) (k : pystr) (v : pyval)
  : list (pystr * pyval) :=
  match d with
  | [] => [(k, v)]
  | (k', v') :: r =>
      if str_eqb k' k then (k', v) :: r else (k', v') :: dict_set r k v
  end.

(** [str(v)]: the text itself for a [str]; for any other value the result is
    left to [repr], Python's own rendering. *)
Definition py_str (repr : pyval -> pystr) (v : pyval) : pystr :=
  match v with
  | PStr s => s
  | _ => repr v
  end.

End PyVal.

Import PyVal.

(** ** [json.loads]

    The scanner of CPython's [json] module with its default settings: strict
    strings, the constants [NaN], [Infinity] and [-Infinity] accepted, the
    four white space characters of JSON skipped between tokens.  The limits
    of the interpreter (recursion depth, digits of an integer literal) are
    not modelled: a document is rejected for its syntax only. *)

Module Json.

Definition is_ws (c : N) : bool :=
  (c =? 32) || (c =? 9) || (c =? 10) || (c =? 13).

Definition skip_ws (s : pystr) : pystr := lstrip_with is_ws s.

Definition is_digit (c : N) : bool := (48 <=? c) && (c <=? 57).

Fixpoint span_digits (s : pystr) : pystr * pystr :=
  match s with
  | [] => ([], [])
  | c :: r =>
      if is_digit c then
        let (ds, r') := span_digits r in (c :: ds, r')
      else ([], s)
  end.

Definition digits_value (ds : pystr) : N :=
  fold_left (fun acc d => acc * 10 + (d - 48)) ds 0.

Definition hex_value (c : N) : option N :=
  if is_digit c then Some (c - 48)
  else if (97 <=? c) && (c <=? 102) then Some (c - 87)
  else if (65 <=? c) && (c <=? 70) then Some (c - 55)
  else None.

Definition hex4 (a b c d : N) : option N :=
  match hex_value a, hex_value b, hex_value c, hex_value d with
  | Some x, Some y, Some z, Some w => Some (x * 4096 + y * 256 + z * 16 + w)
  | _, _, _, _ => None
  end.

Definition is_high_surrogate (c : N) : bool := (55296 <=? c) && (c <=? 56319).
Definition is_low_surrogate (c : N) : bool := (56320 <=? c) && (c <=? 57343).
Definition join_surrogates (hi lo : N) : N :=
  65536 + (hi - 55296) * 1024 + (lo - 56320).

Definition simple_escape (c : N) : option N :=
  if c =? 34 then Some 34
  else if c =? 92 then Some 92
  else if c =? 47 then Some 47
  else if c =? 98 then Some 8
  else if c =? 102 then Some 12
  else if c =? 110 then Some 10
  else if c =? 114 then Some 13
  else if c =? 116 then Some 9
  else None.

(** The characters decoded so far, last first, once a high surrogate that
    was waiting for its partner is known to stand alone. *)
Definition flush (pending : option N) (acc : pystr) : pystr :=
  match pending with
  | Some hi => hi :: acc
  | None => acc
  end.

(** The text after an opening quote: the decoded string and what follows
    the closing quote.  [acc] holds the decoded characters, last first;
    [pending] is a high surrogate read from a [\u] escape, which joins a
    low surrogate read from the escape that follows it, if there is one,
    and stands alone otherwise. *)
Fixpoint scanstring (s : pystr) (acc : pystr) (pending : option N) {struct s}
  : option (pystr * pystr) :=
  match s with
  | [] => None
  | c :: r =>
      if c =? 34 then Some (rev (flush pending acc), r)
      else if c =? 92 then
        match r with
        | [] => None
        | e :: r1 =>
            if e =? 117 then
              match r1 with
              | h1 :: h2 :: h3 :: h4 :: r2 =>
                  match hex4 h1 h2 h3 h4 with
                  | None => None
                  | Some cu =>
                      match pending with
                      | Some hi =>
                          if is_low_surrogate cu
                          then scanstring r2 (join_surrogates hi cu :: acc) None
                          else if is_high_surrogate cu
                          then scanstring r2 (hi :: acc) (Some cu)
                          else scanstring r2 (cu :: hi :: acc) None
                      | None =>
                          if is_high_surrogate cu
                          then scanstring r2 acc (Some cu)
                          else scanstring r2 (cu :: acc) None
                      end
                  end
              | _ => None
              end
            else
              match simple_escape e with
              | Some x => scanstring r1 (x :: flush pending acc) None
              | None => None
              end
        end
      else if c <? 32 then None
      else scanstring r (c :: flush pending acc) None
  end.

Definition opt_minus (s : pystr) : bool * pystr :=
  match s with
  | c :: r => if c =? 45 then (true, r) else (false, s)
  | [] => (false, s)
  end.

Definition int_part (s : pystr) : option (pystr * pystr) :=
  match s with
  | [] => None
  | d :: r =>
      if (49 <=? d) && (d <=? 57) then
        let (ds, r') := span_digits r in Some (d :: ds, r')
      else if d =? 48 then Some ([d], r)
      else None
  end.

Definition frac_part (s : pystr) : pystr * pystr :=
  match s with
  | dot :: f :: r =>
      if (dot =? 46) && is_digit f then span_digits (f :: r) else ([], s)
  | _ => ([], s)
  end.

Definition exp_sign (s : pystr) : bool * pystr :=
  match s with
  | c :: r =>
      if c =? 45 then (true, r)
      else if c =? 43 then (false, r)
      else (false, s)
  | [] => (false, s)
  end.

Definition exp_part (s : pystr) : option (bool * pystr) * pystr :=
  match s with
  | e :: r =>
      if (e =? 101) || (e =? 69) then
        let (eneg, r1) := exp_sign r in
        let (eds, r2) := span_digits r1 in
        match eds with
        | [] => (None, s)
        | _ => (Some (eneg, eds), r2)
        end
      else (None, s)
  | [] => (None, s)
  end.

Definition signed (neg : bool) (n : N) : Z :=
  if neg then (- Z.of_N n)%Z else Z.of_N n.

(** A number at the head of [s]: an [int] when it has neither fraction nor
    exponent, a [float] otherwise. *)
Definition match_number (s : pystr) : option (pyval * pystr) :=
  let (neg, s1) := opt_minus s in
  match int_part s1 with
  | None => None
  | Some (ids, s2) =>
      let (fds, s3) := frac_part s2 in
      let (ex, s4) := exp_part s3 in
      match fds, ex with
      | [], None => Some (PInt (signed neg (digits_value ids)), s4)
      | _, None =>
          Some (PFloat (FDec neg (digits_value (ids ++ fds))
                          (- Z.of_nat (length fds))), s4)
      | _, Some (eneg, eds) =>
          Some (PFloat (FDec neg (digits_value (ids ++ fds))
                          (signed eneg (digits_value eds)
                           - Z.of_nat (length fds))), s4)
      end
  end.

Definition constant (s : pystr) : option (pyval * pystr) :=
  match s with
  | [] => None
  | c :: _ =>
      if c =? 110 then option_map (pair PNone) (after_prefix (lit "null") s)
      else if c =? 116 then option_map (pair (PBool true)) (after_prefix (lit "true") s)
      else if c =? 102 then option_map (pair (PBool false)) (after_prefix (lit "false") s)
      else if c =? 78 then option_map (pair (PFloat FNaN)) (after_prefix (lit "NaN") s)
      else if c =? 73 then
        option_map (pair (PFloat (FInf false))) (after_prefix (lit "Infinity") s)
      else if c =? 45 then
        option_map (pair (PFloat (FInf true))) (after_prefix (lit "-Infinity") s)
      else None
  end.

(** [scan_once]: one JSON term at the head of [s].  [fuel] bounds the
    number of nested calls; [2 * length s + 2] is always enough. *)
Fixpoint scan_once (fuel : nat) (s : pystr) {struct fuel}
  : option (pyval * pystr) :=
  match fuel with
  | O => None
  | S fuel' =>
      match s with
      | [] => None
      | c :: r =>
          if c =? 34 then
            match scanstring r [] None with
            | Some (str, rest) => Some (PStr str, rest)
            | None => None
            end
          else if c =? 123 then
            match skip_ws r with
            | c1 :: r1 =>
                if c1 =? 125 then Some (PDict [], r1)
                else parse_object fuel' (c1 :: r1) []
            | [] => None
            end
          else if c =? 91 then
            match skip_ws r with
            | c1 :: r1 =>
                if c1 =? 93 then Some (PList [], r1)
                else parse_array fuel' (c1 :: r1) []
            | [] => None
            end
          else
            match constant s with
            | Some res => Some res
            | None => match_number s
            end
      end
  end

(** The items of a non-empty array, [s] at the start of an item. *)
with parse_array (fuel : nat) (s : pystr) (acc : list pyval) {struct fuel}
  : option (pyval * pystr) :=
  match fuel with
  | O => None
  | S fuel' =>
      match scan_once fuel' s with
      | None => None
      | Some (v, r) =>
          match skip_ws r with
          | c :: r1 =>
              if c =? 93 then Some (PList (rev (v :: acc)), r1)
              else if c =? 44 then parse_array fuel' (skip_ws r1) (v :: acc)
              else None
          | [] => None
          end
      end
  end

(** The members of a non-empty object, [s] at the start of a key. *)
with parse_object (fuel : nat) (s : pystr) (acc : list (pystr * pyval))
  {struct fuel} : option (pyval * pystr) :=
  match fuel with
  | O => None
  | S fuel' =>
      match s with
      | q :: r =>
          if q =? 34 then
            match scanstring r [] None with
            | None => None
            | Some (key, r1) =>
                match skip_ws r1 with
                | col :: r2 =>
                    if col =? 58 then
                      match scan_once fuel' (skip_ws r2) with
                      | None => None
                      | Some (v, r3) =>
                          match skip_ws r3 with
                          | c :: r4 =>
                              if c =? 125 then Some (PDict (dict_set acc key v), r4)
                              else if c =? 44 then
                                parse_object fuel' (skip_ws r4) (dict_set acc key v)
                              else None
                          | [] => None
                          end
                      end
                    else None
                | [] => None
                end
            end
          else None
      | [] => None
      end
  end.

(** [json.loads(s)]: [None] where Python raises. *)
Definition loads (s : pystr) : option pyval :=
  match scan_once (2 * length s + 2) (skip_ws s) with
  | Some (v, rest) =>
      match skip_ws rest with
      | [] => Some v
      | _ => None
      end
  | None => None
  end.

End Json.

Import Json.

(** ** The regular expressions of the module

    Each pattern of the source is embedded as the function that [re.search]
    or [re.sub] computes with it. *)

Module Re.

(** [unicode_tolower] of the [re] engine, on the code points whose lower
    case is an ASCII letter: the capitals, U+0130 and the Kelvin sign.  A
    literal letter of a pattern compiled with [IGNORECASE] matches the
    characters that this function sends to it; [i] and [s] also match the
    dotless i (U+0131) and the long s (U+017F). *)
Definition tolower (c : N) : N :=
  if (65 <=? c) && (c <=? 90) then c + 32
  else if c =? 304 then 105
  else if c =? 8490 then 107
  else c.

Definition ci_eq (p c : N) : bool :=
  let l := tolower c in
  (l =? p) || ((p =? 105) && (l =? 305)) || ((p =? 115) && (l =? 383)).

(** The literal [p], in lower case, matches case-insensitively at the head
    of [s]: what follows the match. *)
Fixpoint ci_prefix (p s : pystr) : option pystr :=
  match p, s with
  | [], _ => Some s
  | x :: p', y :: s' => if ci_eq x y then ci_prefix p' s' else None
  | _ :: _, [] => None
  end.

Definition TAG_OPEN : pystr := lit "<think>".
Definition TAG_CLOSE : pystr := lit "</think>".

(** The lazy [(.*?)</think>] from the head of [s]: the group and what
    follows the closing tag. *)
Fixpoint find_close (s : pystr) : option (pystr * pystr) :=
  match ci_prefix TAG_CLOSE s with
  | Some after => Some ([], after)
  | None =>
      match s with
      | [] => None
      | c :: r =>
          match find_close r with
          | Some (inner, after) => Some (c :: inner, after)
          | None => None
          end
      end
  end.

(** [_THINK_TAG_RE] matched at the head of [s]. *)
Definition think_match (s : pystr) : option (pystr * pystr) :=
  match ci_prefix TAG_OPEN s with
  | Some rest => find_close rest
  | None => None
  end.

(** [_THINK_TAG_RE.search(s)]: the text before the leftmost match, its
    group 1 and the text after it. *)
Fixpoint think_search (s : pystr) : option (pystr * pystr * pystr) :=
  match think_match s with
  | Some (inner, after) => Some ([], inner, after)
  | None =>
      match s with
      | [] => None
      | c :: r =>
          match think_search r with
          | Some (before, inner, after) => Some (c :: before, inner, after)
          | None => None
          end
      end
  end.

(** [_THINK_TAG_RE.sub("", s)]: every match is removed, left to right;
    [skip] counts the characters of the current match still to drop. *)
Fixpoint think_sub_from (skip : nat) (s : pystr) : pystr :=
  match s with
  | [] => []
  | c :: r =>
      match skip with
      | S k => think_sub_from k r
      | O =>
          match think_match s with
          | Some (inner, _) =>
              think_sub_from
                (length TAG_OPEN + length inner + length TAG_CLOSE - 1) r
          | None => c :: think_sub_from 0 r
          end
      end
  end.

Definition think_sub (s : pystr) : pystr := think_sub_from 0 s.

(** [re.sub(r"^\s*(final|answer)\s*:\s*", "", t, flags=re.IGNORECASE)] *)
Definition sub_label (t : pystr) : pystr :=
  let s1 := lstrip_with isspace t in
  let word :=
    match ci_prefix (lit "final") s1 with
    | Some r => Some r
    | None => ci_prefix (lit "answer") s1
    end in
  match word with
  | Some r =>
      match lstrip_with isspace r with
      | c :: r2 => if c =? 58 then lstrip_with isspace r2 else t
      | [] => t
      end
  | None => t
  end.

Definition FENCE : pystr := lit "```".

Definition is_tag_char (c : N) : bool :=
  ((97 <=? c) && (c <=? 122)) || ((65 <=? c) && (c <=? 90))
  || ((48 <=? c) && (c <=? 57)) || (c =? 95) || (c =? 45).

(** [re.sub(r"^```[a-zA-Z0-9_-]*\s*", "", t)] *)
Definition sub_fence_open (t : pystr) : pystr :=
  match after_prefix FENCE t with
  | Some r => lstrip_with isspace (lstrip_with is_tag_char r)
  | None => t
  end.

(** The pattern [\s*```$] matched at the head of [s]: what the match leaves
    behind, nothing or the final line feed that [$] stops before. *)
Definition fence_close_match (s : pystr) : option pystr :=
  match after_prefix FENCE (lstrip_with isspace s) with
  | Some [] => Some []
  | Some [c] => if c =? 10 then Some [c] else None
  | _ => None
  end.

(** [re.sub(r"\s*```$", "", t)] *)
Fixpoint sub_fence_close (s : pystr) : pystr :=
  match fence_close_match s with
  | Some rest => rest
  | None =>
      match s with
      | [] => []
      | c :: r => c :: sub_fence_close r
      end
  end.

End Re.

Import Re.

(** ** Answer/thinking splitter *)

Definition BACKTICK : N := 96.

(** [_clean_answer] on a text. *)
Definition clean_text (text : pystr) : pystr :=
  if is_empty text then []
  else
    let t := strip text in
    let t := sub_label t in
    let t :=
      if startswith t FENCE && endswith t FENCE
      then strip (strip_char BACKTICK t)
      else t in
    strip t.

Definition _split_thinking_and_answer_from_content (content : pystr)
  : pystr * pystr :=
  if is_empty content then ([], [])
  else
    match think_search content with
    | Some (_, group1, _) =>
        let thinking := strip group1 in
        let answer := strip (think_sub content) in
        (thinking, clean_text answer)
    | None => ([], clean_text content)
    end.

Section Splitter.

(** Python's [str] on the values that are not texts. *)
Variable repr : pyval -> pystr.

(** [_clean_answer] on a value of any type: [not text] first, then
    [str(text)]. *)
Definition _clean_answer (text : pyval) : pystr :=
  if negb (truthy text) then []
  else clean_text (py_str repr text).

Definition _split_thinking_and_answer (message_obj : pyval) : pystr * pystr :=
  let (reasoning, content) :=
    match message_obj with
    | PDict d =>
        (py_or (py_or (dict_get d (lit "reasoning")) (dict_get d (lit "thoughts")))
               (PStr []),
         py_or (dict_get d (lit "content")) (PStr []))
    | _ => (PStr [], PStr [])
    end in
  let by_content :=
    match content with
    | PStr c => _split_thinking_and_answer_from_content c
    | _ => ([], _clean_answer (PStr (py_str repr content)))
    end in
  match reasoning with
  | PStr r =>
      if negb (is_empty (strip r)) then (strip r, _clean_answer content)
      else by_content
  | _ => by_content
  end.

End Splitter.

(** ** Embedded JSON extractor *)

(** [None] stands both for a failed parse and for the document [null]. *)
Definition _safe_json_loads (s : pystr) : pyval :=
  match Json.loads s with
  | Some v => v
  | None => PNone
  end.

Definition LBRACE : N := 123.
Definition LBRACKET : N := 91.

(** The body of [for i in range(0, min(4000, len(candidate)))], over the
    values of [i] still to come. *)
Fixpoint try_chunks (candidate : pystr) (idxs : list nat) : pyval :=
  match idxs with
  | [] => PNone
  | i :: rest =>
      let chunk := strip (firstn (length candidate - i) candidate) in
      if is_empty chunk then PNone
      else
        match _safe_json_loads chunk with
        | PNone => try_chunks candidate rest
        | parsed => parsed
        end
  end.

(** The text that [_extract_json_from_text] parses: trimmed and, when it
    starts with a fence, without the opening and the closing fence. *)
Definition strip_fences (text : pystr) : pystr :=
  let t := strip text in
  if startswith t FENCE
  then strip (sub_fence_close (sub_fence_open t))
  else t.

(** What follows the failed direct parse. *)
Definition scan_from_bracket (t : pystr) : pyval :=
  let obj_start := find_char LBRACE t in
  let arr_start := find_char LBRACKET t in
  match obj_start, arr_start with
  | None, None => PNone
  | _, _ =>
      let start :=
        match obj_start, arr_start with
        | Some o, None => o
        | Some o, Some a => if (o <? a)%nat then o else a
        | None, Some a => a
        | None, None => O
        end in
      let candidate := strip (skipn start t) in
      try_chunks candidate (seq 0 (Nat.min 4000 (length candidate)))
  end.

Definition _extract_json_from_text (text : pystr) : pyval :=
  if is_empty text then PNone
  else
    let t := strip_fences text in
    match _safe_json_loads t with
    | PNone => scan_from_bracket t
    | direct => direct
    end.

(** ** Model selection from the models endpoint *)

(** The exceptions that leave the functions of the module. *)
Inductive pyexn : Type :=
| ServerUrlEmpty                      (* ValueError("server_url is empty") *)
| ImageError                          (* raised by the image conversion *)
| ServerError (status : Z)            (* RuntimeError("llama.cpp server error ...") *)
| RequestFailed                       (* RuntimeError("Request failed: ...") *)
| AttributeError
| KeyError
| TypeError.

Inductive pyresult (A : Type) : Type :=
| Ok (a : A)
| Raise (e : pyexn).

Arguments Ok {A} a.
Arguments Raise {A} e.

Definition nonblank (s : pystr) : bool := negb (is_empty (strip s)).

(** [item.get("id") or item.get("name") or item.get("model")], kept when it
    is a text with something else than white space in it. *)
Definition item_model_id (d : list (pystr * pyval)) : option pystr :=
  match py_or (py_or (dict_get d (lit "id")) (dict_get d (lit "name")))
              (dict_get d (lit "model")) with
  | PStr mid => if nonblank mid then Some (strip mid) else None
  | _ => None
  end.

(** [for item in data: ...] of the ["data"] entry. *)
Fixpoint pick_from_data (items : list pyval) : option pystr :=
  match items with
  | [] => None
  | item :: rest =>
      match item with
      | PDict d =>
          match item_model_id d with
          | Some mid => Some mid
          | None => pick_from_data rest
          end
      | _ => pick_from_data rest
      end
  end.

(** [for item in models: ...] of the ["models"] entry, where an item may
    also be the identifier itself. *)
Fixpoint pick_from_models (items : list pyval) : option pystr :=
  match items with
  | [] => None
  | item :: rest =>
      match item with
      | PDict d =>
          match item_model_id d with
          | Some mid => Some mid
          | None => pick_from_models rest
          end
      | PStr s => if nonblank s then Some (strip s) else pick_from_models rest
      | _ => pick_from_models rest
      end
  end.

Definition _pick_model_from_models_payload (payload : pyval)
  : pyresult (option pystr) :=
  match payload with
  | PDict p =>
      let from_data :=
        match dict_get p (lit "data") with
        | PList data => pick_from_data data
        | _ => None
        end in
      match from_data with
      | Some mid => Ok (Some mid)
      | None =>
          match dict_get p (lit "models") with
          | PList models => Ok (pick_from_models models)
          | _ => Ok None
          end
      end
  | _ => Raise AttributeError
  end.

(** ** Streaming decoder *)

Record stream_meta : Type := { done : bool; chunks : Z }.

Record stream_acc : Type := {
  content_parts : list pystr;
  reasoning_parts : list pystr;
  meta : stream_meta
}.

Definition acc_init : stream_acc :=
  {| content_parts := []; reasoning_parts := [];
     meta := {| done := false; chunks := 0 |} |}.

(** [_iter_sse_lines]: the lines of the response, trimmed, without the
    missing and the blank ones. *)
Fixpoint _iter_sse_lines (resp : list (option pystr)) : list pystr :=
  match resp with
  | [] => []
  | None :: rest => _iter_sse_lines rest
  | Some raw :: rest =>
      let line := strip raw in
      if is_empty line then _iter_sse_lines rest
      else line :: _iter_sse_lines rest
  end.

Definition DATA_PREFIX : pystr := lit "data:".
Definition SENTINEL : pystr := lit "[DONE]".

Definition data_str_of (line : pystr) : pystr :=
  if startswith line DATA_PREFIX
  then strip (skipn (length DATA_PREFIX) line)
  else strip line.

(** The text of [d.get(key)] when it is a non-empty [str]. *)
Definition text_field (v : pyval) : list pystr :=
  match v with
  | PStr s => if is_empty s then [] else [s]
  | _ => []
  end.

(** The two blocks of the loop body, for [delta] and for [message]: append
    the content and the reasoning of [obj] when it is a mapping. *)
Definition append_fields (obj : pyval) (st : stream_acc) : stream_acc :=
  match obj with
  | PDict d =>
      {| content_parts :=
           content_parts st ++ text_field (dict_get d (lit "content"));
         reasoning_parts :=
           reasoning_parts st
           ++ text_field (py_or (dict_get d (lit "reasoning"))
                                (dict_get d (lit "thoughts")));
         meta := meta st |}
  | _ => st
  end.

Definition count_chunk (st : stream_acc) : stream_acc :=
  {| content_parts := content_parts st;
     reasoning_parts := reasoning_parts st;
     meta := {| done := done (meta st); chunks := chunks (meta st) + 1 |} |}.

Definition set_done (st : stream_acc) : stream_acc :=
  {| content_parts := content_parts st;
     reasoning_parts := reasoning_parts st;
     meta := {| done := true; chunks := chunks (meta st) |} |}.

(** The loop body after the sentinel test, on one [data_str]. *)
Definition process_event (data_str : pystr) (st : stream_acc) : stream_acc :=
  match _safe_json_loads data_str with
  | PDict chunk =>
      let st := count_chunk st in
      match dict_get chunk (lit "choices") with
      | PList (first :: _) =>
          let c0 := match first with PDict c => c | _ => [] end in
          let st := append_fields (dict_get c0 (lit "delta")) st in
          append_fields (dict_get c0 (lit "message")) st
      | _ => st
      end
  | _ => st
  end.

(** [for line in _iter_sse_lines(resp)]: the state when the loop ends and
    the lines it has not taken from the iterator. *)
Fixpoint stream_loop (lines : list pystr) (st : stream_acc)
  : stream_acc * list pystr :=
  match lines with
  | [] => (st, [])
  | line :: rest =>
      let data_str := data_str_of line in
      if str_eqb data_str SENTINEL then (set_done st, rest)
      else stream_loop rest (process_event data_str st)
  end.

(** What follows the loop in [_parse_stream_and_accumulate]. *)
Definition finish_stream (st : stream_acc) : pystr * pystr * stream_meta :=
  let full_content := strip (join (content_parts st)) in
  let full_reasoning := strip (join (reasoning_parts st)) in
  if is_empty full_reasoning && negb (is_empty full_content) then
    let (think, ans) := _split_thinking_and_answer_from_content full_content in
    if negb (is_empty think) then (ans, think, meta st)
    else (full_content, full_reasoning, meta st)
  else (full_content, full_reasoning, meta st).

Definition _parse_stream_and_accumulate (resp : list (option pystr))
  : pystr * pystr * stream_meta :=
  finish_stream (fst (stream_loop (_iter_sse_lines resp) acc_init)).

(** ** The node's entry point *)

Record http_response : Type := {
  status_code : Z;
  json_body : option pyval;            (* [resp.json()], [None] when it raises *)
  body_lines : list (option pystr)     (* [resp.iter_lines(decode_unicode=True)] *)
}.

Definition headers_t := list (pystr * pystr).

(** The outbound requests, [requests.get] and [requests.post]. *)
Inductive request : Type :=
| GetReq (url : pystr) (headers : headers_t) (timeout : Z)
| PostReq (url : pystr) (payload : pyval) (headers : headers_t) (timeout : Z)
          (stream : bool).

Definition _build_headers (api_key : pystr) : headers_t :=
  let headers := [(lit "Content-Type", lit "application/json")] in
  let k := strip api_key in
  if negb (is_empty k)
  then headers ++ [(lit "Authorization", lit "Bearer " ++ k)]
  else headers.

Record run_args (tensor : Type) : Type := {
  server_url : pystr;
  prompt : pystr;
  system_prompt : pystr;
  image : option tensor;
  api_key : pystr;
  model_mode : pystr;
  model_override : pystr;
  stream : bool;
  timeout_seconds : Z;
  json_mode : bool;
  json_schema_hint : pystr;
  max_tokens : Z;
  seed : Z;
  stop_mode : pystr;
  stop_custom : pystr;
  text_postprocess : pystr
}.

Arguments server_url {tensor} _.
Arguments prompt {tensor} _.
Arguments system_prompt {tensor} _.
Arguments image {tensor} _.
Arguments api_key {tensor} _.
Arguments model_mode {tensor} _.
Arguments model_override {tensor} _.
Arguments stream {tensor} _.
Arguments timeout_seconds {tensor} _.
Arguments json_mode {tensor} _.
Arguments json_schema_hint {tensor} _.
Arguments max_tokens {tensor} _.
Arguments seed {tensor} _.
Arguments stop_mode {tensor} _.
Arguments stop_custom {tensor} _.
Arguments text_postprocess {tensor} _.

Definition outputs : Type := (pystr * pystr * pystr * pystr * pystr)%type.

Definition model_used_of (o : outputs) : pystr := snd o.

(** [d.get(k, default)] *)
Fixpoint dict_get_default (d : list (pystr * pyval)) (k : pystr) (default : pyval)
  : pyval :=
  match d with
  | [] => default
  | (k', v) :: r => if str_eqb k' k then v else dict_get_default r k default
  end.

(** [choices[0]] for a value [choices] that is true in a condition; the
    keys of a decoded JSON object are texts, so [0] is never one of them. *)
Definition index0 (choices : pyval) : pyresult pyval :=
  match choices with
  | PList (x :: _) => Ok x
  | PStr (c :: _) => Ok (PStr [c])
  | PDict _ => Raise KeyError
  | _ => Raise TypeError
  end.

Section Run.

(** The image tensors of the host, and the world outside the module: the
    HTTP server ([None] where [requests] raises), the PNG encoder of
    [_image_tensor_to_base64_png] giving the base-64 text ([None] where it
    raises), [json.dumps(v, ensure_ascii=False)] without and with
    [indent=2], and [str] on values that are not texts.  The progress bar
    changes no value and is left out. *)
Variable tensor : Type.
Variable http : request -> option http_response.
Variable png_base64 : tensor -> option pystr.
Variable json_dumps : pyval -> pystr.
Variable json_dumps_indent : pyval -> pystr.
Variable repr : pyval -> pystr.

Definition _image_tensor_to_base64_png (image : option tensor)
  : pyresult (option pystr) :=
  match image with
  | None => Ok None
  | Some t =>
      match png_base64 t with
      | Some b64 => Ok (Some (lit "data:image/png;base64," ++ b64))
      | None => Raise ImageError
      end
  end.

(** The model identifier found and the request made for it. *)
Definition _get_first_model_id (server_url : pystr) (headers : headers_t)
  (timeout_s : Z) : option pystr * list request :=
  let url := rstrip_char 47 server_url ++ lit "/v1/models" in
  let req := GetReq url headers timeout_s in
  match http req with
  | None => (None, [req])
  | Some r =>
      if negb (status_code r =? 200)%Z then (None, [req])
      else
        match json_body r with
        | None => (None, [req])
        | Some j =>
            match _pick_model_from_models_payload j with
            | Ok res => (res, [req])
            | Raise _ => (None, [req])
            end
        end
  end.

Definition json_str_of (json_mode : bool) (answer mode : pystr) : pystr :=
  let json_obj := if json_mode then _extract_json_from_text answer else PNone in
  let json_str :=
    if negb (is_none json_obj) then json_dumps_indent json_obj else [] in
  _postprocess_text json_str mode.

(** The streaming branch after the status test. *)
Definition finish_streamed (a : run_args tensor) (resp : http_response)
  (model_used : pystr) : pyresult outputs :=
  let mode := text_postprocess a in
  let '(content, reasoning, meta) :=
    _parse_stream_and_accumulate (body_lines resp) in
  let answer := _postprocess_text (_clean_answer repr (PStr content)) mode in
  let thinking := _postprocess_text (strip reasoning) mode in
  let raw :=
    json_dumps
      (PDict [(lit "stream_meta",
               PDict [(lit "done", PBool (done meta));
                      (lit "chunks", PInt (chunks meta))]);
              (lit "content", PStr content);
              (lit "reasoning", PStr reasoning)]) in
  let raw := _postprocess_text raw mode in
  Ok (answer, thinking, json_str_of (json_mode a) answer mode, raw, model_used).

(** The single-shot branch after the status test. *)
Definition finish_single (a : run_args tensor) (resp : http_response)
  (model_used : pystr) : pyresult outputs :=
  let mode := text_postprocess a in
  match json_body resp with
  | None => Raise RequestFailed
  | Some data =>
      let raw := _postprocess_text (json_dumps_indent data) mode in
      match data with
      | PDict d =>
          let choices := py_or (dict_get d (lit "choices")) (PList []) in
          if negb (truthy choices) then Ok ([], [], [], raw, model_used)
          else
            match index0 choices with
            | Raise e => Raise e
            | Ok c0 =>
                let first := match c0 with PDict f => f | _ => [] end in
                match dict_get first (lit "message") with
                | PDict m =>
                    let (thinking, answer) :=
                      _split_thinking_and_answer repr (PDict m) in
                    let answer := _postprocess_text answer mode in
                    let thinking := _postprocess_text thinking mode in
                    Ok (answer, thinking, json_str_of (json_mode a) answer mode,
                        raw, model_used)
                | _ =>
                    let text := dict_get_default first (lit "text") (PStr []) in
                    let answer := _postprocess_text (_clean_answer repr text) mode in
                    Ok (answer, [], json_str_of (json_mode a) answer mode,
                        raw, model_used)
                end
            end
      | _ => Raise AttributeError
      end
  end.

Definition JSON_INSTRUCTION : pystr :=
  lit "Return ONLY valid JSON. No commentary, no markdown, no code fences.".

Definition NL : N := 10.

(** Model selection: the identifier and the requests made to find it. *)
Definition select_model (a : run_args tensor) (server_url : pystr)
  (headers : headers_t) (timeout_s : Z) : pystr * list request :=
  let model_used :=
    if str_eqb (if is_empty (model_mode a) then lit "auto" else model_mode a)
               (lit "custom")
    then strip (model_override a) else [] in
  if is_empty model_used then
    let (found, reqs) := _get_first_model_id server_url headers timeout_s in
    (match found with
     | Some m => if is_empty m then lit "local-model" else m
     | None => lit "local-model"
     end, reqs)
  else (model_used, []).

(** Stop selection. *)
Definition select_stop (a : run_args tensor) : pystr :=
  if str_eqb (stop_mode a) (lit "preset:common_eot") then lit "<|eot_id|>"
  else if str_eqb (stop_mode a) (lit "preset:triple_hash") then lit "###"
  else if str_eqb (stop_mode a) (lit "custom") then strip (stop_custom a)
  else [].

(** The system text, with the JSON instruction in JSON mode. *)
Definition system_text (a : run_args tensor) : pystr :=
  let sys := strip (system_prompt a) in
  if json_mode a then
    let hint := strip (json_schema_hint a) in
    let json_instruction :=
      if negb (is_empty hint)
      then JSON_INSTRUCTION ++ [NL] ++ lit "JSON schema / shape hint:"
           ++ [NL] ++ hint
      else JSON_INSTRUCTION in
    if negb (is_empty sys)
    then strip (sys ++ [NL; NL] ++ json_instruction)
    else json_instruction
  else sys.

Definition build_messages (a : run_args tensor) (user_text : pystr)
  (data_url : option pystr) : list pyval :=
  let sys := system_text a in
  let messages :=
    if negb (is_empty sys)
    then [PDict [(lit "role", PStr (lit "system")); (lit "content", PStr sys)]]
    else [] in
  let user_content :=
    match image a, data_url with
    | None, _ => PStr user_text
    | Some _, Some url =>
        PList [PDict [(lit "type", PStr (lit "text"));
                      (lit "text", PStr user_text)];
               PDict [(lit "type", PStr (lit "image_url"));
                      (lit "image_url", PDict [(lit "url", PStr url)])]]
    | Some _, None =>
        PList [PDict [(lit "type", PStr (lit "text"));
                      (lit "text", PStr user_text)]]
    end in
  messages ++ [PDict [(lit "role", PStr (lit "user"));
                      (lit "content", user_content)]].

Definition build_payload (a : run_args tensor) (model_used : pystr)
  (messages : list pyval) : pyval :=
  let stop_value := select_stop a in
  let payload :=
    [(lit "model", PStr model_used); (lit "messages", PList messages)] in
  let payload :=
    if (0 <? max_tokens a)%Z
    then dict_set payload (lit "max_tokens") (PInt (max_tokens a))
    else payload in
  let payload :=
    if (0 <=? seed a)%Z
    then dict_set payload (lit "seed") (PInt (seed a))
    else payload in
  let payload :=
    if negb (is_empty stop_value)
    then dict_set payload (lit "stop") (PStr stop_value)
    else payload in
  let payload :=
    if json_mode a
    then dict_set payload (lit "response_format")
           (PDict [(lit "type", PStr (lit "json_object"))])
    else payload in
  let payload :=
    if stream a
    then dict_set payload (lit "stream") (PBool true)
    else payload in
  PDict payload.

(** The chat request and the decoding of its response. *)
Definition chat (a : run_args tensor) (endpoint : pystr) (payload : pyval)
  (headers : headers_t) (timeout_s : Z) (model_used : pystr)
  : pyresult outputs * list request :=
  let req := PostReq endpoint payload headers timeout_s (stream a) in
  match http req with
  | None => (Raise RequestFailed, [req])
  | Some resp =>
      if negb (status_code resp =? 200)%Z
      then (Raise (ServerError (status_code resp)), [req])
      else if stream a
      then (finish_streamed a resp model_used, [req])
      else (finish_single a resp model_used, [req])
  end.

(** [SimpleLlamaCppClient.run]: what it returns or raises, and the
    requests it has sent, in order. *)
Definition run (a : run_args tensor) : pyresult outputs * list request :=
  let server_url := rstrip_char 47 (strip (server_url a)) in
  if is_empty server_url then (Raise ServerUrlEmpty, [])
  else
    let user_text := strip (prompt a) in
    if is_empty user_text then (Ok ([], [], [], [], []), [])
    else
      let headers := _build_headers (api_key a) in
      let timeout_s :=
        if (timeout_seconds a =? 0)%Z then 300%Z else timeout_seconds a in
      let (model_used, trace) := select_model a server_url headers timeout_s in
      let endpoint := server_url ++ lit "/v1/chat/completions" in
      match _image_tensor_to_base64_png (image a) with
      | Raise e => (Raise e, trace)
      | Ok data_url =>
          let messages := build_messages a user_text data_url in
          let payload := build_payload a model_used messages in
          let (res, sent) := chat a endpoint payload headers timeout_s model_used in
          (res, trace ++ sent)
      end.

End Run.

Arguments _image_tensor_to_base64_png {tensor} png_base64 image.
Arguments finish_streamed {tensor} json_dumps json_dumps_indent repr a resp model_used.
Arguments finish_single {tensor} json_dumps_indent repr a resp model_used.
Arguments select_model {tensor} http a server_url headers timeout_s.
Arguments select_stop {tensor} a.
Arguments system_text {tensor} a.
Arguments build_messages {tensor} a user_text data_url.
Arguments build_payload {tensor} a model_used messages.
Arguments chat {tensor} http json_dumps json_dumps_indent repr a endpoint payload
  headers timeout_s model_used.
Arguments run {tensor} http png_base64 json_dumps json_dumps_indent repr a.

(** ** Definitions that restate the specification *)

(** Quote straightening as the specification words it: one character at a
    time, the four curly marks to their ASCII counterparts. *)
Definition is_curly (c : N) : bool :=
  (c =? LSQUO) || (c =? RSQUO) || (c =? LDQUO) || (c =? RDQUO).

Definition straighten_char (c : N) : N :=
  if (c =? LSQUO) || (c =? RSQUO) then APOS
  else if (c =? LDQUO) || (c =? RDQUO) then QUOT
  else c.

Definition is_ascii (s : pystr) : bool := forallb (fun c => c <? 128) s.

Definition beyond_latin1 (s : pystr) : bool := existsb (fun c => 255 <? c) s.

(** The text is itself mis-decoded text: it can be encoded in Latin-1 and
    the bytes are valid UTF-8. *)
Definition redecodes (s : pystr) : bool :=
  match encode_latin1 s with
  | Some bs =>
      match decode_utf8 bs with
      | Some _ => true
      | None => false
      end
  | None => false
  end.

(** ** Concrete inputs *)

(** The text [Ã\x83Â©], a twice mis-decoded [é]: each repair peels one
    layer. *)
Definition double_mojibake : pystr := [195; 131; 194; 169].

(** A world in which no server answers and nothing can be rendered. *)
Definition no_server (_ : request) : option http_response := None.
Definition no_png (_ : unit) : option pystr := None.
Definition no_text (_ : pyval) : pystr := [].

Definition default_args : run_args unit :=
  {| server_url := lit "http://127.0.0.1:8082";
     prompt := [];
     system_prompt := [];
     image := None;
     api_key := [];
     model_mode := lit "auto";
     model_override := [];
     stream := true;
     timeout_seconds := 300;
     json_mode := false;
     json_schema_hint := [];
     max_tokens := 0;
     seed := (-1);
     stop_mode := lit "none";
     stop_custom := [];
     text_postprocess := lit "fix_mojibake" |}.

Definition with_prompt (a : run_args unit) (p : pystr) : run_args unit :=
  {| server_url := server_url a; prompt := p;
     system_prompt := system_prompt a; image := image a;
     api_key := api_key a; model_mode := model_mode a;
     model_override := model_override a; stream := stream a;
     timeout_seconds := timeout_seconds a; json_mode := json_mode a;
     json_schema_hint := json_schema_hint a; max_tokens := max_tokens a;
     seed := seed a; stop_mode := stop_mode a; stop_custom := stop_custom a;
     text_postprocess := text_postprocess a |}.

Definition with_server_url (a : run_args unit) (u : pystr) : run_args unit :=
  {| server_url := u; prompt := prompt a;
     system_prompt := system_prompt a; image := image a;
     api_key := api_key a; model_mode := model_mode a;
     model_override := model_override a; stream := stream a;
     timeout_seconds := timeout_seconds a; json_mode := json_mode a;
     json_schema_hint := json_schema_hint a; max_tokens := max_tokens a;
     seed := seed a; stop_mode := stop_mode a; stop_custom := stop_custom a;
     text_postprocess := text_postprocess a |}.

(** A literal in which the apostrophe stands for the double quote. *)
Definition litq (s : string) : pystr := replace_char 39 34 (lit s).

(** The three lines of the end-to-end example of the specification. *)
Definition hello_line1 : pystr := litq "data: {'choices':[{'delta':{'content':'Hel'}}]}".
Definition hello_line2 : pystr := litq "data: {'choices':[{'delta':{'content':'lo'}}]}".
Definition done_line : pystr := lit "data: [DONE]".

Definition hello_stream : list (option pystr) :=
  [Some hello_line1; Some hello_line2; Some done_line].

(** A stream whose only event carries a labelled answer and no marker. *)
Definition labelled_stream : list (option pystr) :=
  [Some (litq "data: {'choices':[{'delta':{'content':'Answer: hi'}}]}")].

(** A stream with inline markers split over two events. *)
Definition think_stream : list (option pystr) :=
  [Some (litq "data: {'choices':[{'delta':{'content':'<think>pl'}}]}");
   Some (litq "data: {'choices':[{'delta':{'content':'an</think>result'}}]}");
   Some done_line].

(** A server that lists one model and streams the greeting. *)
Definition demo_server (r : request) : option http_response :=
  match r with
  | GetReq _ _ _ =>
      Some {| status_code := 200;
              json_body :=
                Some (PDict [(lit "data",
                              PList [PDict [(lit "id", PStr (lit " llama-3 "))]])]);
              body_lines := [] |}
  | PostReq _ _ _ _ _ =>
      Some {| status_code := 200; json_body := None;
              body_lines := hello_stream |}
  end.

(** ** Vocabulary of the streaming properties *)

Definition is_sentinel (line : pystr) : bool :=
  str_eqb (data_str_of line) SENTINEL.

(** The line decodes to a mapping, the only kind of event that counts. *)
Definition is_event (line : pystr) : bool :=
  is_dict (_safe_json_loads (data_str_of line)).

(** The lines that come before the first sentinel. *)
Fixpoint before_sentinel (lines : list pystr) : list pystr :=
  match lines with
  | [] => []
  | l :: rest => if is_sentinel l then [] else l :: before_sentinel rest
  end.

(** The content fragments that one line contributes. *)
Definition event_contents (line : pystr) : list pystr :=
  content_parts (process_event (data_str_of line) acc_init).

(** The content fragment of a [delta] or [message] value: its ["content"]
    entry when the value is a mapping and the entry a text that is not
    empty. *)
Definition content_fragment (obj : pyval) : list pystr :=
  match obj with
  | PDict d =>
      match dict_get d (lit "content") with
      | PStr s => if is_empty s then [] else [s]
      | _ => []
      end
  | _ => []
  end.

(** The reasoning fragments that one line contributes. *)
Definition event_reasonings (line : pystr) : list pystr :=
  reasoning_parts (process_event (data_str_of line) acc_init).

(** ** Vocabulary of the splitter properties *)

(** Neither an opening nor a closing angle bracket. *)
Definition plain (c : N) : bool := negb (c =? 60) && negb (c =? 62).

(** [m] is [s] without some bracket-free text at either end. *)
Definition inner_of (s m : pystr) : Prop :=
  exists pre suf,
    s = pre ++ m ++ suf /\ forallb plain pre = true /\ forallb plain suf = true.

Definition add_after (suf : pystr) (x : pystr * pystr) : pystr * pystr :=
  (fst x, snd x ++ suf).

Definition add_around (pre suf : pystr) (x : pystr * pystr * pystr)
  : pystr * pystr * pystr :=
  (pre ++ fst (fst x), snd (fst x), snd x ++ suf).

(** A message whose reasoning field holds white space only. *)
Definition blank_reasoning_message : pyval :=
  PDict [(lit "reasoning", PStr (lit " "));
         (lit "content", PStr (lit "<think>x</think>y"))].

(** A message with both a reasoning field and inline markers. *)
Definition both_message : pyval :=
  PDict [(lit "thoughts", PStr (lit " plan "));
         (lit "content", PStr (lit "Answer: <think>x</think>y "))].

(** ** Vocabulary of the extractor properties *)

(** The first of the candidates that parses, absence if none does. *)
Fixpoint first_parse (candidates : list pystr) : pyval :=
  match candidates with
  | [] => PNone
  | c :: rest =>
      match _safe_json_loads c with
      | PNone => first_parse rest
      | parsed => parsed
      end
  end.

(** The index of the earliest [{] or [[]. *)
Fixpoint first_bracket (t : pystr) : option nat :=
  match t with
  | [] => None
  | c :: r =>
      if (c =? LBRACE) || (c =? LBRACKET) then Some O
      else option_map S (first_bracket r)
  end.

(** The candidates as the specification words them: the text from the
    opener on, then with one more trailing character removed each time, at
    most 4000 of them. *)
Definition candidates_by_trimming (candidate : pystr) : list pystr :=
  map (fun i => firstn (length candidate - i) candidate)
      (seq 0 (Nat.min 4000 (length candidate))).

(** The candidates of the source: each of the former, trimmed of white
    space. *)
Definition candidates_trimmed (candidate : pystr) : list pystr :=
  map strip (candidates_by_trimming candidate).

(** The fallback search as the specification words it. *)
Definition scan_by_trimming (t : pystr) : pyval :=
  match first_bracket t with
  | None => PNone
  | Some start => first_parse (candidates_by_trimming (skipn start t))
  end.

(** An empty object, 3999 form feeds and a letter. *)
Definition form_feed_text : pystr := lit "{}" ++ repeat 12 3999 ++ lit "x".

(** ** Vocabulary of the parser properties *)

(** The characters that can continue a number. *)
Definition number_char (c : N) : bool :=
  is_digit c || (c =? 46) || (c =? 101) || (c =? 69).

(** [t] can follow a number without being read as part of it. *)
Definition delim_ok (t : pystr) : Prop :=
  match t with
  | [] => True
  | c :: _ => number_char c = false
  end.

Definition nondigit_head (t : pystr) : Prop :=
  match t with
  | [] => True
  | c :: _ => is_digit c = false
  end.

(** [c] ends with the character [x]. *)
Definition ends_with (c : pystr) (x : N) : Prop := exists c', c = c' ++ [x].

(** [c] ends with a character that is neither white space nor a backtick. *)
Definition good_end (c : pystr) : Prop :=
  exists x, ends_with c x /\ isspace x = false /\ x <> BACKTICK.

(** What a successful scan with fuel [n] consumes, and that the same text
    is scanned the same way before another tail and with any fuel that is
    enough for its length. *)
Definition scan_frame (n : nat) : Prop :=
  forall s v rest,
    scan_once n s = Some (v, rest) ->
    exists c,
      s = c ++ rest /\ good_end c
      /\ (v = PNone -> c = lit "null")
      /\ forall t m, delim_ok t -> (2 * length c <= m)%nat ->
           scan_once m (c ++ t) = Some (v, t).

Definition array_frame (n : nat) : Prop :=
  forall s acc v rest,
    parse_array n s acc = Some (v, rest) ->
    exists c,
      s = c ++ rest /\ ends_with c 93 /\ v <> PNone
      /\ forall t m, (2 * length c + 1 <= m)%nat ->
           parse_array m (c ++ t) acc = Some (v, t).

Definition object_frame (n : nat) : Prop :=
  forall s acc v rest,
    parse_object n s acc = Some (v, rest) ->
    exists c,
      s = c ++ rest /\ ends_with c 125 /\ v <> PNone
      /\ forall t m, (2 * length c + 1 <= m)%nat ->
           parse_object m (c ++ t) acc = Some (v, t).

(** A JSON constant between three backticks, without a line break, and in
    a fence whose language tag has characters outside the class of the
    pattern. *)
Definition inline_fenced_true : pystr := lit "```true```".
Definition tagged_fenced_true : pystr :=
  lit "```c++" ++ [10] ++ lit "true" ++ [10] ++ lit "```".
Definition fenced_object : pystr :=
  lit "  ```json" ++ [10] ++ litq "{'a': [1, 2]}" ++ [10] ++ lit "``` ".

(** ** Vocabulary of the further properties *)

(** A Unicode scalar value: a code point that is not a surrogate. *)
Definition is_scalar (c : N) : bool :=
  (c <? 55296) || ((57343 <? c) && (c <? 1114112)).

(** [str.encode("utf-8")] on one scalar value, and on a text of them; read
    as code points, the bytes are the text as a Latin-1 decoder shows it. *)
Definition encode_utf8_char (c : N) : list N :=
  if c <? 128 then [c]
  else if c <? 2048 then [192 + c / 64; 128 + c mod 64]
  else if c <? 65536 then
    [224 + c / 4096; 128 + (c / 64) mod 64; 128 + c mod 64]
  else
    [240 + c / 262144; 128 + (c / 4096) mod 64; 128 + (c / 64) mod 64;
     128 + c mod 64].

Definition encode_utf8 (s : pystr) : list N := flat_map encode_utf8_char s.

(** The text [Here’s] as it looks after the wrong decoding. *)
Definition heres_mojibake : pystr := lit "Here" ++ [226; 128; 153] ++ lit "s".

(** A reply with prose, two marked blocks in mixed case and a label. *)
Definition two_blocks : pystr :=
  lit "Answer: 1 > 0 " ++ lit "<Think>" ++ lit " a > b " ++ lit "</THINK>"
  ++ lit "yes <think>more</think>!".

(** Any character but the opening angle bracket. *)
Definition no_lt (c : N) : bool := negb (c =? 60).

(** A message with a content and no reasoning of any kind. *)
Definition content_only_message : pyval :=
  PDict [(lit "role", PStr (lit "assistant"));
         (lit "reasoning", PNone);
         (lit "content", PStr (lit " Final: x -> y "))].

(** Neither a bracket that opens a JSON document nor a backtick. *)
Definition prose_char (c : N) : bool :=
  negb (c =? LBRACE) && negb (c =? LBRACKET) && negb (c =? BACKTICK).

(** A reply that wraps a JSON object in prose. *)
Definition wrapped_reply : pystr :=
  litq "Sure, here it is: {'a': [1, 2]} - hope this helps [ok]".

(** A character of running text: a prose character other than the double
    quote. *)
Definition text_char (c : N) : bool := prose_char c && negb (c =? 34).

(** The identifier that an entry of the ["data"] list gives, and the one
    that an entry of the ["models"] list gives, if any. *)
Definition data_entry_id (item : pyval) : option pystr :=
  match item with
  | PDict d => item_model_id d
  | _ => None
  end.

Definition models_entry_id (item : pyval) : option pystr :=
  match item with
  | PDict d => item_model_id d
  | PStr s => if nonblank s then Some (strip s) else None
  | _ => None
  end.

(** A models payload whose first entries are unusable. *)
Definition models_payload : pyval :=
  PDict [(lit "object", PStr (lit "list"));
         (lit "data",
          PList [PInt 7;
                 PDict [(lit "id", PStr (lit "  "))];
                 PDict [(lit "id", PStr []);
                        (lit "name", PStr (lit " qwen3-8b "))];
                 PDict [(lit "id", PStr (lit "other"))]]);
         (lit "models", PList [PStr (lit "ignored")])].

(** A models payload in the other shape, with a ["data"] entry that holds
    nothing usable. *)
Definition legacy_models_payload : pyval :=
  PDict [(lit "data", PList [PDict [(lit "id", PInt 3)]]);
         (lit "models",
          PList [PNone; PStr (lit " "); PStr (lit " llava:7b");
                 PDict [(lit "model", PStr (lit "later"))]])].

(** A stream that carries its reasoning in the field of its own, and a
    content with inline markers. *)
Definition reasoning_stream : list (option pystr) :=
  [Some (litq "data: {'choices':[{'delta':{'reasoning':'plan '}}]}");
   Some (litq "data: {'choices':[{'delta':{'content':'<think>x</think>ok'}}]}");
   Some done_line].

(** A server that answers every request with status 200: the models
    payload, a chat completion whose message holds a JSON object, and the
    stream with reasoning. *)
Definition chat_reply : pyval :=
  PDict [(lit "choices",
          PList [PDict [(lit "message",
                         PDict [(lit "role", PStr (lit "assistant"));
                                (lit "content",
                                 PStr (litq "Here: {'a': 1}"))])]])].

Definition chat_server (req : request) : option http_response :=
  match req with
  | GetReq _ _ _ =>
      Some {| status_code := 200; json_body := Some models_payload;
              body_lines := [] |}
  | PostReq _ _ _ _ _ =>
      Some {| status_code := 200; json_body := Some chat_reply;
              body_lines := reasoning_stream |}
  end.

(** A call in JSON mode, without streaming, with a system prompt and a
    custom model. *)
Definition json_args : run_args unit :=
  {| server_url := lit " http://127.0.0.1:8082// ";
     prompt := lit " list it ";
     system_prompt := lit " Be brief. ";
     image := None;
     api_key := lit " secret ";
     model_mode := lit "custom";
     model_override := lit " my-model ";
     stream := false;
     timeout_seconds := 0;
     json_mode := true;
     json_schema_hint := lit " {a: int} ";
     max_tokens := 64;
     seed := 7;
     stop_mode := lit "preset:triple_hash";
     stop_custom := [];
     text_postprocess := lit "none" |}.

(** The instruction that JSON mode adds to the system text, with the
    trimmed shape hint when there is one. *)
Definition json_instruction_with (hint : pystr) : pystr :=
  if is_empty hint then JSON_INSTRUCTION
  else JSON_INSTRUCTION ++ [NL] ++ lit "JSON schema / shape hint:" ++ [NL] ++ hint.

(** A list or a mapping. *)
Definition is_container (v : pyval) : bool :=
  match v with
  | PList _ | PDict _ => true
  | _ => false
  end.

(** * Properties *)

(** ** Text repair *)

Lemma replace_char_id old new s :
  forallb (fun c => negb (c =? old)) s = true -> replace_char old new s = s.
Proof.
  unfold replace_char; induction s as [|c s IH]; simpl; [reflexivity|].
  intros H; apply andb_true_iff in H as [Hc Hs].
  rewrite IH by assumption.
  destruct (c =? old); [discriminate|reflexivity].
Qed.

Lemma replace_smart_quotes_map text :
  _replace_smart_quotes text = map straighten_char text.
Proof.
  unfold _replace_smart_quotes.
  destruct text as [|c0 r0]; [reflexivity|].
  cbn [is_empty].
  generalize (c0 :: r0) as s; clear; intros s.
  unfold replace_char; rewrite !map_map.
  apply map_ext; intros c; cbv beta.
  unfold straighten_char.
  destruct (c =? RSQUO) eqn:E1; [apply N.eqb_eq in E1; subst; reflexivity|].
  cbv iota.
  destruct (c =? LSQUO) eqn:E2; [apply N.eqb_eq in E2; subst; reflexivity|].
  cbv iota.
  destruct (c =? LDQUO) eqn:E3; [apply N.eqb_eq in E3; subst; reflexivity|].
  cbv iota.
  destruct (c =? RDQUO) eqn:E4; [apply N.eqb_eq in E4; subst; reflexivity|].
  reflexivity.
Qed.

Lemma straighten_char_other c : is_curly c = false -> straighten_char c = c.
Proof.
  unfold is_curly, straighten_char; intros H.
  destruct (c =? LSQUO), (c =? RSQUO), (c =? LDQUO), (c =? RDQUO);
    try discriminate; reflexivity.
Qed.

Lemma straighten_char_not_curly c : is_curly (straighten_char c) = false.
Proof.
  unfold straighten_char.
  destruct ((c =? LSQUO) || (c =? RSQUO)) eqn:E1; [reflexivity|].
  destruct ((c =? LDQUO) || (c =? RDQUO)) eqn:E2; [reflexivity|].
  unfold is_curly.
  apply orb_false_iff in E1 as [-> ->], E2 as [-> ->]; reflexivity.
Qed.

Lemma replace_smart_quotes_idem text :
  _replace_smart_quotes (_replace_smart_quotes text) = _replace_smart_quotes text.
Proof.
  rewrite !replace_smart_quotes_map, map_map.
  apply map_ext; intros c.
  apply straighten_char_other, straighten_char_not_curly.
Qed.

(** C8. Quote straightening maps every character through
    [straighten_char]: each of the four curly marks becomes its straight
    ASCII counterpart at the same position and every other character is
    kept; a text without any of the four is returned as it is. *)
Theorem replace_smart_quotes_spec (text : pystr) :
  _replace_smart_quotes text = map straighten_char text
  /\ (forall c, is_curly c = false -> straighten_char c = c)
  /\ straighten_char LSQUO = APOS /\ straighten_char RSQUO = APOS
  /\ straighten_char LDQUO = QUOT /\ straighten_char RDQUO = QUOT
  /\ (existsb is_curly text = false -> _replace_smart_quotes text = text).
Proof.
  split; [apply replace_smart_quotes_map|].
  split; [apply straighten_char_other|].
  repeat (split; [reflexivity|]).
  intros H. rewrite replace_smart_quotes_map.
  induction text as [|c s IH]; [reflexivity|].
  simpl in H. apply orb_false_iff in H as [Hc Hs].
  simpl. rewrite straighten_char_other by assumption.
  f_equal; auto.
Qed.

Lemma replace_smart_quotes_spec_witness :
  let text := lit "it" ++ [RSQUO] ++ lit "s " ++ [LDQUO] ++ lit "ok" ++ [RDQUO] in
  _replace_smart_quotes text = lit "it's " ++ [QUOT] ++ lit "ok" ++ [QUOT]
  /\ _replace_smart_quotes (lit "plain") = lit "plain".
Proof.
  split.
  - exact (eq_trans
             (proj1 (replace_smart_quotes_spec
                       (lit "it" ++ [RSQUO] ++ lit "s " ++ [LDQUO] ++ lit "ok" ++ [RDQUO])))
             eq_refl).
  - apply (proj2 (proj2 (proj2 (proj2 (proj2 (proj2
             (replace_smart_quotes_spec (lit "plain")))))))).
    reflexivity.
Defined.

Lemma encode_latin1_ascii s : is_ascii s = true -> encode_latin1 s = Some s.
Proof.
  induction s as [|c s IH]; simpl; [reflexivity|].
  intros H; apply andb_true_iff in H as [Hc Hs].
  apply N.ltb_lt in Hc.
  replace (c <? 256) with true by (symmetry; apply N.ltb_lt; lia).
  rewrite IH by assumption; reflexivity.
Qed.

Lemma decode_utf8_ascii s : is_ascii s = true -> decode_utf8 s = Some s.
Proof.
  induction s as [|c s IH]; simpl; [reflexivity|].
  intros H; apply andb_true_iff in H as [Hc Hs].
  rewrite Hc, IH by assumption; reflexivity.
Qed.

Lemma encode_latin1_beyond s : beyond_latin1 s = true -> encode_latin1 s = None.
Proof.
  induction s as [|c s IH]; simpl; [discriminate|].
  intros H. destruct (c <? 256) eqn:Ec; [|reflexivity].
  apply orb_true_iff in H as [H|H].
  - apply N.ltb_lt in H, Ec; lia.
  - rewrite IH by assumption; reflexivity.
Qed.

Lemma beyond_latin1_redecodes u : beyond_latin1 u = true -> redecodes u = false.
Proof.
  intros H. unfold redecodes. rewrite (encode_latin1_beyond _ H). reflexivity.
Qed.

(** A text that is pure ASCII, or that is not mis-decoded text, is left
    alone by the repair. *)
Lemma fix_mojibake_stable u :
  is_ascii u = true \/ redecodes u = false -> _fix_mojibake u = u.
Proof.
  unfold _fix_mojibake, redecodes; intros [H|H].
  - rewrite (encode_latin1_ascii _ H), (decode_utf8_ascii _ H).
    destruct u; reflexivity.
  - destruct u as [|c u]; [reflexivity|]. cbn [is_empty].
    destruct (encode_latin1 (c :: u)) as [bs|]; [|reflexivity].
    destruct (decode_utf8 bs); [discriminate|reflexivity].
Qed.

Lemma postprocess_none t : _postprocess_text t MODE_NONE = t.
Proof. reflexivity. Qed.

Lemma postprocess_fix t : _postprocess_text t MODE_FIX = _fix_mojibake t.
Proof. reflexivity. Qed.

Lemma postprocess_ascii t :
  _postprocess_text t MODE_ASCII = _replace_smart_quotes t.
Proof. reflexivity. Qed.

Lemma postprocess_fix_ascii t :
  _postprocess_text t MODE_FIX_ASCII = _replace_smart_quotes (_fix_mojibake t).
Proof. reflexivity. Qed.

(** C2, as stated, fails: with mode [fix_mojibake] the second application
    changes the result of the first. *)
Lemma postprocess_not_idempotent :
  _postprocess_text (_postprocess_text double_mojibake MODE_FIX) MODE_FIX
  <> _postprocess_text double_mojibake MODE_FIX.
Proof. vm_compute. discriminate. Qed.

(** C2, amended. For each of the four modes, normalising twice gives the
    same text as normalising once when the mode is [none] or
    [ascii_quotes], and for the two repairing modes whenever the text
    normalised once is pure ASCII or is not itself mis-decoded text, that
    is, has a character above U+00FF or Latin-1 bytes that are not valid
    UTF-8. *)
Theorem postprocess_idempotent (text mode : pystr) :
  In mode [MODE_NONE; MODE_FIX; MODE_ASCII; MODE_FIX_ASCII] ->
  mode = MODE_NONE \/ mode = MODE_ASCII
  \/ is_ascii (_postprocess_text text mode) = true
  \/ redecodes (_postprocess_text text mode) = false ->
  _postprocess_text (_postprocess_text text mode) mode
  = _postprocess_text text mode.
Proof.
  intros Hin Hst.
  destruct Hin as [<-|[<-|[<-|[<-|[]]]]].
  - reflexivity.
  - destruct Hst as [H|[H|H]]; try discriminate H.
    rewrite !postprocess_fix in *. apply fix_mojibake_stable; assumption.
  - rewrite !postprocess_ascii. apply replace_smart_quotes_idem.
  - destruct Hst as [H|[H|H]]; try discriminate H.
    rewrite !postprocess_fix_ascii in *.
    rewrite (fix_mojibake_stable _ H). apply replace_smart_quotes_idem.
Qed.

Lemma postprocess_idempotent_witness :
  let text := lit "Here" ++ [226; 128; 153] ++ lit "s" in
  _postprocess_text text MODE_FIX = lit "Here" ++ [RSQUO] ++ lit "s"
  /\ _postprocess_text (_postprocess_text text MODE_FIX) MODE_FIX
     = _postprocess_text text MODE_FIX.
Proof.
  split; [reflexivity|].
  apply (postprocess_idempotent (lit "Here" ++ [226; 128; 153] ++ lit "s") MODE_FIX).
  - simpl; auto.
  - right; right; right; reflexivity.
Defined.

(** ** The entry point *)

Lemma is_empty_true (s : pystr) : is_empty s = true <-> s = [].
Proof. destruct s; simpl; split; congruence. Qed.

Lemma is_empty_false (s : pystr) : is_empty s = false <-> s <> [].
Proof. destruct s; simpl; split; congruence. Qed.

Lemma str_eqb_eq (a b : pystr) : str_eqb a b = true <-> a = b.
Proof.
  revert b; induction a as [|x a IH]; intros [|y b]; simpl;
    try (split; congruence).
  rewrite andb_true_iff, N.eqb_eq, IH. split.
  - intros [-> ->]; reflexivity.
  - intros H; inversion H; auto.
Qed.

Lemma str_eqb_refl (a : pystr) : str_eqb a a = true.
Proof. apply str_eqb_eq; reflexivity. Qed.

Lemma str_eqb_neq (a b : pystr) : str_eqb a b = false <-> a <> b.
Proof.
  rewrite <- str_eqb_eq. destruct (str_eqb a b); split; congruence.
Qed.

Lemma nonblank_strip s : nonblank s = true -> strip s <> [].
Proof. unfold nonblank; intros H; apply is_empty_false, negb_true_iff, H. Qed.

Lemma item_model_id_nonempty d m : item_model_id d = Some m -> m <> [].
Proof.
  unfold item_model_id.
  destruct (py_or _ _); try discriminate.
  destruct (nonblank s) eqn:E; [|discriminate].
  intros H; injection H as <-. apply nonblank_strip, E.
Qed.

Lemma pick_from_data_nonempty items m : pick_from_data items = Some m -> m <> [].
Proof.
  induction items as [|item rest IH]; simpl; [discriminate|].
  destruct item; auto.
  destruct (item_model_id d) eqn:E; auto.
  intros H; injection H as <-. eapply item_model_id_nonempty, E.
Qed.

Lemma pick_from_models_nonempty items m :
  pick_from_models items = Some m -> m <> [].
Proof.
  induction items as [|item rest IH]; simpl; [discriminate|].
  destruct item; auto.
  - destruct (nonblank s) eqn:E; auto.
    intros H; injection H as <-. apply nonblank_strip, E.
  - destruct (item_model_id d) eqn:E; auto.
    intros H; injection H as <-. eapply item_model_id_nonempty, E.
Qed.

Lemma pick_model_nonempty payload m :
  _pick_model_from_models_payload payload = Ok (Some m) -> m <> [].
Proof.
  unfold _pick_model_from_models_payload.
  destruct payload; try discriminate.
  destruct (dict_get d (lit "data")) eqn:Ed;
    try (destruct (dict_get d (lit "models")); try discriminate;
         intros H; injection H as H; eapply pick_from_models_nonempty, H).
  destruct (pick_from_data l) eqn:Ep.
  - intros H; injection H as <-. eapply pick_from_data_nonempty, Ep.
  - destruct (dict_get d (lit "models")); try discriminate.
    intros H; injection H as H; eapply pick_from_models_nonempty, H.
Qed.

Section RunFacts.

Variable tensor : Type.
Variable http : request -> option http_response.
Variable png_base64 : tensor -> option pystr.
Variable json_dumps : pyval -> pystr.
Variable json_dumps_indent : pyval -> pystr.
Variable repr : pyval -> pystr.

(** An identifier comes out of the probe only from a 200 answer whose JSON
    body holds a usable one. *)
Lemma get_first_model_id_some url headers timeout_s m reqs :
  _get_first_model_id http url headers timeout_s = (Some m, reqs) ->
  m <> []
  /\ exists r j,
       http (GetReq (rstrip_char 47 url ++ lit "/v1/models") headers timeout_s)
       = Some r
       /\ status_code r = 200%Z /\ json_body r = Some j
       /\ _pick_model_from_models_payload j = Ok (Some m).
Proof.
  unfold _get_first_model_id.
  destruct (http _) as [r|] eqn:Eh; [|discriminate].
  destruct (status_code r =? 200)%Z eqn:Es; simpl; [|discriminate].
  destruct (json_body r) as [j|] eqn:Ej; [|discriminate].
  destruct (_pick_model_from_models_payload j) as [res|] eqn:Ep; [|discriminate].
  intros H; injection H as -> _.
  split; [eapply pick_model_nonempty, Ep|].
  exists r, j. apply Z.eqb_eq in Es. auto.
Qed.

Lemma finish_streamed_model (a : run_args tensor) resp m o :
  finish_streamed json_dumps json_dumps_indent repr a resp m = Ok o ->
  model_used_of o = m.
Proof.
  unfold finish_streamed.
  destruct (_parse_stream_and_accumulate _) as [[c r] mt].
  intros H; injection H as <-; reflexivity.
Qed.

Lemma finish_single_model (a : run_args tensor) resp m o :
  finish_single json_dumps_indent repr a resp m = Ok o ->
  model_used_of o = m.
Proof.
  unfold finish_single.
  destruct (json_body resp) as [data|]; [|discriminate].
  destruct data; try discriminate.
  destruct (negb (truthy _)).
  - intros H; injection H as <-; reflexivity.
  - destruct (index0 _) as [c0|]; [|discriminate].
    destruct (dict_get _ (lit "message"));
      try (intros H; injection H as <-; reflexivity).
    destruct (_split_thinking_and_answer _ _).
    intros H; injection H as <-; reflexivity.
Qed.

Lemma chat_model (a : run_args tensor) endpoint payload headers timeout_s m o sent :
  chat http json_dumps json_dumps_indent repr a endpoint payload headers
       timeout_s m = (Ok o, sent) ->
  model_used_of o = m.
Proof.
  unfold chat.
  destruct (http _) as [resp|]; [|discriminate].
  destruct (negb _); [discriminate|].
  destruct (stream a); intros H; injection H as H _.
  - eapply finish_streamed_model, H.
  - eapply finish_single_model, H.
Qed.

Lemma select_model_spec (a : run_args tensor) url headers timeout_s m reqs :
  select_model http a url headers timeout_s = (m, reqs) ->
  m <> []
  /\ (model_mode a = lit "custom" -> strip (model_override a) <> [] ->
      m = strip (model_override a) /\ reqs = [])
  /\ (model_mode a <> lit "custom" \/ strip (model_override a) = [] ->
      m = match fst (_get_first_model_id http url headers timeout_s) with
          | Some id => id
          | None => lit "local-model"
          end).
Proof.
  unfold select_model.
  set (chosen := if str_eqb _ (lit "custom") then _ else _).
  assert (Hc : (model_mode a = lit "custom" -> chosen = strip (model_override a))
               /\ (model_mode a <> lit "custom" -> chosen = [])).
  { subst chosen; split; intros H.
    - rewrite H; reflexivity.
    - destruct (model_mode a) as [|c r] eqn:Em; [reflexivity|].
      cbn [is_empty].
      destruct (str_eqb (c :: r) (lit "custom")) eqn:E; [|reflexivity].
      apply str_eqb_eq in E; congruence. }
  destruct Hc as [Hc1 Hc2].
  destruct (is_empty chosen) eqn:Ee.
  - apply is_empty_true in Ee.
    destruct (_get_first_model_id _ _ _ _) as [found rq] eqn:Eg.
    intros H; injection H as <- <-.
    split; [|split].
    + destruct found as [id|]; [|discriminate].
      destruct (is_empty id) eqn:Ei; [discriminate|].
      apply is_empty_false, Ei.
    + intros Hm Ho. rewrite (Hc1 Hm) in Ee; contradiction.
    + intros _. cbn [fst].
      destruct found as [id|]; [|reflexivity].
      destruct (get_first_model_id_some _ _ _ _ _ Eg) as [Hne _].
      apply is_empty_false in Hne; rewrite Hne; reflexivity.
  - apply is_empty_false in Ee.
    intros H; injection H as <- <-.
    split; [assumption|split].
    + intros Hm _; split; [apply Hc1, Hm|reflexivity].
    + intros [Hm|Ho].
      * rewrite (Hc2 Hm) in Ee; contradiction.
      * destruct (str_eqb (model_mode a) (lit "custom")) eqn:E.
        -- apply str_eqb_eq in E. rewrite (Hc1 E) in Ee; contradiction.
        -- apply str_eqb_neq in E. rewrite (Hc2 E) in Ee; contradiction.
Qed.

End RunFacts.

(** C9, as stated, fails: with an empty server address the call raises
    before it looks at the prompt, so it does not return the five empty
    texts. *)
Lemma run_blank_prompt_raises :
  fst (run no_server no_png no_text no_text no_text
           (with_server_url default_args []))
  <> Ok ([], [], [], [], []).
Proof. vm_compute. discriminate. Qed.

(** C9, amended. When the server address is not blank once white space and
    trailing slashes are trimmed, a call whose prompt is empty or all white
    space returns five empty texts and sends no request, whatever the other
    parameters are. *)
Theorem run_blank_prompt (tensor : Type)
  (http : request -> option http_response)
  (png_base64 : tensor -> option pystr)
  (json_dumps json_dumps_indent repr : pyval -> pystr)
  (a : run_args tensor) :
  rstrip_char 47 (strip (server_url a)) <> [] ->
  strip (prompt a) = [] ->
  run http png_base64 json_dumps json_dumps_indent repr a
  = (Ok ([], [], [], [], []), []).
Proof.
  intros Hu Hp. unfold run.
  apply is_empty_false in Hu; rewrite Hu.
  rewrite Hp; reflexivity.
Qed.

Lemma run_blank_prompt_witness :
  run no_server no_png no_text no_text no_text
      (with_prompt default_args (lit "  "))
  = (Ok ([], [], [], [], []), []).
Proof.
  apply (run_blank_prompt unit no_server no_png no_text no_text no_text
           (with_prompt default_args (lit "  "))).
  - vm_compute; discriminate.
  - reflexivity.
Defined.

(** C10, as stated, fails: a call with a blank prompt returns an empty
    model identifier. *)
Lemma run_model_used_empty :
  exists o tr,
    run no_server no_png no_text no_text no_text default_args = (Ok o, tr)
    /\ model_used_of o = [].
Proof. eexists; eexists; split; reflexivity. Qed.

(** C10, amended. Whenever a call whose prompt is not blank returns, the
    model identifier it returns is not empty: in custom mode with an
    override that is not blank it is the trimmed override, otherwise it is
    the identifier probed from the models endpoint, and ["local-model"]
    when the probe finds none. *)
Theorem run_model_used (tensor : Type)
  (http : request -> option http_response)
  (png_base64 : tensor -> option pystr)
  (json_dumps json_dumps_indent repr : pyval -> pystr)
  (a : run_args tensor) (o : outputs) (tr : list request) :
  strip (prompt a) <> [] ->
  run http png_base64 json_dumps json_dumps_indent repr a = (Ok o, tr) ->
  let probed :=
    fst (_get_first_model_id http (rstrip_char 47 (strip (server_url a)))
           (_build_headers (api_key a))
           (if (timeout_seconds a =? 0)%Z then 300%Z else timeout_seconds a)) in
  model_used_of o <> []
  /\ (model_mode a = lit "custom" -> strip (model_override a) <> [] ->
      model_used_of o = strip (model_override a))
  /\ (model_mode a <> lit "custom" \/ strip (model_override a) = [] ->
      model_used_of o = match probed with
                        | Some id => id
                        | None => lit "local-model"
                        end).
Proof.
  intros Hp Hrun probed. unfold run in Hrun.
  destruct (is_empty (rstrip_char 47 (strip (server_url a)))); [discriminate|].
  apply is_empty_false in Hp; rewrite Hp in Hrun.
  destruct (select_model _ _ _ _ _) as [m trace] eqn:Es.
  destruct (_image_tensor_to_base64_png _ _) as [data_url|]; [|discriminate].
  destruct (chat _ _ _ _ _ _ _ _ _ _) as [res sent] eqn:Ec.
  injection Hrun as -> _.
  apply chat_model in Ec; rewrite Ec.
  destruct (select_model_spec _ _ _ _ _ _ _ _ Es) as (H1 & H2 & H3).
  split; [assumption|split].
  - intros Hm Ho; apply (H2 Hm Ho).
  - exact H3.
Qed.

Lemma run_model_used_witness :
  exists o tr,
    run demo_server no_png no_text no_text no_text
        (with_prompt default_args (lit "hi")) = (Ok o, tr)
    /\ model_used_of o = lit "llama-3"
    /\ length tr = 2%nat.
Proof.
  eexists; eexists; split; [vm_compute; reflexivity|].
  split; [|reflexivity].
  refine (eq_trans
            (proj2 (proj2
               (run_model_used unit demo_server no_png no_text no_text no_text
                  (with_prompt default_args (lit "hi")) _ _ _ eq_refl))
               _) _).
  - vm_compute; discriminate.
  - left; vm_compute; discriminate.
  - reflexivity.
Defined.

(** ** Streaming decoder *)

Lemma append_fields_content obj st :
  content_parts (append_fields obj st)
  = content_parts st ++ content_parts (append_fields obj acc_init).
Proof. destruct obj; simpl; rewrite ?app_nil_r; reflexivity. Qed.

Lemma append_fields_meta obj st : meta (append_fields obj st) = meta st.
Proof. destruct obj; reflexivity. Qed.

Lemma process_event_content d st :
  content_parts (process_event d st)
  = content_parts st ++ content_parts (process_event d acc_init).
Proof.
  unfold process_event.
  destruct (_safe_json_loads d); simpl; rewrite ?app_nil_r; try reflexivity.
  destruct (dict_get d0 (lit "choices")); simpl; rewrite ?app_nil_r;
    try reflexivity.
  destruct l as [|first rest]; simpl; rewrite ?app_nil_r; try reflexivity.
  set (c0 := match first with PDict c => c | _ => [] end).
  set (dl := dict_get c0 (lit "delta")).
  set (ms := dict_get c0 (lit "message")).
  rewrite (append_fields_content ms (append_fields dl (count_chunk st))).
  rewrite (append_fields_content dl (count_chunk st)).
  rewrite (append_fields_content ms (append_fields dl (count_chunk acc_init))).
  rewrite (append_fields_content dl (count_chunk acc_init)).
  simpl. rewrite app_assoc. reflexivity.
Qed.

Lemma process_event_meta d st :
  meta (process_event d st)
  = if is_dict (_safe_json_loads d)
    then {| done := done (meta st); chunks := chunks (meta st) + 1 |}
    else meta st.
Proof.
  unfold process_event.
  destruct (_safe_json_loads d); simpl; try reflexivity.
  destruct (dict_get d0 (lit "choices")); simpl; try reflexivity.
  destruct l; simpl; rewrite ?append_fields_meta; reflexivity.
Qed.


Lemma stream_loop_sentinel pre line post st :
  Forall (fun l => data_str_of l <> SENTINEL) pre ->
  data_str_of line = SENTINEL ->
  stream_loop (pre ++ line :: post) st
  = (set_done (fst (stream_loop pre st)), post).
Proof.
  intros Hpre Hline; revert st.
  induction Hpre as [|l pre Hl Hpre IH]; intros st; simpl.
  - rewrite Hline, str_eqb_refl. reflexivity.
  - apply str_eqb_neq in Hl; rewrite Hl. apply IH.
Qed.

Lemma stream_loop_content lines st :
  content_parts (fst (stream_loop lines st))
  = content_parts st ++ flat_map event_contents (before_sentinel lines).
Proof.
  revert st; induction lines as [|l lines IH]; intros st; simpl.
  - rewrite app_nil_r; reflexivity.
  - unfold is_sentinel.
    destruct (str_eqb (data_str_of l) SENTINEL); simpl.
    + rewrite app_nil_r; reflexivity.
    + rewrite IH, process_event_content, <- app_assoc. reflexivity.
Qed.

Lemma finish_stream_content st :
  let full := strip (join (content_parts st)) in
  fst (fst (finish_stream st)) = full
  \/ fst (fst (finish_stream st))
     = snd (_split_thinking_and_answer_from_content full).
Proof.
  unfold finish_stream; cbv zeta.
  destruct (is_empty _ && negb _); [|left; reflexivity].
  destruct (_split_thinking_and_answer_from_content _) as [think ans].
  destruct (negb (is_empty think)); [right|left]; reflexivity.
Qed.


Lemma stream_loop_chunks lines st :
  chunks (meta (fst (stream_loop lines st)))
  = (chunks (meta st)
     + Z.of_nat (length (filter is_event (before_sentinel lines))))%Z.
Proof.
  revert st; induction lines as [|l lines IH]; intros st; simpl.
  - lia.
  - unfold is_sentinel.
    destruct (str_eqb (data_str_of l) SENTINEL) eqn:Es; simpl; [lia|].
    rewrite IH, process_event_meta. unfold is_event.
    destruct (is_dict (_safe_json_loads (data_str_of l))); simpl length; simpl chunks; lia.
Qed.

Lemma stream_loop_done lines st :
  done (meta (fst (stream_loop lines st)))
  = done (meta st) || existsb is_sentinel lines.
Proof.
  revert st; induction lines as [|l lines IH]; intros st; simpl.
  - rewrite orb_false_r; reflexivity.
  - unfold is_sentinel at 1.
    destruct (str_eqb (data_str_of l) SENTINEL) eqn:Es; simpl.
    + rewrite orb_true_r; reflexivity.
    + rewrite IH, process_event_meta.
      destruct (is_dict _); reflexivity.
Qed.

Lemma iter_sse_lines_app a b :
  _iter_sse_lines (a ++ b) = _iter_sse_lines a ++ _iter_sse_lines b.
Proof.
  induction a as [|[raw|] a IH]; simpl; [reflexivity| |exact IH].
  destruct (is_empty (strip raw)); [exact IH|].
  simpl; f_equal; exact IH.
Qed.

Lemma stream_loop_cut pre line post st :
  is_sentinel line = true ->
  fst (stream_loop (pre ++ line :: post) st)
  = fst (stream_loop (pre ++ [line]) st).
Proof.
  intros Hs; revert st; induction pre as [|l pre IH]; intros st; simpl.
  - unfold is_sentinel in Hs; rewrite Hs; reflexivity.
  - destruct (str_eqb (data_str_of l) SENTINEL); [reflexivity|apply IH].
Qed.

Lemma finish_stream_meta st : snd (finish_stream st) = meta st.
Proof.
  unfold finish_stream.
  destruct (is_empty _ && negb _); [|reflexivity].
  destruct (_split_thinking_and_answer_from_content _) as [think ans].
  destruct (negb (is_empty think)); reflexivity.
Qed.

Lemma sentinel_not_blank line :
  is_sentinel (strip line) = true -> is_empty (strip line) = false.
Proof. destruct (strip line); [discriminate|reflexivity]. Qed.

Lemma parse_stream_sentinel pre line post :
  is_sentinel (strip line) = true ->
  _parse_stream_and_accumulate (pre ++ Some line :: post)
  = _parse_stream_and_accumulate (pre ++ [Some line])
  /\ done (snd (_parse_stream_and_accumulate (pre ++ Some line :: post)))
     = true.
Proof.
  intros Hs. pose proof (sentinel_not_blank _ Hs) as Hne.
  unfold _parse_stream_and_accumulate.
  rewrite !iter_sse_lines_app. cbn [_iter_sse_lines]. rewrite Hne.
  split.
  - rewrite stream_loop_cut by exact Hs. reflexivity.
  - rewrite finish_stream_meta, stream_loop_done, existsb_app.
    cbn [existsb]. rewrite Hs, orb_true_r. reflexivity.
Qed.

Lemma append_fields_reasoning obj st :
  reasoning_parts (append_fields obj st)
  = reasoning_parts st ++ reasoning_parts (append_fields obj acc_init).
Proof. destruct obj; simpl; rewrite ?app_nil_r; reflexivity. Qed.

Lemma process_event_reasoning d st :
  reasoning_parts (process_event d st)
  = reasoning_parts st ++ reasoning_parts (process_event d acc_init).
Proof.
  unfold process_event.
  destruct (_safe_json_loads d); simpl; rewrite ?app_nil_r; try reflexivity.
  destruct (dict_get d0 (lit "choices")); simpl; rewrite ?app_nil_r;
    try reflexivity.
  destruct l as [|first rest]; simpl; rewrite ?app_nil_r; try reflexivity.
  set (c0 := match first with PDict c => c | _ => [] end).
  set (dl := dict_get c0 (lit "delta")).
  set (ms := dict_get c0 (lit "message")).
  rewrite (append_fields_reasoning ms (append_fields dl (count_chunk st))).
  rewrite (append_fields_reasoning dl (count_chunk st)).
  rewrite (append_fields_reasoning ms (append_fields dl (count_chunk acc_init))).
  rewrite (append_fields_reasoning dl (count_chunk acc_init)).
  simpl. rewrite app_assoc. reflexivity.
Qed.

Lemma stream_loop_reasoning lines st :
  reasoning_parts (fst (stream_loop lines st))
  = reasoning_parts st ++ flat_map event_reasonings (before_sentinel lines).
Proof.
  revert st; induction lines as [|l lines IH]; intros st; simpl.
  - rewrite app_nil_r; reflexivity.
  - unfold is_sentinel.
    destruct (str_eqb (data_str_of l) SENTINEL); simpl.
    + rewrite app_nil_r; reflexivity.
    + rewrite IH, process_event_reasoning, <- app_assoc. reflexivity.
Qed.

(** The content fragments of a line: those of the [delta] and then of the
    [message] of the first choice, when the line decodes to a mapping with
    a list of choices that is not empty. *)
Lemma event_contents_spec line :
  event_contents line
  = match _safe_json_loads (data_str_of line) with
    | PDict chunk =>
        match dict_get chunk (lit "choices") with
        | PList (first :: _) =>
            let c0 := match first with PDict c => c | _ => [] end in
            content_fragment (dict_get c0 (lit "delta"))
            ++ content_fragment (dict_get c0 (lit "message"))
        | _ => []
        end
    | _ => []
    end.
Proof.
  unfold event_contents, process_event.
  destruct (_safe_json_loads (data_str_of line)); try reflexivity.
  destruct (dict_get d (lit "choices")); try reflexivity.
  destruct l as [|first rest]; [reflexivity|].
  cbv zeta. rewrite append_fields_content.
  set (c0 := match first with PDict c => c | _ => [] end).
  destruct (dict_get c0 (lit "delta")), (dict_get c0 (lit "message"));
    reflexivity.
Qed.

(** The state in which the loop ends, read off the lines. *)
Lemma stream_loop_state lines :
  fst (stream_loop lines acc_init)
  = {| content_parts := flat_map event_contents (before_sentinel lines);
       reasoning_parts := flat_map event_reasonings (before_sentinel lines);
       meta := {| done := existsb is_sentinel lines;
                  chunks := Z.of_nat (length (filter is_event
                                                (before_sentinel lines))) |} |}.
Proof.
  pose proof (stream_loop_content lines acc_init) as Hc.
  pose proof (stream_loop_reasoning lines acc_init) as Hr.
  pose proof (stream_loop_done lines acc_init) as Hd.
  pose proof (stream_loop_chunks lines acc_init) as Hk.
  destruct (fst (stream_loop lines acc_init)) as [cp rp [d k]].
  cbn [content_parts reasoning_parts meta done chunks acc_init app orb Z.add]
    in Hc, Hr, Hd, Hk.
  subst. reflexivity.
Qed.

Lemma parse_stream_state resp :
  _parse_stream_and_accumulate resp
  = finish_stream
      {| content_parts :=
           flat_map event_contents (before_sentinel (_iter_sse_lines resp));
         reasoning_parts :=
           flat_map event_reasonings (before_sentinel (_iter_sse_lines resp));
         meta := {| done := existsb is_sentinel (_iter_sse_lines resp);
                    chunks := Z.of_nat
                                (length (filter is_event
                                           (before_sentinel
                                              (_iter_sse_lines resp)))) |} |}.
Proof.
  unfold _parse_stream_and_accumulate. rewrite stream_loop_state. reflexivity.
Qed.

Lemma parse_stream_content resp :
  let full :=
    strip (join (flat_map event_contents
                   (before_sentinel (_iter_sse_lines resp)))) in
  fst (fst (_parse_stream_and_accumulate resp)) = full
  \/ fst (fst (_parse_stream_and_accumulate resp))
     = snd (_split_thinking_and_answer_from_content full).
Proof.
  rewrite parse_stream_state. apply finish_stream_content.
Qed.

(** C5. On the three lines of the end-to-end example the decoder returns
    the content [Hello], no reasoning, two events and the done flag set.
    In general the sentinel line ends the loop with the done flag set and
    the lines after it left unread, so that the result of the decoder does
    not depend on them.  For every response the decoder returns what the
    closing step makes of the content fragments and the reasoning
    fragments of the lines before the first sentinel, each concatenated in
    the order of arrival, with the number of events among these lines and
    the done flag set exactly when a sentinel was read; so the content it
    returns is the trimmed concatenation of the content fragments, in the
    order of arrival, or what the splitter makes of it.  The content
    fragments of a line are the content of the [delta] and then that of
    the [message] of its first choice. *)
Theorem stream_decoder_end_to_end :
  _parse_stream_and_accumulate hello_stream
  = (lit "Hello", [], {| done := true; chunks := 2 |})
  /\ (forall pre line post st,
        Forall (fun l => data_str_of l <> SENTINEL) pre ->
        data_str_of line = SENTINEL ->
        stream_loop (pre ++ line :: post) st
        = (set_done (fst (stream_loop pre st)), post))
  /\ (forall pre line post,
        is_sentinel (strip line) = true ->
        _parse_stream_and_accumulate (pre ++ Some line :: post)
        = _parse_stream_and_accumulate (pre ++ [Some line])
        /\ done (snd (_parse_stream_and_accumulate (pre ++ Some line :: post)))
           = true)
  /\ (forall lines st,
        content_parts (fst (stream_loop lines st))
        = content_parts st ++ flat_map event_contents (before_sentinel lines))
  /\ (forall st,
        let full := strip (join (content_parts st)) in
        fst (fst (finish_stream st)) = full
        \/ fst (fst (finish_stream st))
           = snd (_split_thinking_and_answer_from_content full))
  /\ (forall resp,
        let lines := before_sentinel (_iter_sse_lines resp) in
        _parse_stream_and_accumulate resp
        = finish_stream
            {| content_parts := flat_map event_contents lines;
               reasoning_parts := flat_map event_reasonings lines;
               meta := {| done := existsb is_sentinel (_iter_sse_lines resp);
                          chunks := Z.of_nat
                                      (length (filter is_event lines)) |} |})
  /\ (forall resp,
        let full :=
          strip (join (flat_map event_contents
                         (before_sentinel (_iter_sse_lines resp)))) in
        fst (fst (_parse_stream_and_accumulate resp)) = full
        \/ fst (fst (_parse_stream_and_accumulate resp))
           = snd (_split_thinking_and_answer_from_content full))
  /\ (forall resp,
        done (snd (_parse_stream_and_accumulate resp))
        = existsb is_sentinel (_iter_sse_lines resp))
  /\ (forall line,
        event_contents line
        = match _safe_json_loads (data_str_of line) with
          | PDict chunk =>
              match dict_get chunk (lit "choices") with
              | PList (first :: _) =>
                  let c0 := match first with PDict c => c | _ => [] end in
                  content_fragment (dict_get c0 (lit "delta"))
                  ++ content_fragment (dict_get c0 (lit "message"))
              | _ => []
              end
          | _ => []
          end).
Proof.
  split; [vm_compute; reflexivity|].
  split; [exact stream_loop_sentinel|].
  split; [exact parse_stream_sentinel|].
  split; [exact stream_loop_content|].
  split; [exact finish_stream_content|].
  split; [exact parse_stream_state|].
  split; [exact parse_stream_content|].
  split; [|exact event_contents_spec].
  intros resp. unfold _parse_stream_and_accumulate.
  rewrite finish_stream_meta. apply stream_loop_done.
Qed.

Lemma stream_decoder_end_to_end_witness :
  stream_loop ([hello_line1; hello_line2] ++ done_line :: [lit "data: late"])
              acc_init
  = (set_done (fst (stream_loop [hello_line1; hello_line2] acc_init)),
     [lit "data: late"]).
Proof.
  apply (proj1 (proj2 stream_decoder_end_to_end)).
  - repeat constructor; vm_compute; discriminate.
  - reflexivity.
Defined.


(** C1, as stated, fails: with no reasoning fragment and the content
    [Answer: hi], the decoder returns the content as it came, not the
    answer that the splitter makes of it. *)
Lemma stream_decoder_keeps_label :
  let st := fst (stream_loop (_iter_sse_lines labelled_stream) acc_init) in
  reasoning_parts st = []
  /\ join (content_parts st) <> []
  /\ fst (fst (_parse_stream_and_accumulate labelled_stream))
     <> snd (_split_thinking_and_answer_from_content (join (content_parts st))).
Proof.
  cbv zeta. split; [reflexivity|].
  split; vm_compute; discriminate.
Qed.

(** C1, amended. When no reasoning fragment was accumulated and the
    trimmed concatenated content is not empty, the decoder applies the
    inline-marker split to it.  If the thinking recovered is not empty, the
    decoder returns it as reasoning, and as content the text with the
    marked blocks removed, trimmed and de-scaffolded; the thinking is the
    trimmed text enclosed by the first marker pair.  If it is empty, the
    decoder returns the trimmed concatenated content unchanged, with empty
    reasoning. *)
Theorem stream_decoder_inline_split (resp : list (option pystr)) :
  let st := fst (stream_loop (_iter_sse_lines resp) acc_init) in
  let full := strip (join (content_parts st)) in
  reasoning_parts st = [] ->
  full <> [] ->
  let think := fst (_split_thinking_and_answer_from_content full) in
  let ans := snd (_split_thinking_and_answer_from_content full) in
  _parse_stream_and_accumulate resp
  = (if is_empty think then (full, [], meta st) else (ans, think, meta st))
  /\ (think <> [] ->
      exists before group1 after,
        think_search full = Some (before, group1, after)
        /\ think = strip group1
        /\ ans = clean_text (strip (think_sub full))).
Proof.
  intros st full Hr Hf think ans. split.
  - unfold _parse_stream_and_accumulate, finish_stream.
    fold st. rewrite Hr. fold full.
    apply is_empty_false in Hf. rewrite Hf. cbn [join concat strip strip_with
      lstrip_with rstrip_with is_empty andb negb].
    subst think ans.
    destruct (_split_thinking_and_answer_from_content full) as [t a].
    cbn [fst snd]. destruct (is_empty t); reflexivity.
  - subst think ans. unfold _split_thinking_and_answer_from_content.
    apply is_empty_false in Hf. rewrite Hf.
    destruct (think_search full) as [[[before group1] after]|]; cbn [fst snd].
    + intros _. exists before, group1, after. auto.
    + intros H; contradiction H; reflexivity.
Qed.

Lemma stream_decoder_inline_split_witness :
  _parse_stream_and_accumulate think_stream
  = (lit "result", lit "plan", {| done := true; chunks := 2 |}).
Proof.
  refine (eq_trans (proj1 (stream_decoder_inline_split think_stream _ _)) _).
  - reflexivity.
  - vm_compute; discriminate.
  - vm_compute; reflexivity.
Defined.

(** ** Splitter *)

Lemma isspace_plain c : isspace c = true -> plain c = true.
Proof.
  unfold plain. intros H.
  destruct (c =? 60) eqn:E1; [apply N.eqb_eq in E1; subst; discriminate H|].
  destruct (c =? 62) eqn:E2; [apply N.eqb_eq in E2; subst; discriminate H|].
  reflexivity.
Qed.

Lemma lstrip_with_split p s :
  exists pre, s = pre ++ lstrip_with p s /\ forallb p pre = true.
Proof.
  induction s as [|c s (pre & E & H)]; simpl.
  - exists []; auto.
  - destruct (p c) eqn:Ec.
    + exists (c :: pre); simpl; rewrite Ec, H; split; [f_equal; exact E|reflexivity].
    + exists []; auto.
Qed.

Lemma rstrip_with_split p s :
  exists suf, s = rstrip_with p s ++ suf /\ forallb p suf = true.
Proof.
  induction s as [|c s (suf & E & H)]; simpl.
  - exists []; auto.
  - destruct (rstrip_with p s) as [|x r] eqn:Er.
    + destruct (p c) eqn:Ec.
      * exists (c :: suf). simpl in *. rewrite Ec, H. subst s; auto.
      * exists suf. simpl in *. subst s; auto.
    + exists suf. split; [simpl; f_equal; exact E|exact H].
Qed.

Lemma forallb_impl (p q : N -> bool) l :
  (forall c, p c = true -> q c = true) -> forallb p l = true -> forallb q l = true.
Proof.
  intros Hpq; induction l as [|c l IH]; simpl; [reflexivity|].
  intros H; apply andb_true_iff in H as [Hc Hl].
  rewrite (Hpq _ Hc), IH; auto.
Qed.

Lemma inner_of_refl s : inner_of s s.
Proof. exists [], []; rewrite app_nil_r; auto. Qed.

Lemma inner_of_trans s m k : inner_of s m -> inner_of m k -> inner_of s k.
Proof.
  intros (p1 & s1 & -> & Hp1 & Hs1) (p2 & s2 & -> & Hp2 & Hs2).
  exists (p1 ++ p2), (s2 ++ s1). rewrite !forallb_app, Hp1, Hp2, Hs1, Hs2.
  rewrite <- !app_assoc. auto.
Qed.

Lemma inner_of_drop pre s :
  forallb plain pre = true -> inner_of (pre ++ s) s.
Proof. intros H; exists pre, []; rewrite app_nil_r; auto. Qed.

Lemma inner_of_lstrip p s :
  (forall c, p c = true -> plain c = true) -> inner_of s (lstrip_with p s).
Proof.
  intros Hp. destruct (lstrip_with_split p s) as (pre & E & H).
  exists pre, []. rewrite app_nil_r. split; [exact E|].
  split; [eapply forallb_impl; eauto|reflexivity].
Qed.

Lemma inner_of_rstrip p s :
  (forall c, p c = true -> plain c = true) -> inner_of s (rstrip_with p s).
Proof.
  intros Hp. destruct (rstrip_with_split p s) as (suf & E & H).
  exists [], suf. split; [exact E|].
  split; [reflexivity|eapply forallb_impl; eauto].
Qed.

Lemma inner_of_strip_with p s :
  (forall c, p c = true -> plain c = true) -> inner_of s (strip_with p s).
Proof.
  intros Hp. eapply inner_of_trans; [apply inner_of_lstrip, Hp|].
  apply inner_of_rstrip, Hp.
Qed.

Lemma backtick_plain c : (BACKTICK =? c) = true -> plain c = true.
Proof. intros H; apply N.eqb_eq in H; subst; reflexivity. Qed.

Lemma tolower_bracket c x :
  (x = 60 \/ x = 62) -> tolower c = x -> c = x.
Proof.
  unfold tolower. intros Hx.
  destruct ((65 <=? c) && (c <=? 90)) eqn:E1.
  - apply andb_true_iff in E1 as [A B]. apply N.leb_le in A, B. lia.
  - destruct (c =? 304) eqn:E2; [lia|].
    destruct (c =? 8490) eqn:E3; [lia|]. auto.
Qed.

Lemma ci_eq_bracket x c : (x = 60 \/ x = 62) -> ci_eq x c = (c =? x).
Proof.
  intros Hx. unfold ci_eq.
  replace (x =? 105) with false by (symmetry; apply N.eqb_neq; lia).
  replace (x =? 115) with false by (symmetry; apply N.eqb_neq; lia).
  cbn [andb orb]. rewrite !orb_false_r.
  destruct (tolower c =? x) eqn:E.
  - apply N.eqb_eq in E. apply (tolower_bracket _ _ Hx) in E.
    symmetry; apply N.eqb_eq, E.
  - destruct (c =? x) eqn:E'; [|reflexivity].
    apply N.eqb_eq in E'; subst c.
    apply N.eqb_neq in E. contradiction E.
    destruct Hx as [-> | ->]; reflexivity.
Qed.

(** A letter of a pattern never matches a bracket. *)
Lemma ci_eq_letter_plain x c :
  97 <= x <= 122 -> ci_eq x c = true -> plain c = true.
Proof.
  intros Hx H. unfold plain.
  destruct (c =? 60) eqn:E1.
  { apply N.eqb_eq in E1; subst c. unfold ci_eq in H.
    change (tolower 60) with 60 in H.
    change (60 =? 305) with false in H. change (60 =? 383) with false in H.
    rewrite !andb_false_r, !orb_false_r in H. apply N.eqb_eq in H. lia. }
  destruct (c =? 62) eqn:E2; [|reflexivity].
  apply N.eqb_eq in E2; subst c. unfold ci_eq in H.
  change (tolower 62) with 62 in H.
  change (62 =? 305) with false in H. change (62 =? 383) with false in H.
  rewrite !andb_false_r, !orb_false_r in H. apply N.eqb_eq in H. lia.
Qed.

Lemma ci_prefix_letters p s r :
  Forall (fun x => 97 <= x <= 122) p ->
  ci_prefix p s = Some r ->
  exists m, s = m ++ r /\ forallb plain m = true.
Proof.
  intros Hp; revert s; induction Hp as [|x p Hx Hp IH]; intros s; simpl.
  - intros H; injection H as <-. exists []; auto.
  - destruct s as [|c s]; [discriminate|].
    destruct (ci_eq x c) eqn:E; [|discriminate].
    intros H. destruct (IH _ H) as (m & -> & Hm).
    exists (c :: m); simpl. rewrite (ci_eq_letter_plain _ _ Hx E), Hm. auto.
Qed.

Lemma letters_final : Forall (fun x => 97 <= x <= 122) (lit "final").
Proof. repeat constructor; cbn; lia. Qed.

Lemma letters_answer : Forall (fun x => 97 <= x <= 122) (lit "answer").
Proof. repeat constructor; cbn; lia. Qed.

Lemma inner_of_sub_label t : inner_of t (sub_label t).
Proof.
  unfold sub_label.
  pose proof (inner_of_lstrip isspace t isspace_plain) as H1.
  set (s1 := lstrip_with isspace t) in *.
  assert (Hw : forall r,
            (ci_prefix (lit "final") s1 = Some r
             \/ ci_prefix (lit "answer") s1 = Some r) ->
            inner_of t
              match lstrip_with isspace r with
              | [] => t
              | c :: r2 => if c =? 58 then lstrip_with isspace r2 else t
              end).
  { intros r Hr.
    assert (Hm : exists m, s1 = m ++ r /\ forallb plain m = true).
    { destruct Hr as [Hr|Hr];
        [eapply ci_prefix_letters; [apply letters_final|exact Hr]
        |eapply ci_prefix_letters; [apply letters_answer|exact Hr]]. }
    destruct Hm as (m & Em & Hm).
    pose proof (inner_of_lstrip isspace r isspace_plain) as H2.
    destruct (lstrip_with isspace r) as [|c r2]; [apply inner_of_refl|].
    destruct (c =? 58) eqn:Ec; [|apply inner_of_refl].
    apply N.eqb_eq in Ec; subst c.
    eapply inner_of_trans; [exact H1|].
    rewrite Em. eapply inner_of_trans; [apply inner_of_drop, Hm|].
    eapply inner_of_trans; [exact H2|].
    eapply inner_of_trans; [apply (inner_of_drop [58]); reflexivity|].
    apply inner_of_lstrip, isspace_plain. }
  destruct (ci_prefix (lit "final") s1) as [r|] eqn:Ef.
  - apply Hw; auto.
  - destruct (ci_prefix (lit "answer") s1) as [r|] eqn:Ea.
    + apply Hw; auto.
    + apply inner_of_refl.
Qed.

(** De-scaffolding only takes bracket-free text off the two ends. *)
Lemma inner_of_clean_text text : inner_of text (clean_text text).
Proof.
  unfold clean_text. destruct (is_empty text) eqn:Ee.
  { apply is_empty_true in Ee; subst; apply inner_of_refl. }
  eapply inner_of_trans; [apply (inner_of_strip_with isspace), isspace_plain|].
  fold (strip text).
  eapply inner_of_trans; [apply inner_of_sub_label|].
  set (t := sub_label (strip text)).
  destruct (startswith t FENCE && endswith t FENCE).
  - eapply inner_of_trans;
      [apply (inner_of_strip_with (N.eqb BACKTICK)), backtick_plain|].
    eapply inner_of_trans; apply (inner_of_strip_with isspace), isspace_plain.
  - apply (inner_of_strip_with isspace), isspace_plain.
Qed.

Lemma ci_prefix_plain_none p suf :
  p <> [] -> last p 0 = 62 -> forallb plain suf = true ->
  ci_prefix p suf = None.
Proof.
  revert suf; induction p as [|x p IH]; intros suf Hne Hl Hs; [congruence|].
  destruct suf as [|y suf]; [reflexivity|]. simpl.
  simpl in Hs; apply andb_true_iff in Hs as [Hy Hs].
  destruct p as [|x' p'].
  - simpl in Hl; subst x. rewrite ci_eq_bracket by auto.
    unfold plain in Hy. apply andb_true_iff in Hy as [_ Hy].
    apply negb_true_iff in Hy; rewrite Hy; reflexivity.
  - destruct (ci_eq x y); [|reflexivity].
    apply IH; [discriminate|exact Hl|exact Hs].
Qed.

(** A pattern that ends with [>] matches before a bracket-free tail as it
    does without the tail. *)
Lemma ci_prefix_app p s suf :
  p <> [] -> last p 0 = 62 -> forallb plain suf = true ->
  ci_prefix p (s ++ suf) = option_map (fun r => r ++ suf) (ci_prefix p s).
Proof.
  revert s; induction p as [|x p IH]; intros s Hne Hl Hs; [congruence|].
  destruct s as [|c s].
  - simpl app. rewrite ci_prefix_plain_none by assumption. reflexivity.
  - simpl. destruct (ci_eq x c); [|reflexivity].
    destruct p as [|x' p']; [reflexivity|].
    apply IH; [discriminate|exact Hl|exact Hs].
Qed.

Lemma find_close_plain_none suf :
  forallb plain suf = true -> find_close suf = None.
Proof.
  induction suf as [|c suf IH]; intros H.
  - reflexivity.
  - cbn [find_close].
    rewrite ci_prefix_plain_none by (try discriminate; try reflexivity; exact H).
    simpl in H; apply andb_true_iff in H as [_ H].
    rewrite IH by exact H. reflexivity.
Qed.

Lemma find_close_app s suf :
  forallb plain suf = true ->
  find_close (s ++ suf) = option_map (add_after suf) (find_close s).
Proof.
  intros Hs; induction s as [|c s IH].
  - simpl app. rewrite find_close_plain_none by exact Hs. reflexivity.
  - change ((c :: s) ++ suf) with (c :: (s ++ suf)).
    cbn [find_close].
    change (c :: (s ++ suf)) with ((c :: s) ++ suf).
    rewrite ci_prefix_app by (try discriminate; try reflexivity; exact Hs).
    destruct (ci_prefix TAG_CLOSE (c :: s)); [reflexivity|].
    cbn [option_map]. rewrite IH.
    destruct (find_close s) as [[g a]|]; reflexivity.
Qed.

Lemma think_match_app s suf :
  forallb plain suf = true ->
  think_match (s ++ suf) = option_map (add_after suf) (think_match s).
Proof.
  intros Hs. unfold think_match.
  rewrite ci_prefix_app by (try discriminate; try reflexivity; exact Hs).
  destruct (ci_prefix TAG_OPEN s); [|reflexivity].
  cbn [option_map]. apply find_close_app, Hs.
Qed.

Lemma think_search_plain_none suf :
  forallb plain suf = true -> think_search suf = None.
Proof.
  induction suf as [|c suf IH]; intros H.
  - reflexivity.
  - cbn [think_search]. unfold think_match at 1.
    rewrite ci_prefix_plain_none by (try discriminate; try reflexivity; exact H).
    simpl in H; apply andb_true_iff in H as [_ H].
    rewrite IH by exact H. reflexivity.
Qed.

Lemma think_search_app s suf :
  forallb plain suf = true ->
  think_search (s ++ suf) = option_map (add_around [] suf) (think_search s).
Proof.
  intros Hs; induction s as [|c s IH].
  - simpl app. rewrite think_search_plain_none by exact Hs. reflexivity.
  - change ((c :: s) ++ suf) with (c :: (s ++ suf)).
    cbn [think_search].
    change (c :: (s ++ suf)) with ((c :: s) ++ suf).
    rewrite think_match_app by exact Hs.
    destruct (think_match (c :: s)) as [[g a]|]; [reflexivity|].
    cbn [option_map]. rewrite IH.
    destruct (think_search s) as [[[b g] a]|]; reflexivity.
Qed.

Lemma think_search_skip pre s :
  forallb plain pre = true ->
  think_search (pre ++ s) = option_map (add_around pre []) (think_search s).
Proof.
  intros Hp; induction pre as [|c pre IH].
  - simpl app. destruct (think_search s) as [[[b g] a]|]; [|reflexivity].
    unfold add_around; simpl. rewrite app_nil_r; reflexivity.
  - simpl in Hp; apply andb_true_iff in Hp as [Hc Hp].
    change ((c :: pre) ++ s) with (c :: (pre ++ s)).
    cbn [think_search]. unfold think_match at 1. cbn [TAG_OPEN lit
      list_ascii_of_string map ci_prefix].
    change (N_of_ascii "<") with 60.
    rewrite ci_eq_bracket by auto.
    unfold plain in Hc; apply andb_true_iff in Hc as [Hc _].
    apply negb_true_iff in Hc; rewrite Hc.
    rewrite IH by exact Hp.
    destruct (think_search s) as [[[b g] a]|]; reflexivity.
Qed.

(** The first marked block of a text is still the first marked block of
    the text inside it. *)
Lemma think_search_inner s m before group1 after :
  inner_of s m ->
  think_search s = Some (before, group1, after) ->
  exists before' after', think_search m = Some (before', group1, after').
Proof.
  intros (pre & suf & -> & Hp & Hs).
  rewrite think_search_skip, think_search_app by assumption.
  destruct (think_search m) as [[[b g] a]|]; [|discriminate].
  unfold add_around; simpl. intros H; injection H as _ <- _.
  eauto.
Qed.

(** C4, as stated, fails: a reasoning field that holds white space only is
    not empty, yet the splitter parses the inline markers of the content
    and removes them. *)
Lemma split_blank_reasoning_parses_markers :
  _split_thinking_and_answer no_text blank_reasoning_message
  <> (strip (lit " "),
      _clean_answer no_text (PStr (lit "<think>x</think>y"))).
Proof. vm_compute. discriminate. Qed.

(** C4, amended. When the dedicated reasoning field of a message, the
    entry [reasoning] or, if that is absent or false in a condition, the
    entry [thoughts], is a text with something else than white space in it,
    and the content is a text with inline markers, the splitter returns the
    trimmed field as thinking and the de-scaffolded content as answer; the
    markers are not interpreted and the first marked block of the content
    is still the first marked block of the answer. *)
Theorem split_prefers_reasoning_field (repr : pyval -> pystr)
  (d : list (pystr * pyval)) (r c before group1 after : pystr) :
  dict_get d (lit "reasoning") = PStr r
  \/ (truthy (dict_get d (lit "reasoning")) = false
      /\ dict_get d (lit "thoughts") = PStr r) ->
  nonblank r = true ->
  dict_get d (lit "content") = PStr c ->
  think_search c = Some (before, group1, after) ->
  _split_thinking_and_answer repr (PDict d) = (strip r, clean_text c)
  /\ exists before' after',
       think_search (clean_text c) = Some (before', group1, after').
Proof.
  intros Hr Hn Hc Hs.
  assert (Hrne : is_empty r = false).
  { destruct r; [discriminate Hn|reflexivity]. }
  assert (Hcne : is_empty c = false).
  { destruct c; [discriminate Hs|reflexivity]. }
  split.
  - unfold _split_thinking_and_answer.
    assert (E : py_or (py_or (dict_get d (lit "reasoning"))
                             (dict_get d (lit "thoughts"))) (PStr [])
                = PStr r).
    { destruct Hr as [Hr|[Hf Ht]].
      - rewrite Hr. unfold py_or; simpl. rewrite Hrne; simpl. rewrite Hrne.
        reflexivity.
      - unfold py_or at 2. rewrite Hf, Ht.
        unfold py_or; simpl. rewrite Hrne; reflexivity. }
    rewrite E, Hc.
    unfold py_or at 1; simpl truthy. rewrite Hcne; simpl negb. cbv iota.
    unfold nonblank in Hn. rewrite Hn.
    unfold _clean_answer; simpl. rewrite Hcne; reflexivity.
  - eapply think_search_inner; [apply inner_of_clean_text|exact Hs].
Qed.

Lemma split_prefers_reasoning_field_witness :
  _split_thinking_and_answer no_text both_message
  = (lit "plan", lit "<think>x</think>y").
Proof.
  refine (eq_trans
            (proj1 (split_prefers_reasoning_field no_text
                      [(lit "thoughts", PStr (lit " plan "));
                       (lit "content", PStr (lit "Answer: <think>x</think>y "))]
                      (lit " plan ") (lit "Answer: <think>x</think>y ")
                      (lit "Answer: ") (lit "x") (lit "y ") _ _ _ _)) _).
  - right; split; reflexivity.
  - reflexivity.
  - reflexivity.
  - reflexivity.
  - reflexivity.
Defined.

(** ** Embedded JSON extractor: the fallback search *)

Lemma rstrip_with_idem p s : rstrip_with p (rstrip_with p s) = rstrip_with p s.
Proof.
  induction s as [|c s IH]; [reflexivity|]. simpl.
  destruct (rstrip_with p s) as [|x r] eqn:E.
  - destruct (p c) eqn:Ec; simpl; [reflexivity|rewrite Ec; reflexivity].
  - change (rstrip_with p (c :: x :: r))
      with (match rstrip_with p (x :: r) with
            | [] => if p c then [] else [c]
            | r' => c :: r'
            end).
    rewrite IH. reflexivity.
Qed.

Lemma rstrip_with_tail p c s :
  rstrip_with p (c :: s) = c :: s -> rstrip_with p s = s.
Proof.
  simpl. destruct (rstrip_with p s) as [|x r] eqn:E.
  - destruct (p c); [discriminate|]. intros H; injection H as <-; reflexivity.
  - intros H; injection H as <-; reflexivity.
Qed.

Lemma rstrip_with_skipn p n s :
  rstrip_with p s = s -> rstrip_with p (skipn n s) = skipn n s.
Proof.
  revert s; induction n as [|n IH]; intros s H; [exact H|].
  destruct s as [|c s]; [reflexivity|].
  simpl. apply IH. eapply rstrip_with_tail, H.
Qed.

Lemma rstrip_with_cons_nonempty p c s :
  p c = false -> rstrip_with p (c :: s) <> [].
Proof.
  intros Hc. simpl. destruct (rstrip_with p s); [rewrite Hc|]; discriminate.
Qed.

Lemma strip_rstripped s : rstrip_with isspace (strip s) = strip s.
Proof. unfold strip, strip_with. apply rstrip_with_idem. Qed.

Lemma strip_fences_rstripped text :
  rstrip_with isspace (strip_fences text) = strip_fences text.
Proof.
  unfold strip_fences. destruct (startswith _ _); apply strip_rstripped.
Qed.

(** A text that starts with something else than white space and does not
    end with white space is its own trimmed form. *)
Lemma strip_fixed c s :
  isspace c = false -> rstrip_with isspace (c :: s) = c :: s ->
  strip (c :: s) = c :: s.
Proof.
  intros Hc Hr. unfold strip, strip_with. cbn [lstrip_with]. rewrite Hc.
  exact Hr.
Qed.

Lemma first_bracket_find t :
  first_bracket t
  = match find_char LBRACE t, find_char LBRACKET t with
    | Some o, None => Some o
    | Some o, Some a => Some (if (o <? a)%nat then o else a)
    | None, Some a => Some a
    | None, None => None
    end.
Proof.
  induction t as [|c t IH]; [reflexivity|].
  cbn [first_bracket find_char].
  destruct (c =? LBRACE) eqn:E1.
  - cbn [orb]. destruct (c =? LBRACKET); [reflexivity|].
    destruct (find_char LBRACKET t); reflexivity.
  - destruct (c =? LBRACKET) eqn:E2; cbn [orb].
    + destruct (find_char LBRACE t); reflexivity.
    + rewrite IH.
      destruct (find_char LBRACE t) as [o|], (find_char LBRACKET t) as [a|];
        cbn [option_map]; try reflexivity.
      change (S o <? S a)%nat with (o <? a)%nat.
      destruct (o <? a)%nat; reflexivity.
Qed.

Lemma first_bracket_spec t start :
  first_bracket t = Some start ->
  (exists c, nth_error t start = Some c /\ (c = LBRACE \/ c = LBRACKET))
  /\ (forall j c, (j < start)%nat -> nth_error t j = Some c ->
        c <> LBRACE /\ c <> LBRACKET).
Proof.
  revert start; induction t as [|c t IH]; intros start; [discriminate|].
  cbn [first_bracket].
  destruct ((c =? LBRACE) || (c =? LBRACKET)) eqn:E.
  - intros H; injection H as <-. split.
    + exists c; split; [reflexivity|].
      apply orb_true_iff in E as [E|E]; apply N.eqb_eq in E; auto.
    + intros j c' Hj; lia.
  - destruct (first_bracket t) as [n|]; [|discriminate].
    intros H; injection H as <-.
    destruct (IH n eq_refl) as [H1 H2]. split; [exact H1|].
    intros [|j] c' Hj Hn.
    + injection Hn as <-. apply orb_false_iff in E as [E1 E2].
      apply N.eqb_neq in E1, E2; auto.
    + apply (H2 j); [lia|exact Hn].
Qed.

Lemma skipn_nth_error (t : pystr) n c :
  nth_error t n = Some c -> skipn n t = c :: skipn (S n) t.
Proof.
  revert t; induction n as [|n IH]; intros [|x t]; simpl; try discriminate.
  - intros H; injection H as ->; reflexivity.
  - apply IH.
Qed.

Lemma bracket_not_space c : c = LBRACE \/ c = LBRACKET -> isspace c = false.
Proof. intros [-> | ->]; reflexivity. Qed.

Lemma try_chunks_first_parse c s idxs :
  isspace c = false ->
  Forall (fun i => (i < length (c :: s))%nat) idxs ->
  try_chunks (c :: s) idxs
  = first_parse
      (map (fun i => strip (firstn (length (c :: s) - i) (c :: s))) idxs).
Proof.
  intros Hc Hi; induction Hi as [|i idxs Hlt Hi IH]; [reflexivity|].
  cbn [try_chunks map first_parse].
  assert (Hne : is_empty (strip (firstn (length (c :: s) - i) (c :: s))) = false).
  { destruct (length (c :: s) - i)%nat as [|k] eqn:Ek; [lia|].
    cbn [firstn]. unfold strip, strip_with. cbn [lstrip_with]. rewrite Hc.
    apply is_empty_false, rstrip_with_cons_nonempty, Hc. }
  rewrite Hne, IH. reflexivity.
Qed.

Lemma scan_from_bracket_eq t :
  rstrip_with isspace t = t ->
  scan_from_bracket t
  = match first_bracket t with
    | None => PNone
    | Some start => first_parse (candidates_trimmed (skipn start t))
    end.
Proof.
  intros Ht. unfold scan_from_bracket.
  pose proof (first_bracket_find t) as Hf.
  pose proof (first_bracket_spec t) as Hs.
  set (start := match find_char LBRACE t, find_char LBRACKET t with
                | Some o, None => o
                | Some o, Some a => if (o <? a)%nat then o else a
                | None, Some a => a
                | None, None => O
                end).
  assert (Hgo : first_bracket t = Some start ->
                try_chunks (strip (skipn start t))
                  (seq 0 (Nat.min 4000 (length (strip (skipn start t)))))
                = first_parse (candidates_trimmed (skipn start t))).
  { intros Hb. destruct (Hs _ Hb) as [(c & Hn & Hc) _].
    rewrite (skipn_nth_error _ _ _ Hn).
    rewrite strip_fixed;
      [|apply bracket_not_space, Hc
       |rewrite <- (skipn_nth_error _ _ _ Hn); apply rstrip_with_skipn, Ht].
    rewrite try_chunks_first_parse.
    - unfold candidates_trimmed, candidates_by_trimming.
      rewrite map_map. reflexivity.
    - apply bracket_not_space, Hc.
    - apply Forall_forall; intros i Hin. apply in_seq in Hin. lia. }
  subst start.
  destruct (find_char LBRACE t) as [o|], (find_char LBRACKET t) as [a|];
    rewrite Hf; try (apply Hgo; exact Hf); reflexivity.
Qed.

(** C7, as stated, fails: after an empty object come 3999 form feeds and a
    letter.  None of the 4000 candidates obtained by removing trailing
    characters one at a time parses, as a form feed is no white space of
    JSON; the extractor still returns the empty object, because it trims
    each candidate before parsing it. *)
Lemma extract_json_trims_candidates :
  _safe_json_loads (strip_fences form_feed_text) = PNone
  /\ scan_by_trimming (strip_fences form_feed_text) = PNone
  /\ _extract_json_from_text form_feed_text = PDict [].
Proof. vm_compute. repeat split. Qed.

(** C7, amended. When the direct parse of the trimmed, fence-free text
    fails: if the text has neither [{] nor [[], the extractor returns
    absence; otherwise it starts at the earliest of the two and tries, for
    [i = 0, 1, ...] and at most 4000 times, the text from there without
    its last [i] characters, each time trimmed of white space; it returns
    the first candidate that parses, and absence if none does. *)
Theorem extract_json_fallback (text : pystr) :
  text <> [] ->
  let t := strip_fences text in
  _safe_json_loads t = PNone ->
  (find_char LBRACE t = None -> find_char LBRACKET t = None ->
   _extract_json_from_text text = PNone)
  /\ (forall start, first_bracket t = Some start ->
        (exists c, nth_error t start = Some c /\ (c = LBRACE \/ c = LBRACKET))
        /\ (forall j c, (j < start)%nat -> nth_error t j = Some c ->
              c <> LBRACE /\ c <> LBRACKET)
        /\ _extract_json_from_text text
           = first_parse (candidates_trimmed (skipn start t))
        /\ (length (candidates_trimmed (skipn start t)) <= 4000)%nat).
Proof.
  intros Hne t Hd.
  assert (E : _extract_json_from_text text
              = match first_bracket t with
                | None => PNone
                | Some start => first_parse (candidates_trimmed (skipn start t))
                end).
  { unfold _extract_json_from_text. apply is_empty_false in Hne; rewrite Hne.
    fold t. rewrite Hd. apply scan_from_bracket_eq, strip_fences_rstripped. }
  split.
  - intros H1 H2. rewrite E, first_bracket_find, H1, H2. reflexivity.
  - intros start Hb. destruct (first_bracket_spec _ _ Hb) as [H1 H2].
    split; [exact H1|]. split; [exact H2|].
    split; [rewrite E, Hb; reflexivity|].
    unfold candidates_trimmed, candidates_by_trimming.
    rewrite !length_map, length_seq. apply Nat.le_min_l.
Qed.

Lemma extract_json_fallback_witness :
  _extract_json_from_text (litq "sure: {'a':1} stop here")
  = PDict [(lit "a", PInt 1)].
Proof.
  refine (eq_trans
            (proj1 (proj2 (proj2
               (proj2 (extract_json_fallback (litq "sure: {'a':1} stop here")
                         _ _) 6%nat _)))) _).
  - vm_compute; discriminate.
  - reflexivity.
  - reflexivity.
  - vm_compute; reflexivity.
Defined.

(** ** [json.loads]: what a successful scan consumes *)

Lemma span_digits_spec s ds r :
  span_digits s = (ds, r) ->
  s = ds ++ r /\ forallb is_digit ds = true /\ nondigit_head r.
Proof.
  revert ds r; induction s as [|c s IH]; intros ds r; simpl.
  - intros H; injection H as <- <-. simpl; auto.
  - destruct (is_digit c) eqn:Ec.
    + destruct (span_digits s) as [ds' r'].
      intros H; injection H as <- <-.
      destruct (IH _ _ eq_refl) as (-> & Hd & Hr).
      simpl; rewrite Ec, Hd; auto.
    + intros H; injection H as <- <-. simpl; auto.
Qed.

Lemma span_digits_frame ds t :
  forallb is_digit ds = true -> nondigit_head t ->
  span_digits (ds ++ t) = (ds, t).
Proof.
  intros Hd Ht; induction ds as [|c ds IH]; simpl.
  - destruct t as [|x t]; [reflexivity|]. simpl in Ht; simpl; rewrite Ht.
    reflexivity.
  - simpl in Hd; apply andb_true_iff in Hd as [Hc Hd].
    rewrite Hc, IH by exact Hd. reflexivity.
Qed.

Lemma int_part_spec s ids r :
  int_part s = Some (ids, r) ->
  s = ids ++ r /\ ids <> [] /\ forallb is_digit ids = true
  /\ forall t, nondigit_head t -> int_part (ids ++ t) = Some (ids, t).
Proof.
  unfold int_part. destruct s as [|d s]; [discriminate|].
  destruct ((49 <=? d) && (d <=? 57)) eqn:E1.
  - destruct (span_digits s) as [ds r'] eqn:Es.
    intros H; injection H as <- <-.
    destruct (span_digits_spec _ _ _ Es) as (-> & Hd & Hr).
    assert (Hdd : is_digit d = true).
    { unfold is_digit. apply andb_true_iff in E1 as [A B].
      apply N.leb_le in A, B. apply andb_true_iff; split; apply N.leb_le; lia. }
    repeat split; try discriminate.
    + simpl; rewrite Hdd, Hd; reflexivity.
    + intros t Ht. simpl. rewrite E1, span_digits_frame by assumption.
      reflexivity.
  - destruct (d =? 48) eqn:E2; [|discriminate].
    intros H; injection H as <- <-.
    apply N.eqb_eq in E2; subst d.
    repeat split; discriminate.
Qed.

Lemma frac_part_spec s fds r :
  frac_part s = (fds, r) ->
  exists cf,
    s = cf ++ r
    /\ ((cf = [] /\ fds = [])
        \/ (cf = 46 :: fds /\ fds <> [] /\ forallb is_digit fds = true))
    /\ forall t, nondigit_head t ->
         (cf = [] -> match t with [] => True | c :: _ => c <> 46 end) ->
         frac_part (cf ++ t) = (fds, t).
Proof.
  unfold frac_part.
  assert (Hno : forall t, match t with [] => True | c :: _ => c <> 46 end ->
                  match t with
                  | dot :: f :: r0 =>
                      if (dot =? 46) && is_digit f
                      then span_digits (f :: r0) else ([], t)
                  | _ => ([], t)
                  end = ([], t)).
  { intros [|c [|f t]] Hc; try reflexivity.
    apply N.eqb_neq in Hc; rewrite Hc; reflexivity. }
  destruct s as [|dot [|f s]].
  - intros H; injection H as <- <-. exists []; split; [reflexivity|].
    split; [auto|]. intros t _ Ht; apply Hno, Ht; reflexivity.
  - intros H; injection H as <- <-. exists []; split; [reflexivity|].
    split; [auto|]. intros t _ Ht; apply Hno, Ht; reflexivity.
  - destruct ((dot =? 46) && is_digit f) eqn:E.
    + apply andb_true_iff in E as [Ed Ef]. apply N.eqb_eq in Ed; subst dot.
      intros Hs. destruct (span_digits_spec _ _ _ Hs) as (E & Hd & Hr).
      exists (46 :: fds). split; [simpl; f_equal; exact E|].
      split.
      * right. split; [reflexivity|]. split; [|exact Hd].
        destruct fds; [|discriminate].
        simpl in E. subst r. simpl in Hr. congruence.
      * intros t Ht _.
        destruct fds as [|f' fds'].
        { simpl in E; subst r; simpl in Hr; congruence. }
        simpl in E; injection E as <- E.
        change ((46 :: f :: fds') ++ t) with (46 :: f :: (fds' ++ t)).
        cbn [N.eqb Pos.eqb andb]. rewrite Ef.
        change (f :: fds' ++ t) with ((f :: fds') ++ t).
        apply span_digits_frame; assumption.
    + intros H; injection H as <- <-. exists []; split; [reflexivity|].
      split; [auto|]. intros t _ Ht; apply Hno, Ht; reflexivity.
Qed.

(** Boolean tests on code points, turned into arithmetic. *)
Ltac n2p :=
  repeat match goal with
    | H : _ && _ = true |- _ => apply andb_true_iff in H; destruct H
    | H : _ || _ = false |- _ => apply orb_false_iff in H; destruct H
    | H : negb _ = true |- _ => apply negb_true_iff in H
    | H : negb _ = false |- _ => apply negb_false_iff in H
    | H : (_ <=? _) = true |- _ => apply N.leb_le in H
    | H : (_ <=? _) = false |- _ => apply N.leb_gt in H
    | H : (_ <? _) = true |- _ => apply N.ltb_lt in H
    | H : (_ <? _) = false |- _ => apply N.ltb_ge in H
    | H : (_ =? _) = true |- _ => apply N.eqb_eq in H
    | H : (_ =? _) = false |- _ => apply N.eqb_neq in H
    end.

Ltac ncases :=
  repeat (match goal with
          | |- context [N.eqb ?a ?b] => destruct (N.eqb_spec a b)
          | |- context [N.leb ?a ?b] => destruct (N.leb_spec a b)
          | |- context [N.ltb ?a ?b] => destruct (N.ltb_spec a b)
          end; try lia; cbn [andb orb negb]);
  try reflexivity; try lia.

Ltac nsolve := n2p; ncases.

Lemma digit_not_space d : is_digit d = true -> isspace d = false.
Proof. unfold is_digit, isspace; intros H; nsolve. Qed.

Lemma digit_good_end c d : ends_with c d -> is_digit d = true -> good_end c.
Proof.
  intros Hc Hd. exists d. split; [exact Hc|].
  split; [apply digit_not_space, Hd|].
  unfold is_digit, BACKTICK in *; n2p; lia.
Qed.

Lemma forallb_last (p : N -> bool) l :
  l <> [] -> forallb p l = true -> exists x, ends_with l x /\ p x = true.
Proof.
  intros Hne Hp. destruct (exists_last Hne) as (l' & x & ->).
  rewrite forallb_app in Hp. apply andb_true_iff in Hp as [_ Hp].
  simpl in Hp; rewrite andb_true_r in Hp.
  exists x; split; [exists l'; reflexivity|exact Hp].
Qed.

Lemma ends_with_app a b x : ends_with b x -> ends_with (a ++ b) x.
Proof. intros [b' ->]. exists (a ++ b'). apply app_assoc. Qed.

Lemma ends_with_cons a b x : ends_with b x -> ends_with (a :: b) x.
Proof. apply (ends_with_app [a]). Qed.

Lemma exp_sign_spec s eneg r :
  exp_sign s = (eneg, r) ->
  exists sg,
    s = sg ++ r
    /\ forall d u, is_digit d = true -> exp_sign (sg ++ d :: u) = (eneg, d :: u).
Proof.
  assert (Hd : forall d u, is_digit d = true -> exp_sign (d :: u) = (false, d :: u)).
  { intros d u H. unfold exp_sign, is_digit in *. n2p.
    destruct (N.eqb_spec d 45); [lia|]. destruct (N.eqb_spec d 43); [lia|].
    reflexivity. }
  unfold exp_sign. destruct s as [|c s].
  - intros H; injection H as <- <-. exists []; split; [reflexivity|exact Hd].
  - destruct (c =? 45) eqn:E1.
    + intros H; injection H as <- <-. apply N.eqb_eq in E1; subst.
      exists [45]; split; [reflexivity|]. intros d u _; reflexivity.
    + destruct (c =? 43) eqn:E2.
      * intros H; injection H as <- <-. apply N.eqb_eq in E2; subst.
        exists [43]; split; [reflexivity|]. intros d u _; reflexivity.
      * intros H; injection H as <- <-.
        exists []; split; [reflexivity|exact Hd].
Qed.

Lemma delim_ok_head t :
  delim_ok t ->
  nondigit_head t /\ match t with [] => True | c :: _ => c <> 46 end.
Proof.
  destruct t as [|c t]; simpl; [auto|].
  unfold number_char; intros H; n2p. auto.
Qed.

Lemma exp_part_spec s ex r :
  exp_part s = (ex, r) ->
  exists ce,
    s = ce ++ r
    /\ ((ce = [] /\ ex = None)
        \/ (exists d, ends_with ce d /\ is_digit d = true))
    /\ (forall t, delim_ok t -> exp_part (ce ++ t) = (ex, t))
    /\ (forall t, delim_ok t ->
          nondigit_head (ce ++ t)
          /\ match ce ++ t with [] => True | c :: _ => c <> 46 end).
Proof.
  assert (Hno : forall t, delim_ok t -> exp_part t = (None, t)).
  { intros [|c t] Ht; [reflexivity|]. unfold exp_part.
    simpl in Ht. unfold number_char in Ht. n2p.
    destruct (N.eqb_spec c 101); [lia|]. destruct (N.eqb_spec c 69); [lia|].
    reflexivity. }
  assert (Hnil : exists ce, s = ce ++ s
                   /\ ((ce = [] /\ @None (bool * pystr) = None)
                       \/ (exists d, ends_with ce d /\ is_digit d = true))
                   /\ (forall t, delim_ok t -> exp_part (ce ++ t) = (None, t))
                   /\ (forall t, delim_ok t ->
                         nondigit_head (ce ++ t)
                         /\ match ce ++ t with [] => True | c :: _ => c <> 46 end)).
  { exists []; split; [reflexivity|]. split; [auto|].
    split; [exact Hno|exact delim_ok_head]. }
  unfold exp_part at 1. destruct s as [|e s].
  - intros H; injection H as <- <-. exact Hnil.
  - destruct ((e =? 101) || (e =? 69)) eqn:Ee.
    + destruct (exp_sign s) as [eneg r1] eqn:Esg.
      destruct (span_digits r1) as [eds r2] eqn:Esp.
      destruct eds as [|d eds].
      * intros H; injection H as <- <-. exact Hnil.
      * clear Hnil.
        destruct (exp_sign_spec _ _ _ Esg) as (sg & -> & Hsg).
        destruct (span_digits_spec _ _ _ Esp) as (-> & Hd & Hr).
        intros H; injection H as <- <-.
        exists (e :: sg ++ d :: eds). split.
        { simpl. rewrite <- !app_assoc. reflexivity. }
        split.
        { right. destruct (forallb_last is_digit (d :: eds)) as (x & Hx & Hdx);
            [discriminate|exact Hd|].
          exists x; split; [|exact Hdx].
          apply ends_with_cons, ends_with_app, Hx. }
        split.
        { intros t Ht. cbn [app exp_part]. rewrite Ee.
          rewrite <- app_assoc. cbn [app].
          simpl in Hd. apply andb_true_iff in Hd as [Hd1 Hd2].
          rewrite (Hsg d (eds ++ t) Hd1).
          change (d :: eds ++ t) with ((d :: eds) ++ t).
          rewrite span_digits_frame.
          - reflexivity.
          - simpl; rewrite Hd1, Hd2; reflexivity.
          - apply delim_ok_head, Ht. }
        { intros t _. cbn [app nondigit_head].
          unfold is_digit. apply orb_true_iff in Ee.
          split; [|destruct Ee; n2p; lia].
          destruct Ee; n2p; subst; reflexivity. }
    + intros H; injection H as <- <-. exact Hnil.
Qed.

Lemma opt_minus_spec s neg r :
  opt_minus s = (neg, r) ->
  exists m,
    s = m ++ r /\ (m = [] \/ m = [45])
    /\ forall d u, is_digit d = true -> opt_minus (m ++ d :: u) = (neg, d :: u).
Proof.
  assert (Hd : forall d u, is_digit d = true -> opt_minus (d :: u) = (false, d :: u)).
  { intros d u H. unfold opt_minus, is_digit in *. n2p.
    destruct (N.eqb_spec d 45); [lia|]. reflexivity. }
  unfold opt_minus. destruct s as [|c s].
  - intros H; injection H as <- <-. exists []; auto.
  - destruct (c =? 45) eqn:E.
    + intros H; injection H as <- <-. apply N.eqb_eq in E; subst.
      exists [45]. split; [reflexivity|]. split; [auto|reflexivity].
    + intros H; injection H as <- <-. exists []; auto.
Qed.

(** What [match_number] consumes: an optional minus sign and a digit first,
    a digit last; it is read the same way before any text that cannot
    continue a number. *)
Lemma match_number_frame s v rest :
  match_number s = Some (v, rest) ->
  exists m d c,
    s = (m ++ d :: c) ++ rest
    /\ (m = [] \/ m = [45]) /\ is_digit d = true
    /\ (exists x, ends_with (m ++ d :: c) x /\ is_digit x = true)
    /\ v <> PNone
    /\ forall t, delim_ok t -> match_number ((m ++ d :: c) ++ t) = Some (v, t).
Proof.
  unfold match_number at 1.
  destruct (opt_minus s) as [neg s1] eqn:Em.
  destruct (int_part s1) as [[ids s2]|] eqn:Ei; [|discriminate].
  destruct (frac_part s2) as [fds s3] eqn:Ef.
  destruct (exp_part s3) as [ex s4] eqn:Ee.
  destruct (opt_minus_spec _ _ _ Em) as (m & -> & Hm & Fm).
  destruct (int_part_spec _ _ _ Ei) as (-> & Hine & Hid & Fi).
  destruct (frac_part_spec _ _ _ Ef) as (cf & -> & Hcf & Ff).
  destruct (exp_part_spec _ _ _ Ee) as (ce & -> & Hce & Fe & He).
  intros Hv.
  assert (Hrest : s4 = rest /\ v <> PNone).
  { destruct fds, ex as [[? ?]|]; injection Hv as <- <-; split;
      (reflexivity || discriminate). }
  destruct Hrest as [<- Hvn].
  destruct ids as [|d ids']; [congruence|].
  exists m, d, (ids' ++ cf ++ ce).
  split; [cbn [app]; rewrite <- !app_assoc; cbn [app];
          rewrite <- !app_assoc; reflexivity|].
  split; [exact Hm|].
  split; [simpl in Hid; apply andb_true_iff in Hid as [H _]; exact H|].
  split.
  { (* the last character *)
    destruct Hce as [[-> _]|(x & Hx & Hdx)].
    - rewrite app_nil_r.
      destruct Hcf as [[-> _]|(-> & Hfne & Hfd)].
      + rewrite app_nil_r.
        destruct (forallb_last is_digit (d :: ids')) as (x & Hx & Hdx);
          [discriminate|exact Hid|].
        exists x; split; [apply ends_with_app, Hx|exact Hdx].
      + destruct (forallb_last is_digit fds) as (x & Hx & Hdx);
          [exact Hfne|exact Hfd|].
        exists x; split; [|exact Hdx].
        apply ends_with_app. change (d :: ids' ++ 46 :: fds)
          with ((d :: ids') ++ [46] ++ fds).
        apply ends_with_app, ends_with_app, Hx.
    - exists x; split; [|exact Hdx].
      apply ends_with_app. change (d :: ids' ++ cf ++ ce)
        with ((d :: ids') ++ cf ++ ce).
      apply ends_with_app, ends_with_app, Hx. }
  split; [exact Hvn|].
  intros t Ht. unfold match_number.
  replace ((m ++ d :: ids' ++ cf ++ ce) ++ t)
    with (m ++ d :: (ids' ++ cf ++ ce ++ t))
    by (rewrite <- !app_assoc; cbn [app]; rewrite <- !app_assoc; reflexivity).
  rewrite (Fm d _) by (simpl in Hid; apply andb_true_iff in Hid as [H _]; exact H).
  change (d :: ids' ++ cf ++ ce ++ t) with ((d :: ids') ++ cf ++ ce ++ t).
  destruct (He t Ht) as [He1 He2].
  rewrite Fi.
  - rewrite Ff; [|exact He1|intros _; exact He2].
    rewrite (Fe t Ht).
    destruct fds, ex as [[? ?]|]; injection Hv as <-; reflexivity.
  - destruct Hcf as [[-> _]|(-> & _ & _)]; [exact He1|reflexivity].
Qed.

Lemma after_prefix_spec p s r : after_prefix p s = Some r -> s = p ++ r.
Proof.
  revert s; induction p as [|x p IH]; intros [|y s]; simpl;
    try discriminate; try (intros H; injection H as <-; reflexivity).
  destruct (x =? y) eqn:E; [|discriminate].
  apply N.eqb_eq in E; subst y. intros H; rewrite (IH _ H); reflexivity.
Qed.

Lemma after_prefix_app p t : after_prefix p (p ++ t) = Some t.
Proof.
  induction p as [|x p IH]; simpl; [destruct t; reflexivity|].
  rewrite N.eqb_refl. exact IH.
Qed.

Lemma constant_frame s v rest :
  constant s = Some (v, rest) ->
  exists c,
    s = c ++ rest /\ good_end c
    /\ (v = PNone -> c = lit "null")
    /\ forall t, constant (c ++ t) = Some (v, t).
Proof.
  unfold constant at 1. destruct s as [|h s]; [discriminate|].
  set (s0 := h :: s).
  assert (Hlit : forall (p : pystr) (w : pyval),
            option_map (pair w) (after_prefix p s0) = Some (v, rest) ->
            good_end p -> (w = PNone -> p = lit "null") ->
            (forall t, constant (p ++ t)
                       = option_map (pair w) (after_prefix p (p ++ t))) ->
            exists c, s0 = c ++ rest /\ good_end c
              /\ (v = PNone -> c = lit "null")
              /\ forall t, constant (c ++ t) = Some (v, t)).
  { intros p w H Hg Hn Hc.
    destruct (after_prefix p s0) as [r|] eqn:E; [|discriminate].
    injection H as <- <-. apply after_prefix_spec in E.
    exists p. split; [exact E|]. split; [exact Hg|]. split; [exact Hn|].
    intros t. rewrite Hc, after_prefix_app. reflexivity. }
  assert (Hend : forall (p : pystr) (x : N),
            isspace x = false -> x <> BACKTICK -> good_end (p ++ [x])).
  { intros p x H1 H2. exists x. split; [exists p; reflexivity|auto]. }
  destruct (h =? 110).
  { intros H. apply (Hlit _ _ H); [|reflexivity|reflexivity].
    apply (Hend (lit "nul") 108); [reflexivity|discriminate]. }
  destruct (h =? 116).
  { intros H. apply (Hlit _ _ H); [|discriminate|reflexivity].
    apply (Hend (lit "tru") 101); [reflexivity|discriminate]. }
  destruct (h =? 102).
  { intros H. apply (Hlit _ _ H); [|discriminate|reflexivity].
    apply (Hend (lit "fals") 101); [reflexivity|discriminate]. }
  destruct (h =? 78).
  { intros H. apply (Hlit _ _ H); [|discriminate|reflexivity].
    apply (Hend (lit "Na") 78); [reflexivity|discriminate]. }
  destruct (h =? 73).
  { intros H. apply (Hlit _ _ H); [|discriminate|reflexivity].
    apply (Hend (lit "Infinit") 121); [reflexivity|discriminate]. }
  destruct (h =? 45); [|discriminate].
  intros H. apply (Hlit _ _ H); [|discriminate|reflexivity].
  apply (Hend (lit "-Infinit") 121); [reflexivity|discriminate].
Qed.

Lemma constant_none_number m d u :
  m = [] \/ m = [45] -> is_digit d = true -> constant (m ++ d :: u) = None.
Proof.
  intros [-> | ->] Hd; unfold is_digit in Hd; n2p.
  - cbn [app constant].
    repeat match goal with
           | |- context [N.eqb d ?k] => destruct (N.eqb_spec d k); [lia|]
           end.
    reflexivity.
  - cbn. destruct d as [|p]; [reflexivity|].
    destruct (Pos.eqb_spec 73 p) as [<-|]; [lia|reflexivity].
Qed.

(** What [scanstring] consumes ends with the closing quote and is read the
    same way whatever follows. *)
Lemma scanstring_frame s acc pending str rest :
  scanstring s acc pending = Some (str, rest) ->
  exists c,
    s = c ++ rest /\ ends_with c 34
    /\ forall t, scanstring (c ++ t) acc pending = Some (str, t).
Proof.
  remember (length s) as n eqn:Hn.
  assert (Hlen : (length s <= n)%nat) by lia. clear Hn.
  revert s acc pending Hlen.
  induction n as [|n IH]; intros s acc pending Hlen H.
  { destruct s; [discriminate H|simpl in Hlen; lia]. }
  destruct s as [|ch r]; [discriminate H|].
  cbn [scanstring] in H.
  destruct (ch =? 34) eqn:E1.
  { injection H as <- <-. apply N.eqb_eq in E1; subst ch.
    exists [34]. split; [reflexivity|]. split; [exists []; reflexivity|].
    intros t; reflexivity. }
  destruct (ch =? 92) eqn:E2.
  - destruct r as [|e r1]; [discriminate H|].
    destruct (e =? 117) eqn:E3.
    + destruct r1 as [|h1 [|h2 [|h3 [|h4 r2]]]]; try discriminate H.
      destruct (hex4 h1 h2 h3 h4) as [cu|] eqn:E4; [|discriminate H].
      assert (Hgo : forall acc' pending',
                scanstring r2 acc' pending' = Some (str, rest) ->
                (forall r', scanstring (ch :: e :: h1 :: h2 :: h3 :: h4 :: r')
                              acc pending
                            = scanstring r' acc' pending') ->
                exists c,
                  ch :: e :: h1 :: h2 :: h3 :: h4 :: r2 = c ++ rest
                  /\ ends_with c 34
                  /\ forall t, scanstring (c ++ t) acc pending = Some (str, t)).
      { intros acc' pending' H' Hstep.
        destruct (IH r2 acc' pending') as (c' & Ec & Hend & Hfr);
          [simpl in Hlen; lia|exact H'|].
        exists (ch :: e :: h1 :: h2 :: h3 :: h4 :: c').
        split; [rewrite Ec at 1; reflexivity|].
        split; [apply (ends_with_app [ch; e; h1; h2; h3; h4]), Hend|].
        intros t. cbn [app]. rewrite Hstep. apply Hfr. }
      destruct pending as [hi|].
      * destruct (is_low_surrogate cu) eqn:E5;
          [|destruct (is_high_surrogate cu) eqn:E6];
          apply (Hgo _ _ H); intros r'; cbn [scanstring];
          rewrite E1, E2, E3, E4, E5, ?E6; reflexivity.
      * destruct (is_high_surrogate cu) eqn:E6;
          apply (Hgo _ _ H); intros r'; cbn [scanstring];
          rewrite E1, E2, E3, E4, E6; reflexivity.
    + destruct (simple_escape e) as [x|] eqn:E4; [|discriminate H].
      destruct (IH r1 _ _ ltac:(simpl in Hlen; lia) H) as (c' & -> & Hend & Hfr).
      exists (ch :: e :: c').
      split; [reflexivity|].
      split; [apply (ends_with_app [ch; e]), Hend|].
      intros t. cbn [app scanstring]. rewrite E1, E2, E3, E4. apply Hfr.
  - destruct (ch <? 32) eqn:E3; [discriminate H|].
    destruct (IH r _ _ ltac:(simpl in Hlen; lia) H) as (c' & -> & Hend & Hfr).
    exists (ch :: c').
    split; [reflexivity|].
    split; [apply ends_with_cons, Hend|].
    intros t. cbn [app scanstring]. rewrite E1, E2, E3. apply Hfr.
Qed.

Lemma lstrip_with_head p s c r : lstrip_with p s = c :: r -> p c = false.
Proof.
  induction s as [|x s IH]; simpl; [discriminate|].
  destruct (p x) eqn:E; [exact IH|].
  intros H; injection H as <- _; exact E.
Qed.

Lemma lstrip_with_app p ws u :
  forallb p ws = true -> lstrip_with p (ws ++ u) = lstrip_with p u.
Proof.
  induction ws as [|x ws IH]; simpl; [reflexivity|].
  intros H; apply andb_true_iff in H as [Hx Hw]. rewrite Hx; auto.
Qed.

Lemma skip_ws_cons r c r1 :
  skip_ws r = c :: r1 ->
  is_ws c = false /\ exists ws, r = ws ++ c :: r1 /\ forallb is_ws ws = true.
Proof.
  intros H. split; [eapply lstrip_with_head, H|].
  destruct (lstrip_with_split is_ws r) as (ws & E & Hw).
  exists ws. unfold skip_ws in H. rewrite H in E. auto.
Qed.

Lemma skip_ws_frame ws c u :
  forallb is_ws ws = true -> is_ws c = false -> skip_ws (ws ++ c :: u) = c :: u.
Proof.
  intros Hw Hc. unfold skip_ws. rewrite lstrip_with_app by exact Hw.
  simpl. rewrite Hc. reflexivity.
Qed.

Lemma is_ws_not_number c : is_ws c = true -> number_char c = false.
Proof.
  unfold is_ws, number_char, is_digit. intros H.
  repeat (apply orb_true_iff in H; destruct H as [H|H]);
    n2p; subst; reflexivity.
Qed.

Lemma delim_ok_ws ws c u :
  forallb is_ws ws = true -> number_char c = false -> delim_ok (ws ++ c :: u).
Proof.
  destruct ws as [|x ws]; simpl; [auto|].
  intros H _. apply andb_true_iff in H as [H _]. apply is_ws_not_number, H.
Qed.

Lemma ends_with_nonempty c x : ends_with c x -> c <> [].
Proof. intros [c' ->]. destruct c'; discriminate. Qed.

Lemma good_end_nonempty c : good_end c -> c <> [].
Proof. intros (x & H & _). eapply ends_with_nonempty, H. Qed.

(** The head of the text consumed is the head of the text scanned. *)
Lemma consumed_head (c rest : pystr) h r x :
  h :: r = c ++ rest -> ends_with c x -> exists c1, c = h :: c1.
Proof.
  intros E H. apply ends_with_nonempty in H.
  destruct c as [|h' c1]; [congruence|].
  injection E as -> _. eauto.
Qed.

Lemma good_end_char (p : pystr) x :
  isspace x = false -> x <> BACKTICK -> good_end (p ++ [x]).
Proof. intros H1 H2. exists x. split; [exists p; reflexivity|auto]. Qed.

Lemma ends_with_good c x :
  ends_with c x -> isspace x = false -> x <> BACKTICK -> good_end c.
Proof. intros H H1 H2. exists x; auto. Qed.

Lemma scan_frame_step n : array_frame n -> object_frame n -> scan_frame (S n).
Proof.
  intros HA HO s v rest H.
  destruct s as [|ch r]; [discriminate H|].
  cbn [scan_once] in H.
  destruct (ch =? 34) eqn:E1.
  { (* a string *)
    destruct (scanstring r [] None) as [[str r']|] eqn:Es; [|discriminate H].
    injection H as <- <-.
    destruct (scanstring_frame _ _ _ _ _ Es) as (c' & -> & Hend & Hfr).
    exists (ch :: c'). split; [reflexivity|].
    split; [eapply ends_with_good;
            [apply ends_with_cons, Hend|reflexivity|discriminate]|].
    split; [discriminate|].
    intros t m _ Hm. destruct m as [|m]; [simpl in Hm; lia|].
    cbn [app scan_once]. rewrite E1, Hfr. reflexivity. }
  destruct (ch =? 123) eqn:E2.
  { (* an object *)
    destruct (skip_ws r) as [|c1 r1] eqn:Ew; [discriminate H|].
    destruct (skip_ws_cons _ _ _ Ew) as (Hc1 & ws & -> & Hws).
    destruct (c1 =? 125) eqn:E3.
    - injection H as <- <-. apply N.eqb_eq in E3; subst c1.
      exists (ch :: ws ++ [125]).
      split; [cbn [app]; rewrite <- app_assoc; reflexivity|].
      split; [apply (good_end_char (ch :: ws)); [reflexivity|discriminate]|].
      split; [discriminate|].
      intros t m _ Hm. destruct m as [|m]; [simpl in Hm; lia|].
      cbn [app scan_once]. rewrite E1, E2, <- app_assoc. cbn [app].
      rewrite skip_ws_frame by assumption. reflexivity.
    - destruct (HO _ _ _ _ H) as (c' & Ec & Hend & Hv & Hfr).
      destruct (consumed_head _ _ _ _ _ Ec Hend) as (c1' & ->).
      injection Ec as ->.
      exists (ch :: ws ++ c1 :: c1').
      split; [cbn [app]; rewrite <- app_assoc; reflexivity|].
      split; [eapply ends_with_good;
              [apply ends_with_cons, ends_with_app, Hend|reflexivity|discriminate]|].
      split; [intros ->; contradiction Hv; reflexivity|].
      intros t m _ Hm. destruct m as [|m]; [simpl in Hm; lia|].
      cbn [app scan_once]. rewrite E1, E2, <- app_assoc. cbn [app].
      rewrite skip_ws_frame by assumption. rewrite E3.
      apply (Hfr t m).
      cbn [length] in Hm. rewrite length_app in Hm. lia. }
  destruct (ch =? 91) eqn:E3.
  { (* an array *)
    destruct (skip_ws r) as [|c1 r1] eqn:Ew; [discriminate H|].
    destruct (skip_ws_cons _ _ _ Ew) as (Hc1 & ws & -> & Hws).
    destruct (c1 =? 93) eqn:E4.
    - injection H as <- <-. apply N.eqb_eq in E4; subst c1.
      exists (ch :: ws ++ [93]).
      split; [cbn [app]; rewrite <- app_assoc; reflexivity|].
      split; [apply (good_end_char (ch :: ws)); [reflexivity|discriminate]|].
      split; [discriminate|].
      intros t m _ Hm. destruct m as [|m]; [simpl in Hm; lia|].
      cbn [app scan_once]. rewrite E1, E2, E3, <- app_assoc. cbn [app].
      rewrite skip_ws_frame by assumption. reflexivity.
    - destruct (HA _ _ _ _ H) as (c' & Ec & Hend & Hv & Hfr).
      destruct (consumed_head _ _ _ _ _ Ec Hend) as (c1' & ->).
      injection Ec as ->.
      exists (ch :: ws ++ c1 :: c1').
      split; [cbn [app]; rewrite <- app_assoc; reflexivity|].
      split; [eapply ends_with_good;
              [apply ends_with_cons, ends_with_app, Hend|reflexivity|discriminate]|].
      split; [intros ->; contradiction Hv; reflexivity|].
      intros t m _ Hm. destruct m as [|m]; [simpl in Hm; lia|].
      cbn [app scan_once]. rewrite E1, E2, E3, <- app_assoc. cbn [app].
      rewrite skip_ws_frame by assumption. rewrite E4.
      apply (Hfr t m).
      cbn [length] in Hm. rewrite length_app in Hm. lia. }
  destruct (constant (ch :: r)) as [res|] eqn:Ec.
  { (* a named constant *)
    injection H as ->.
    destruct (constant_frame _ _ _ Ec) as (c & Es & Hend & Hn & Hfr).
    destruct Hend as (x & Hx & Hx1 & Hx2).
    destruct (consumed_head _ _ _ _ _ Es Hx) as (c1 & ->).
    exists (ch :: c1). split; [exact Es|].
    split; [exists x; auto|]. split; [exact Hn|].
    intros t m _ Hm. destruct m as [|m]; [simpl in Hm; lia|].
    cbn [app scan_once]. rewrite E1, E2, E3.
    change (ch :: c1 ++ t) with ((ch :: c1) ++ t). rewrite Hfr. reflexivity. }
  (* a number *)
  destruct (match_number_frame _ _ _ H)
    as (mm & d & c0 & Es & Hmm & Hd & (x & Hx & Hdx) & Hv & Hfr).
  destruct (consumed_head _ _ _ _ _ Es Hx) as (c1 & Ecc).
  exists (mm ++ d :: c0). split; [exact Es|].
  split; [eapply digit_good_end; eassumption|].
  split; [intros ->; contradiction Hv; reflexivity|].
  intros t m Ht Hm. destruct m as [|m]; [rewrite Ecc in Hm; simpl in Hm; lia|].
  pose proof (constant_none_number mm d (c0 ++ t) Hmm Hd) as Hcn.
  pose proof (Hfr t Ht) as Hnum.
  replace (mm ++ d :: c0 ++ t) with ((mm ++ d :: c0) ++ t) in Hcn
    by (rewrite <- app_assoc; reflexivity).
  rewrite Ecc in *. cbn [app] in *. cbn [scan_once].
  rewrite E1, E2, E3, Hcn. exact Hnum.
Qed.

Lemma array_frame_step n : scan_frame n -> array_frame n -> array_frame (S n).
Proof.
  intros HS HA s acc v rest H.
  cbn [parse_array] in H.
  destruct (scan_once n s) as [[vi r]|] eqn:Ei; [|discriminate H].
  destruct (HS _ _ _ Ei) as (ci & -> & Hci & _ & Fi).
  destruct (skip_ws r) as [|c r1] eqn:Ew; [discriminate H|].
  destruct (skip_ws_cons _ _ _ Ew) as (Hc & ws & -> & Hws).
  destruct (c =? 93) eqn:E1.
  - injection H as <- <-. apply N.eqb_eq in E1; subst c.
    exists (ci ++ ws ++ [93]).
    split; [rewrite <- !app_assoc; reflexivity|].
    split; [exists (ci ++ ws); rewrite app_assoc; reflexivity|].
    split; [discriminate|].
    intros t m Hm. destruct m as [|m]; [lia|].
    cbn [parse_array]. rewrite <- !app_assoc. cbn [app].
    rewrite (Fi (ws ++ 93 :: t) m).
    + rewrite skip_ws_frame by assumption. reflexivity.
    + apply delim_ok_ws; [exact Hws|reflexivity].
    + rewrite !length_app in Hm. lia.
  - destruct (c =? 44) eqn:E2; [|discriminate H].
    apply N.eqb_eq in E2; subst c.
    destruct (HA _ _ _ _ H) as (c' & Ec & Hend & Hv & Hfr).
    destruct (skip_ws r1) as [|h r2] eqn:Ew2.
    { symmetry in Ec. apply app_eq_nil in Ec as [-> _].
      apply ends_with_nonempty in Hend. contradiction. }
    destruct (skip_ws_cons _ _ _ Ew2) as (Hh & ws2 & -> & Hws2).
    destruct (consumed_head _ _ _ _ _ Ec Hend) as (c1' & ->).
    injection Ec as ->.
    exists (ci ++ ws ++ 44 :: ws2 ++ h :: c1').
    split; [rewrite <- !app_assoc; cbn [app]; rewrite <- !app_assoc;
            reflexivity|].
    split; [apply ends_with_app, ends_with_app, ends_with_cons, ends_with_app,
            Hend|].
    split; [exact Hv|].
    intros t m Hm. destruct m as [|m]; [lia|].
    cbn [parse_array]. rewrite <- !app_assoc. cbn [app].
    rewrite <- !app_assoc. cbn [app].
    rewrite (Fi (ws ++ 44 :: ws2 ++ h :: c1' ++ t) m).
    + rewrite skip_ws_frame by assumption. cbn [N.eqb Pos.eqb].
      rewrite skip_ws_frame by assumption.
      apply (Hfr t m).
      rewrite !length_app in Hm. cbn [length] in Hm.
      rewrite !length_app in Hm. cbn [length] in *. lia.
    + apply delim_ok_ws; [exact Hws|reflexivity].
    + rewrite !length_app in Hm. lia.
Qed.

Lemma object_frame_step n : scan_frame n -> object_frame n -> object_frame (S n).
Proof.
  intros HS HO s acc v rest H.
  cbn [parse_object] in H.
  destruct s as [|q r]; [discriminate H|].
  destruct (q =? 34) eqn:Eq; [|discriminate H].
  destruct (scanstring r [] None) as [[key r1]|] eqn:Ek; [|discriminate H].
  destruct (scanstring_frame _ _ _ _ _ Ek) as (ck & -> & Hck & Fk).
  destruct (skip_ws r1) as [|col r2] eqn:Ew1; [discriminate H|].
  destruct (skip_ws_cons _ _ _ Ew1) as (Hcol & ws1 & -> & Hws1).
  destruct (col =? 58) eqn:Ecol; [|discriminate H].
  destruct (scan_once n (skip_ws r2)) as [[vv r3]|] eqn:Ev; [|discriminate H].
  destruct (HS _ _ _ Ev) as (cv & Ecv & Hcv & _ & Fv).
  destruct (skip_ws r2) as [|hv r2'] eqn:Ew2.
  { symmetry in Ecv. apply app_eq_nil in Ecv as [-> _].
    apply good_end_nonempty in Hcv. contradiction. }
  destruct (skip_ws_cons _ _ _ Ew2) as (Hhv & ws2 & -> & Hws2).
  destruct Hcv as (x & Hx & Hx1 & Hx2).
  destruct (consumed_head _ _ _ _ _ Ecv Hx) as (cv1 & ->).
  injection Ecv as ->.
  destruct (skip_ws r3) as [|c r4] eqn:Ew3; [discriminate H|].
  destruct (skip_ws_cons _ _ _ Ew3) as (Hc & ws3 & -> & Hws3).
  destruct (c =? 125) eqn:E1.
  - injection H as <- <-. apply N.eqb_eq in E1; subst c.
    exists (q :: ck ++ ws1 ++ col :: ws2 ++ (hv :: cv1) ++ ws3 ++ [125]).
    split; [cbn [app]; rewrite <- !app_assoc; cbn [app];
            rewrite <- !app_assoc; cbn [app]; rewrite <- !app_assoc;
            reflexivity|].
    split.
    { exists (q :: ck ++ ws1 ++ col :: ws2 ++ (hv :: cv1) ++ ws3).
      cbn [app]. rewrite <- !app_assoc. cbn [app]. rewrite <- !app_assoc.
      cbn [app]. rewrite <- !app_assoc. reflexivity. }
    split; [discriminate|].
    intros t m Hm. destruct m as [|m]; [lia|].
    cbn [app parse_object]. rewrite Eq.
    rewrite <- !app_assoc. cbn [app]. rewrite <- !app_assoc. cbn [app].
    rewrite <- !app_assoc. cbn [app].
    rewrite Fk. rewrite skip_ws_frame by assumption. rewrite Ecol.
    rewrite skip_ws_frame by assumption.
    change (hv :: cv1 ++ ws3 ++ 125 :: t) with ((hv :: cv1) ++ ws3 ++ 125 :: t).
    rewrite (Fv (ws3 ++ 125 :: t) m).
    + rewrite skip_ws_frame by assumption. reflexivity.
    + apply delim_ok_ws; [exact Hws3|reflexivity].
    + cbn [length] in Hm. rewrite !length_app in Hm. cbn [length] in Hm.
      rewrite !length_app in Hm. cbn [length] in *. lia.
  - destruct (c =? 44) eqn:E2; [|discriminate H].
    apply N.eqb_eq in E2; subst c.
    destruct (HO _ _ _ _ H) as (c' & Ec & Hend & Hv & Hfr).
    destruct (skip_ws r4) as [|h r5] eqn:Ew4.
    { symmetry in Ec. apply app_eq_nil in Ec as [-> _].
      apply ends_with_nonempty in Hend. contradiction. }
    destruct (skip_ws_cons _ _ _ Ew4) as (Hh & ws4 & -> & Hws4).
    destruct (consumed_head _ _ _ _ _ Ec Hend) as (c1' & ->).
    injection Ec as ->.
    exists (q :: ck ++ ws1 ++ col :: ws2 ++ (hv :: cv1) ++ ws3
              ++ 44 :: ws4 ++ h :: c1').
    split; [cbn [app]; rewrite <- !app_assoc; cbn [app];
            rewrite <- !app_assoc; cbn [app]; rewrite <- !app_assoc;
            cbn [app]; rewrite <- !app_assoc; reflexivity|].
    split.
    { apply ends_with_cons, ends_with_app, ends_with_app, ends_with_cons,
        ends_with_app, ends_with_app, ends_with_app, ends_with_cons,
        ends_with_app, Hend. }
    split; [exact Hv|].
    intros t m Hm. destruct m as [|m]; [lia|].
    cbn [app parse_object]. rewrite Eq.
    rewrite <- !app_assoc. cbn [app]. rewrite <- !app_assoc. cbn [app].
    rewrite <- !app_assoc. cbn [app]. rewrite <- !app_assoc. cbn [app].
    rewrite Fk. rewrite skip_ws_frame by assumption. rewrite Ecol.
    rewrite skip_ws_frame by assumption.
    change (hv :: cv1 ++ ws3 ++ 44 :: ws4 ++ h :: c1' ++ t)
      with ((hv :: cv1) ++ ws3 ++ 44 :: ws4 ++ h :: c1' ++ t).
    rewrite (Fv (ws3 ++ 44 :: ws4 ++ h :: c1' ++ t) m).
    + rewrite skip_ws_frame by assumption. cbn [N.eqb Pos.eqb].
      rewrite skip_ws_frame by assumption.
      apply (Hfr t m).
      cbn [length] in Hm. rewrite !length_app in Hm. cbn [length] in Hm.
      rewrite !length_app in Hm. cbn [length] in Hm.
      rewrite !length_app in Hm. cbn [length] in *. lia.
    + apply delim_ok_ws; [exact Hws3|reflexivity].
    + cbn [length] in Hm. rewrite !length_app in Hm. cbn [length] in Hm.
      rewrite !length_app in Hm. cbn [length] in *. lia.
Qed.

Lemma frames n : scan_frame n /\ array_frame n /\ object_frame n.
Proof.
  induction n as [|n (HS & HA & HO)].
  - repeat split; intro; intros; discriminate.
  - split; [apply scan_frame_step; assumption|].
    split; [apply array_frame_step|apply object_frame_step]; assumption.
Qed.

Lemma is_ws_isspace c : is_ws c = true -> isspace c = true.
Proof.
  unfold is_ws. intros H.
  repeat (apply orb_true_iff in H; destruct H as [H|H]);
    apply N.eqb_eq in H; subst; reflexivity.
Qed.

Lemma scan_once_head n h r x :
  scan_once n (h :: r) = Some x -> isspace h = false /\ h <> BACKTICK.
Proof.
  destruct n as [|n]; [discriminate|]. cbn [scan_once].
  assert (Hk : forall k, isspace k = false -> k <> BACKTICK ->
                 (h =? k) = true -> isspace h = false /\ h <> BACKTICK).
  { intros k H1 H2 E. apply N.eqb_eq in E; subst; auto. }
  destruct (h =? 34) eqn:E1; [intros _; apply (Hk 34); easy|].
  destruct (h =? 123) eqn:E2; [intros _; apply (Hk 123); easy|].
  destruct (h =? 91) eqn:E3; [intros _; apply (Hk 91); easy|].
  destruct (constant (h :: r)) as [res|] eqn:Ec.
  - intros _. unfold constant in Ec.
    destruct (h =? 110) eqn:K1; [apply (Hk 110); easy|].
    destruct (h =? 116) eqn:K2; [apply (Hk 116); easy|].
    destruct (h =? 102) eqn:K3; [apply (Hk 102); easy|].
    destruct (h =? 78) eqn:K4; [apply (Hk 78); easy|].
    destruct (h =? 73) eqn:K5; [apply (Hk 73); easy|].
    destruct (h =? 45) eqn:K6; [apply (Hk 45); easy|discriminate].
  - destruct x as [v rest]. intros H.
    destruct (match_number_frame _ _ _ H)
      as (mm & d & c0 & Es & Hmm & Hd & _).
    destruct Hmm as [-> | ->]; cbn [app] in Es; injection Es as -> _.
    + split; [apply digit_not_space, Hd|].
      unfold is_digit, BACKTICK in *; n2p; lia.
    + split; [reflexivity|discriminate].
Qed.

Lemma skip_ws_nil r : skip_ws r = [] -> forallb is_ws r = true.
Proof.
  intros H. destruct (lstrip_with_split is_ws r) as (ws & E & Hw).
  unfold skip_ws in H. rewrite H, app_nil_r in E. subst; exact Hw.
Qed.

(** A text that [json.loads] accepts is a core between two runs of JSON
    white space; the core neither starts nor ends with white space or a
    backtick, and parses on its own to the same value. *)
Lemma loads_core J v :
  loads J = Some v ->
  exists w1 core w2,
    J = w1 ++ core ++ w2
    /\ forallb is_ws w1 = true /\ forallb is_ws w2 = true
    /\ (exists h c1, core = h :: c1 /\ isspace h = false /\ h <> BACKTICK)
    /\ good_end core
    /\ (v = PNone -> core = lit "null")
    /\ loads core = Some v.
Proof.
  unfold loads at 1.
  destruct (scan_once _ (skip_ws J)) as [[v' rest]|] eqn:Es; [|discriminate].
  destruct (skip_ws rest) eqn:Er; [|discriminate].
  intros H; injection H as ->.
  destruct (proj1 (frames _) _ _ _ Es) as (c & Ec & Hend & Hn & Hfr).
  destruct (lstrip_with_split is_ws J) as (w1 & EJ & Hw1).
  fold (skip_ws J) in EJ.
  exists w1, c, rest.
  split; [rewrite EJ at 1; rewrite Ec; reflexivity|].
  split; [exact Hw1|]. split; [apply skip_ws_nil, Er|].
  assert (Hh : exists h c1, c = h :: c1 /\ isspace h = false /\ h <> BACKTICK).
  { destruct c as [|h c1]; [apply good_end_nonempty in Hend; contradiction|].
    exists h, c1. split; [reflexivity|].
    rewrite Ec in Es. eapply scan_once_head, Es. }
  split; [exact Hh|]. split; [exact Hend|]. split; [exact Hn|].
  destruct Hh as (h & c1 & -> & Hh & _).
  unfold loads.
  assert (Hs : skip_ws (h :: c1) = h :: c1).
  { unfold skip_ws; simpl. destruct (is_ws h) eqn:E; [|reflexivity].
    apply is_ws_isspace in E. congruence. }
  rewrite Hs.
  pose proof (Hfr [] (2 * length (h :: c1) + 2)%nat I ltac:(lia)) as Hf.
  rewrite app_nil_r in Hf. rewrite Hf. reflexivity.
Qed.

(** The fuel that [loads] gives is never what makes a parse fail. *)
Lemma loads_fuel_enough n s v rest :
  scan_once n (skip_ws s) = Some (v, rest) -> skip_ws rest = [] ->
  loads s = Some v.
Proof.
  intros Hs Hr. unfold loads.
  destruct (proj1 (frames _) _ _ _ Hs) as (c & Ec & _ & _ & Hfr).
  rewrite Ec.
  assert (Hd : delim_ok rest).
  { apply skip_ws_nil in Hr. destruct rest as [|x rest]; [exact I|].
    simpl in Hr. apply andb_true_iff in Hr as [Hx _].
    apply is_ws_not_number, Hx. }
  rewrite (Hfr rest _ Hd).
  - rewrite Hr. reflexivity.
  - assert (length (skip_ws s) <= length s)%nat.
    { destruct (lstrip_with_split is_ws s) as (ws & E & _).
      fold (skip_ws s) in E. rewrite E at 2. rewrite length_app. lia. }
    rewrite Ec, length_app in H. lia.
Qed.

(** ** Embedded JSON extractor: exact replies *)

Lemma rstrip_with_all p l : forallb p l = true -> rstrip_with p l = [].
Proof.
  induction l as [|c l IH]; simpl; [reflexivity|].
  intros H; apply andb_true_iff in H as [Hc Hl].
  rewrite IH, Hc by exact Hl. reflexivity.
Qed.

Lemma rstrip_with_app_end p c x trail :
  p x = false -> forallb p trail = true ->
  rstrip_with p ((c ++ [x]) ++ trail) = c ++ [x].
Proof.
  intros Hx Ht. induction c as [|a c IH].
  - simpl. rewrite rstrip_with_all, Hx by exact Ht. reflexivity.
  - cbn [app rstrip_with]. rewrite IH.
    destruct (c ++ [x]) eqn:E; [destruct c; discriminate|reflexivity].
Qed.

(** Trimming a text that is white space around a core without white space
    at its ends gives the core. *)
Lemma strip_with_core p lead core trail h c1 x :
  forallb p lead = true -> forallb p trail = true ->
  core = h :: c1 -> p h = false -> ends_with core x -> p x = false ->
  strip_with p (lead ++ core ++ trail) = core.
Proof.
  intros Hl Ht Eh Hh [c' Ec] Hx. unfold strip_with.
  rewrite lstrip_with_app by exact Hl.
  rewrite Eh at 1. cbn [app lstrip_with]. rewrite Hh.
  change (h :: c1 ++ trail) with ((h :: c1) ++ trail). rewrite <- Eh.
  rewrite Ec. apply rstrip_with_app_end; assumption.
Qed.

Lemma is_ws_forall_isspace w : forallb is_ws w = true -> forallb isspace w = true.
Proof. apply forallb_impl, is_ws_isspace. Qed.

Lemma startswith_head s h r c p :
  s = h :: r -> h <> c -> startswith s (c :: p) = false.
Proof.
  intros -> Hn. simpl. apply N.eqb_neq in Hn.
  rewrite N.eqb_sym, Hn. reflexivity.
Qed.

Lemma startswith_app p u : startswith (p ++ u) p = true.
Proof.
  induction p as [|x p IH]; simpl; [destruct u; reflexivity|].
  rewrite N.eqb_refl. exact IH.
Qed.

(** The extractor on a trimmed, fence-free text that parses. *)
Lemma extract_direct text core v :
  text <> [] -> strip_fences text = core -> loads core = Some v ->
  (v = PNone -> core = lit "null") ->
  _extract_json_from_text text = v.
Proof.
  intros Hne Hc Hl Hn. unfold _extract_json_from_text.
  apply is_empty_false in Hne. rewrite Hne, Hc.
  unfold _safe_json_loads. rewrite Hl.
  destruct v; try reflexivity.
  rewrite (Hn eq_refl). reflexivity.
Qed.

Lemma tag_char_not_space c : is_tag_char c = true -> isspace c = false.
Proof.
  unfold is_tag_char. intros H.
  repeat (apply orb_true_iff in H; destruct H as [H|H]);
    n2p; unfold isspace; ncases.
Qed.

(** The head of the text left by stripping is the first character that
    does not satisfy the test. *)
Lemma lstrip_with_stop p (s : pystr) h r :
  s = h :: r -> p h = false -> lstrip_with p s = s.
Proof. intros -> H. simpl. rewrite H. reflexivity. Qed.

Lemma good_end_lstrip y u :
  good_end y ->
  exists y', lstrip_with isspace (y ++ u) = y' ++ u /\ good_end y'.
Proof.
  intros Hy. induction y as [|a y IH].
  - apply good_end_nonempty in Hy. contradiction.
  - cbn [app lstrip_with]. destruct (isspace a) eqn:Ea.
    + destruct y as [|b y'].
      * destruct Hy as (x & [c' Ec] & Hx & _).
        destruct c' as [|? [|? ?]]; try discriminate.
        injection Ec as ->. congruence.
      * apply IH. destruct Hy as (x & [c' Ec] & Hx).
        exists x. split; [|exact Hx].
        destruct c' as [|a' c'']; [discriminate|].
        injection Ec as _ ->. exists c''; reflexivity.
    + exists (a :: y). split; [reflexivity|exact Hy].
Qed.

Lemma fence_close_match_inside y ws :
  good_end y -> fence_close_match (y ++ ws ++ FENCE) = None.
Proof.
  intros Hy. unfold fence_close_match.
  destruct (good_end_lstrip y (ws ++ FENCE) Hy) as (y' & -> & Hy').
  destruct (after_prefix FENCE (y' ++ ws ++ FENCE)) as [r|] eqn:E;
    [|reflexivity].
  apply after_prefix_spec in E.
  destruct Hy' as (x & [c' ->] & _ & Hx).
  assert (Hlen : (length r = length c' + 1 + length ws)%nat).
  { apply (f_equal (@length N)) in E. rewrite !length_app in E.
    cbn [length FENCE lit list_ascii_of_string map] in E. lia. }
  destruct r as [|c [|c2 r']]; cbn [length] in Hlen; [lia| |reflexivity].
  destruct c' as [|? ?]; [|cbn [length] in Hlen; lia].
  destruct ws as [|? ?]; [|cbn [length] in Hlen; lia].
  cbn in E. injection E as E _. contradiction Hx.
Qed.

Lemma sub_fence_close_core core ws :
  good_end core -> forallb isspace ws = true ->
  sub_fence_close (core ++ ws ++ FENCE) = core.
Proof.
  intros Hc Hw. induction core as [|a core IH].
  - apply good_end_nonempty in Hc. contradiction.
  - change ((a :: core) ++ ws ++ FENCE) with (a :: (core ++ ws ++ FENCE)).
    cbn [sub_fence_close].
    change (a :: (core ++ ws ++ FENCE)) with ((a :: core) ++ ws ++ FENCE).
    rewrite (fence_close_match_inside _ _ Hc). f_equal.
    destruct core as [|b core'].
    + cbn [app].
      assert (Hm : fence_close_match (ws ++ FENCE) = Some []).
      { unfold fence_close_match. rewrite lstrip_with_app by exact Hw.
        reflexivity. }
      destruct ws as [|w ws'].
      * reflexivity.
      * cbn [app sub_fence_close].
        change (w :: ws' ++ FENCE) with ((w :: ws') ++ FENCE).
        rewrite Hm. reflexivity.
    + apply IH. destruct Hc as (x & [c' Ec] & Hx).
      exists x. split; [|exact Hx].
      destruct c' as [|a' c'']; [discriminate|].
      injection Ec as _ ->. exists c''; reflexivity.
Qed.

(** C3, as stated, fails for some fences: between backticks without a line
    break the constant [true] is taken for the language tag, and after the
    tag [c++] the text left over is not JSON; in both cases the extractor
    returns absence although the JSON text parses. *)
Lemma extract_json_fence_fails :
  loads (lit "true") = Some (PBool true)
  /\ _extract_json_from_text inline_fenced_true = PNone
  /\ _extract_json_from_text tagged_fenced_true = PNone.
Proof. vm_compute. repeat split. Qed.

(** C3, amended. For every text that parses as JSON, the extractor returns
    the value of the direct parse when the text stands between arbitrary
    white space, and also when it is wrapped, between arbitrary white
    space, in a fence: three backticks, a language tag of letters, digits,
    [_] and [-] that may be empty, white space that may be empty provided
    that what follows the tag does not start with a tag character (so a
    line break will do), the JSON text, white space and three backticks. *)
Theorem extract_json_round_trip (J lead trail tag sep sep' : pystr) (v : pyval) :
  loads J = Some v ->
  forallb isspace lead = true -> forallb isspace trail = true ->
  forallb is_tag_char tag = true ->
  forallb isspace sep = true -> forallb isspace sep' = true ->
  (forall c r, sep ++ J = c :: r -> is_tag_char c = false) ->
  _extract_json_from_text (lead ++ J ++ trail) = _safe_json_loads J
  /\ _extract_json_from_text
       (lead ++ FENCE ++ tag ++ sep ++ J ++ sep' ++ FENCE ++ trail)
     = _safe_json_loads J.
Proof.
  intros HJ Hlead Htrail Htag Hsep Hsep' Hnext.
  destruct (loads_core _ _ HJ)
    as (w1 & core & w2 & EJ & Hw1 & Hw2 & (h & c1 & Ecore & Hh & Hh96)
        & Hend & Hnull & Hcore).
  pose proof (is_ws_forall_isspace _ Hw1) as Hs1.
  pose proof (is_ws_forall_isspace _ Hw2) as Hs2.
  destruct Hend as (x & Hx & Hxs & Hx96).
  assert (Hstrip_core : strip core = core).
  { pose proof (strip_with_core isspace [] core [] h c1 x eq_refl eq_refl
                  Ecore Hh Hx Hxs) as E.
    cbn [app] in E. rewrite app_nil_r in E. exact E. }
  assert (Hsafe : _safe_json_loads J = v).
  { unfold _safe_json_loads. rewrite HJ. reflexivity. }
  rewrite Hsafe. split.
  - (* between white space *)
    apply (extract_direct _ core); [| |exact Hcore|exact Hnull].
    + rewrite EJ, Ecore. destruct lead, w1; discriminate.
    + assert (E : strip (lead ++ J ++ trail) = core).
      { rewrite EJ.
        replace (lead ++ (w1 ++ core ++ w2) ++ trail)
          with ((lead ++ w1) ++ core ++ (w2 ++ trail))
          by (rewrite <- !app_assoc; reflexivity).
        apply (strip_with_core isspace _ _ _ h c1 x); try assumption;
          rewrite forallb_app; apply andb_true_iff; split; assumption. }
      unfold strip_fences. rewrite E.
      assert (Hsw : startswith core FENCE = false)
        by exact (startswith_head core h c1 96 (lit "``") Ecore Hh96).
      rewrite Hsw. reflexivity.
  - (* inside a fence *)
    set (F := FENCE ++ tag ++ sep ++ J ++ sep' ++ FENCE).
    apply (extract_direct _ core); [| |exact Hcore|exact Hnull].
    + destruct lead; discriminate.
    + assert (E : strip (lead ++ F ++ trail) = F).
      { apply (strip_with_core isspace _ _ _ 96
                 (lit "``" ++ tag ++ sep ++ J ++ sep' ++ FENCE) 96);
          try assumption; try reflexivity.
        exists (FENCE ++ tag ++ sep ++ J ++ sep' ++ lit "``").
        unfold F. rewrite <- !app_assoc. reflexivity. }
      unfold strip_fences.
      replace (lead ++ FENCE ++ tag ++ sep ++ J ++ sep' ++ FENCE ++ trail)
        with (lead ++ F ++ trail)
        by (unfold F; rewrite <- !app_assoc; reflexivity).
      rewrite E. unfold F at 1. rewrite startswith_app.
      assert (Eopen : sub_fence_open F = core ++ (w2 ++ sep') ++ FENCE).
      { unfold sub_fence_open, F. rewrite after_prefix_app.
        rewrite lstrip_with_app by exact Htag.
        assert (Estop : lstrip_with is_tag_char (sep ++ J ++ sep' ++ FENCE)
                        = sep ++ J ++ sep' ++ FENCE).
        { destruct (sep ++ J) as [|c r] eqn:Esj.
          - rewrite EJ, Ecore in Esj. destruct sep, w1; discriminate.
          - rewrite app_assoc, Esj. cbn [app].
            eapply lstrip_with_stop; [reflexivity|]. eapply Hnext; reflexivity. }
        rewrite Estop, EJ.
        replace (sep ++ (w1 ++ core ++ w2) ++ sep' ++ FENCE)
          with ((sep ++ w1) ++ core ++ (w2 ++ sep') ++ FENCE)
          by (rewrite <- !app_assoc; reflexivity).
        rewrite lstrip_with_app
          by (rewrite forallb_app; apply andb_true_iff; split; assumption).
        apply (lstrip_with_stop isspace _ h (c1 ++ (w2 ++ sep') ++ FENCE));
          [rewrite Ecore; reflexivity|exact Hh]. }
      rewrite Eopen, sub_fence_close_core.
      * exact Hstrip_core.
      * exists x; auto.
      * rewrite forallb_app; apply andb_true_iff; split; assumption.
Qed.

Lemma extract_json_round_trip_witness :
  _extract_json_from_text fenced_object
  = PDict [(lit "a", PList [PInt 1; PInt 2])].
Proof.
  refine (eq_trans
            (proj2 (extract_json_round_trip (litq "{'a': [1, 2]}")
                      (lit "  ") (lit " ") (lit "json") [10] [10]
                      (PDict [(lit "a", PList [PInt 1; PInt 2])])
                      _ _ _ _ _ _ _)) _).
  - vm_compute; reflexivity.
  - reflexivity.
  - reflexivity.
  - reflexivity.
  - reflexivity.
  - reflexivity.
  - intros c r H. injection H as <- _. reflexivity.
  - vm_compute; reflexivity.
Defined.

(** * Further properties of the code *)

(** ** Text repair *)

Lemma N64_neq_0 : 64 <> 0.
Proof. discriminate. Qed.

(** The bytes of one scalar value decode to it. *)
Lemma decode_utf8_encode_char c rest :
  is_scalar c = true ->
  decode_utf8 (encode_utf8_char c ++ rest) = option_map (cons c) (decode_utf8 rest).
Proof.
  unfold is_scalar, encode_utf8_char. intros Hs.
  assert (Hsur : c < 55296 \/ (57343 < c /\ c < 1114112)).
  { apply orb_true_iff in Hs as [Hs|Hs]; [left; apply N.ltb_lt, Hs|].
    apply andb_true_iff in Hs as [Hs1 Hs2]. apply N.ltb_lt in Hs1, Hs2. auto. }
  clear Hs.
  assert (E4096 : c / 4096 = c / 64 / 64)
    by (rewrite N.Div0.div_div; reflexivity).
  assert (E262144 : c / 262144 = c / 64 / 64 / 64)
    by (rewrite !N.Div0.div_div; reflexivity).
  rewrite E4096, E262144. clear E4096 E262144.
  pose proof (N.div_mod c 64 N64_neq_0) as Hd.
  pose proof (N.mod_lt c 64 N64_neq_0) as Hm.
  pose proof (N.div_mod (c / 64) 64 N64_neq_0) as Hd2.
  pose proof (N.mod_lt (c / 64) 64 N64_neq_0) as Hm2.
  pose proof (N.div_mod (c / 64 / 64) 64 N64_neq_0) as Hd3.
  pose proof (N.mod_lt (c / 64 / 64) 64 N64_neq_0) as Hm3.
  remember (c mod 64) as m eqn:Em. clear Em.
  remember ((c / 64) mod 64) as m2 eqn:Em2. clear Em2.
  remember ((c / 64 / 64) mod 64) as m3 eqn:Em3. clear Em3.
  remember (c / 64 / 64 / 64) as q3 eqn:Eq3. clear Eq3.
  remember (c / 64 / 64) as q2 eqn:Eq2. clear Eq2.
  remember (c / 64) as q1 eqn:Eq1. clear Eq1.
  destruct (N.ltb_spec c 128) as [H1|H1].
  { cbn [app decode_utf8]. destruct (N.ltb_spec c 128); [reflexivity|lia]. }
  destruct (N.ltb_spec c 2048) as [H2|H2].
  { cbn [app decode_utf8]. unfold is_cont, cont_bits.
    destruct (N.ltb_spec (192 + q1) 128); [lia|].
    destruct (N.leb_spec 194 (192 + q1)); [|lia].
    destruct (N.leb_spec (192 + q1) 223); [|lia].
    destruct (N.leb_spec 128 (128 + m)); [|lia].
    destruct (N.leb_spec (128 + m) 191); [|lia].
    cbn [andb].
    replace ((192 + q1 - 192) * 64 + (128 + m - 128)) with c by lia.
    reflexivity. }
  destruct (N.ltb_spec c 65536) as [H3|H3].
  { cbn [app decode_utf8]. unfold is_cont, cont_bits.
    destruct (N.ltb_spec (224 + q2) 128); [lia|].
    destruct (N.leb_spec 194 (224 + q2)); [|lia].
    destruct (N.leb_spec (224 + q2) 223); [lia|].
    destruct (N.leb_spec 224 (224 + q2)); [|lia].
    destruct (N.leb_spec (224 + q2) 239); [|lia].
    destruct (N.leb_spec 128 (128 + m2)); [|lia].
    destruct (N.leb_spec (128 + m2) 191); [|lia].
    destruct (N.leb_spec 128 (128 + m)); [|lia].
    destruct (N.leb_spec (128 + m) 191); [|lia].
    cbn [andb].
    destruct (N.eqb_spec (224 + q2) 224) as [E0|E0];
      [destruct (N.leb_spec 160 (128 + m2)); [|lia]|];
      (destruct (N.eqb_spec (224 + q2) 237) as [E1|E1];
       [destruct (N.leb_spec (128 + m2) 159); [|lia]|]);
      cbn [andb];
      replace ((224 + q2 - 224) * 4096 + (128 + m2 - 128) * 64 + (128 + m - 128))
        with c by lia; reflexivity. }
  cbn [app decode_utf8]. unfold is_cont, cont_bits.
  destruct (N.ltb_spec (240 + q3) 128); [lia|].
  destruct (N.leb_spec 194 (240 + q3)); [|lia].
  destruct (N.leb_spec (240 + q3) 223); [lia|].
  destruct (N.leb_spec 224 (240 + q3)); [|lia].
  destruct (N.leb_spec (240 + q3) 239); [lia|].
  destruct (N.leb_spec 240 (240 + q3)); [|lia].
  destruct (N.leb_spec (240 + q3) 244); [|lia].
  destruct (N.leb_spec 128 (128 + m3)); [|lia].
  destruct (N.leb_spec (128 + m3) 191); [|lia].
  destruct (N.leb_spec 128 (128 + m2)); [|lia].
  destruct (N.leb_spec (128 + m2) 191); [|lia].
  destruct (N.leb_spec 128 (128 + m)); [|lia].
  destruct (N.leb_spec (128 + m) 191); [|lia].
  cbn [andb].
  destruct (N.eqb_spec (240 + q3) 240) as [E0|E0];
    [destruct (N.leb_spec 144 (128 + m3)); [|lia]|];
    (destruct (N.eqb_spec (240 + q3) 244) as [E1|E1];
     [destruct (N.leb_spec (128 + m3) 143); [|lia]|]);
    cbn [andb];
    replace ((240 + q3 - 240) * 262144 + (128 + m3 - 128) * 4096
             + (128 + m2 - 128) * 64 + (128 + m - 128))
      with c by lia; reflexivity.
Qed.

Lemma encode_utf8_char_bytes c :
  is_scalar c = true -> forallb (fun b => b <? 256) (encode_utf8_char c) = true.
Proof.
  unfold is_scalar, encode_utf8_char. intros Hs.
  assert (Hc : c < 1114112).
  { apply orb_true_iff in Hs as [Hs|Hs]; [apply N.ltb_lt in Hs; lia|].
    apply andb_true_iff in Hs as [_ Hs]. apply N.ltb_lt, Hs. }
  assert (E4096 : c / 4096 = c / 64 / 64)
    by (rewrite N.Div0.div_div; reflexivity).
  assert (E262144 : c / 262144 = c / 64 / 64 / 64)
    by (rewrite !N.Div0.div_div; reflexivity).
  rewrite E4096, E262144. clear E4096 E262144.
  pose proof (N.div_mod c 64 N64_neq_0) as Hd.
  pose proof (N.mod_lt c 64 N64_neq_0) as Hm.
  pose proof (N.div_mod (c / 64) 64 N64_neq_0) as Hd2.
  pose proof (N.mod_lt (c / 64) 64 N64_neq_0) as Hm2.
  pose proof (N.div_mod (c / 64 / 64) 64 N64_neq_0) as Hd3.
  pose proof (N.mod_lt (c / 64 / 64) 64 N64_neq_0) as Hm3.
  remember (c mod 64) as m eqn:Em. clear Em.
  remember ((c / 64) mod 64) as m2 eqn:Em2. clear Em2.
  remember ((c / 64 / 64) mod 64) as m3 eqn:Em3. clear Em3.
  remember (c / 64 / 64 / 64) as q3 eqn:Eq3. clear Eq3.
  remember (c / 64 / 64) as q2 eqn:Eq2. clear Eq2.
  remember (c / 64) as q1 eqn:Eq1. clear Eq1.
  destruct (N.ltb_spec c 128); [|destruct (N.ltb_spec c 2048);
                                  [|destruct (N.ltb_spec c 65536)]];
    cbn [forallb];
    repeat (apply andb_true_iff; split); try reflexivity;
    apply N.ltb_lt; lia.
Qed.

Lemma encode_latin1_bytes bs :
  forallb (fun b => b <? 256) bs = true -> encode_latin1 bs = Some bs.
Proof.
  induction bs as [|b bs IH]; simpl; [reflexivity|].
  intros H; apply andb_true_iff in H as [Hb Hbs].
  rewrite Hb, IH by exact Hbs. reflexivity.
Qed.

Lemma encode_utf8_bytes t :
  forallb is_scalar t = true ->
  forallb (fun b => b <? 256) (encode_utf8 t) = true.
Proof.
  induction t as [|c t IH]; simpl; [reflexivity|].
  intros H; apply andb_true_iff in H as [Hc Ht].
  rewrite forallb_app, (encode_utf8_char_bytes _ Hc), IH by exact Ht.
  reflexivity.
Qed.

Lemma decode_utf8_encode t :
  forallb is_scalar t = true -> decode_utf8 (encode_utf8 t) = Some t.
Proof.
  induction t as [|c t IH]; simpl; [reflexivity|].
  intros H; apply andb_true_iff in H as [Hc Ht].
  rewrite (decode_utf8_encode_char _ _ Hc), IH by exact Ht. reflexivity.
Qed.

(** X1. Repair undoes the wrong decoding: for every text of Unicode scalar
    values, the text that shows its UTF-8 bytes as Latin-1 characters is
    repaired to the text itself. *)
Theorem fix_mojibake_round_trip (t : pystr) :
  forallb is_scalar t = true -> _fix_mojibake (encode_utf8 t) = t.
Proof.
  intros Ht. unfold _fix_mojibake.
  rewrite (encode_latin1_bytes _ (encode_utf8_bytes _ Ht)).
  rewrite (decode_utf8_encode _ Ht).
  destruct (encode_utf8 t) eqn:E; [|reflexivity].
  destruct t as [|c t']; [reflexivity|].
  simpl in E. apply app_eq_nil in E as [E _].
  unfold encode_utf8_char in E.
  destruct (c <? 128); [discriminate|].
  destruct (c <? 2048); [discriminate|].
  destruct (c <? 65536); discriminate.
Qed.

Lemma fix_mojibake_round_trip_witness :
  encode_utf8 (lit "Here" ++ [RSQUO] ++ lit "s") = heres_mojibake
  /\ _fix_mojibake heres_mojibake = lit "Here" ++ [RSQUO] ++ lit "s".
Proof.
  split; [reflexivity|].
  exact (fix_mojibake_round_trip (lit "Here" ++ [RSQUO] ++ lit "s") eq_refl).
Defined.

Lemma encode_latin1_same s bs : encode_latin1 s = Some bs -> bs = s.
Proof.
  revert bs; induction s as [|c s IH]; simpl; intros bs.
  - intros H; injection H as <-; reflexivity.
  - destruct (c <? 256); [|discriminate].
    destruct (encode_latin1 s) as [bs'|]; [|discriminate].
    intros H; injection H as <-. rewrite (IH _ eq_refl). reflexivity.
Qed.

Lemma option_map_cons_length (x : N) (o : option pystr) t n :
  option_map (cons x) o = Some t ->
  (forall t', o = Some t' -> (length t' <= n)%nat) ->
  (length t <= S n)%nat.
Proof.
  destruct o as [t'|]; [|discriminate].
  intros H Hl; injection H as <-. specialize (Hl _ eq_refl). simpl; lia.
Qed.

Lemma decode_utf8_length bs t :
  decode_utf8 bs = Some t -> (length t <= length bs)%nat.
Proof.
  remember (length bs) as n eqn:Hn.
  assert (Hlen : (length bs <= n)%nat) by lia. clear Hn.
  revert bs t Hlen. induction n as [|n IH]; intros bs t Hlen.
  { destruct bs; [|simpl in Hlen; lia].
    intros H; injection H as <-; simpl; lia. }
  destruct bs as [|b0 r0].
  { intros H; injection H as <-; simpl; lia. }
  cbn [decode_utf8]. simpl in Hlen.
  destruct (b0 <? 128).
  { intros H. eapply option_map_cons_length; [exact H|].
    intros t' Ht'. apply (IH r0); [lia|exact Ht']. }
  destruct ((194 <=? b0) && (b0 <=? 223)).
  { destruct r0 as [|b1 r1]; [discriminate|].
    destruct (is_cont b1); [|discriminate].
    intros H. eapply option_map_cons_length; [exact H|].
    intros t' Ht'. simpl in Hlen.
    pose proof (IH r1 t' ltac:(lia) Ht'). lia. }
  destruct ((224 <=? b0) && (b0 <=? 239)).
  { destruct r0 as [|b1 [|b2 r2]]; try discriminate.
    destruct (_ && _ && _ && _); [|discriminate].
    intros H. eapply option_map_cons_length; [exact H|].
    intros t' Ht'. simpl in Hlen.
    pose proof (IH r2 t' ltac:(lia) Ht'). lia. }
  destruct ((240 <=? b0) && (b0 <=? 244)); [|discriminate].
  destruct r0 as [|b1 [|b2 [|b3 r3]]]; try discriminate.
  destruct (_ && _ && _ && _ && _); [|discriminate].
  intros H. eapply option_map_cons_length; [exact H|].
  intros t' Ht'. simpl in Hlen.
  pose proof (IH r3 t' ltac:(lia) Ht'). lia.
Qed.

Lemma fix_mojibake_length t : (length (_fix_mojibake t) <= length t)%nat.
Proof.
  unfold _fix_mojibake. destruct (is_empty t); [simpl; lia|].
  destruct (encode_latin1 t) as [bs|] eqn:Ee; [|lia].
  apply encode_latin1_same in Ee; subst bs.
  destruct (decode_utf8 t) as [t'|] eqn:Ed; [|lia].
  apply decode_utf8_length, Ed.
Qed.

(** X2. Repair never makes a text longer, and it returns unchanged every
    text that is pure ASCII and every text with a character above U+00FF,
    which Latin-1 cannot encode. *)
Theorem fix_mojibake_conservative (t : pystr) :
  (length (_fix_mojibake t) <= length t)%nat
  /\ (is_ascii t = true -> _fix_mojibake t = t)
  /\ (beyond_latin1 t = true -> _fix_mojibake t = t).
Proof.
  split; [apply fix_mojibake_length|].
  split; intros H; apply fix_mojibake_stable.
  - left; exact H.
  - right; apply beyond_latin1_redecodes, H.
Qed.

Lemma fix_mojibake_conservative_witness :
  _fix_mojibake (lit "plain text") = lit "plain text"
  /\ _fix_mojibake (lit "caf" ++ [233; 8364]) = lit "caf" ++ [233; 8364].
Proof.
  split.
  - exact (proj1 (proj2 (fix_mojibake_conservative (lit "plain text"))) eq_refl).
  - exact (proj2 (proj2 (fix_mojibake_conservative (lit "caf" ++ [233; 8364])))
             eq_refl).
Defined.

Lemma map_straighten_not_curly text :
  existsb is_curly (map straighten_char text) = false.
Proof.
  induction text as [|c s IH]; [reflexivity|].
  simpl. rewrite straighten_char_not_curly, IH. reflexivity.
Qed.

Lemma replace_smart_quotes_length text :
  length (_replace_smart_quotes text) = length text.
Proof. rewrite replace_smart_quotes_map; apply length_map. Qed.

(** X3. Quote straightening keeps the length of the text, leaves none of
    the four curly marks in its result, and changes nothing when it is
    applied again. *)
Theorem replace_smart_quotes_clean (text : pystr) :
  length (_replace_smart_quotes text) = length text
  /\ existsb is_curly (_replace_smart_quotes text) = false
  /\ _replace_smart_quotes (_replace_smart_quotes text)
     = _replace_smart_quotes text.
Proof.
  split; [apply replace_smart_quotes_length|].
  split; [rewrite replace_smart_quotes_map; apply map_straighten_not_curly|].
  apply replace_smart_quotes_idem.
Qed.

Lemma lstrip_with_fixed p (s : pystr) :
  match s with [] => True | c :: _ => p c = false end ->
  lstrip_with p s = s.
Proof. destruct s as [|c r]; [reflexivity|]. simpl. intros ->; reflexivity. Qed.

Lemma lstrip_with_head_ok p s :
  match lstrip_with p s with [] => True | c :: _ => p c = false end.
Proof.
  destruct (lstrip_with p s) as [|c r] eqn:E; [exact I|].
  eapply lstrip_with_head, E.
Qed.

Lemma rstrip_with_head_ok p s :
  match s with [] => True | c :: _ => p c = false end ->
  match rstrip_with p s with [] => True | c :: _ => p c = false end.
Proof.
  destruct s as [|c r]; [intros _; exact I|]. intros Hc. simpl.
  destruct (rstrip_with p r); [rewrite Hc|]; exact Hc.
Qed.

(** Trimming a trimmed text changes nothing. *)
Lemma strip_with_idem p s : strip_with p (strip_with p s) = strip_with p s.
Proof.
  unfold strip_with.
  rewrite (lstrip_with_fixed p (rstrip_with p (lstrip_with p s))).
  - apply rstrip_with_idem.
  - apply rstrip_with_head_ok, lstrip_with_head_ok.
Qed.

Lemma strip_idem s : strip (strip s) = strip s.
Proof. apply strip_with_idem. Qed.

(** X4. White space around the mode name is ignored: normalising with a
    mode gives the same text as normalising with the trimmed mode. *)
Theorem postprocess_mode_trimmed (text mode : pystr) :
  _postprocess_text text mode = _postprocess_text text (strip mode).
Proof.
  unfold _postprocess_text.
  destruct mode as [|c r]; [reflexivity|].
  cbn [is_empty].
  destruct (strip (c :: r)) as [|c' r'] eqn:E.
  - reflexivity.
  - cbn [is_empty]. rewrite <- E, strip_idem. reflexivity.
Qed.

(** X5. The mode falls back to the repair: when the trimmed mode is none
    of [none], [ascii_quotes] and [fix_mojibake+ascii_quotes], be it
    empty, [fix_mojibake] or unknown, normalising is the mojibake repair
    alone. *)
Theorem postprocess_default_mode (text mode : pystr) :
  strip mode <> MODE_NONE ->
  strip mode <> MODE_ASCII ->
  strip mode <> MODE_FIX_ASCII ->
  _postprocess_text text mode = _fix_mojibake text.
Proof.
  intros H1 H2 H3. unfold _postprocess_text.
  destruct mode as [|c r].
  - reflexivity.
  - cbn [is_empty].
    apply str_eqb_neq in H1, H2, H3. rewrite H1, H2, H3.
    destruct (str_eqb (strip (c :: r)) MODE_FIX); reflexivity.
Qed.

Lemma postprocess_default_mode_witness :
  _postprocess_text heres_mojibake (lit " utf8 ")
  = lit "Here" ++ [RSQUO] ++ lit "s".
Proof.
  refine (eq_trans
            (postprocess_default_mode heres_mojibake (lit " utf8 ") _ _ _) _).
  - vm_compute; discriminate.
  - vm_compute; discriminate.
  - vm_compute; discriminate.
  - reflexivity.
Defined.

Lemma ascii_not_curly t : is_ascii t = true -> existsb is_curly t = false.
Proof.
  induction t as [|c t IH]; simpl; [reflexivity|].
  intros H; apply andb_true_iff in H as [Hc Ht].
  rewrite IH by exact Ht. rewrite orb_false_r.
  unfold is_curly, LSQUO, RSQUO, LDQUO, RDQUO. nsolve.
Qed.

Lemma replace_smart_quotes_ascii t :
  is_ascii t = true -> _replace_smart_quotes t = t.
Proof.
  intros H. apply ascii_not_curly in H.
  rewrite replace_smart_quotes_map.
  induction t as [|c t IH]; [reflexivity|].
  simpl in H. apply orb_false_iff in H as [Hc Ht].
  simpl. rewrite straighten_char_other, IH by assumption. reflexivity.
Qed.

Lemma postprocess_cases text mode :
  _postprocess_text text mode = text
  \/ _postprocess_text text mode = _fix_mojibake text
  \/ _postprocess_text text mode = _replace_smart_quotes text
  \/ _postprocess_text text mode = _replace_smart_quotes (_fix_mojibake text).
Proof.
  unfold _postprocess_text.
  destruct (str_eqb _ MODE_NONE); [auto|].
  destruct (str_eqb _ MODE_FIX); [auto|].
  destruct (str_eqb _ MODE_ASCII); [auto|].
  destruct (str_eqb _ MODE_FIX_ASCII); auto.
Qed.

(** X6. Whatever the mode, normalising never makes a text longer and
    returns a pure ASCII text unchanged. *)
Theorem postprocess_conservative (text mode : pystr) :
  (length (_postprocess_text text mode) <= length text)%nat
  /\ (is_ascii text = true -> _postprocess_text text mode = text).
Proof.
  pose proof (fix_mojibake_length text) as Hl.
  pose proof (replace_smart_quotes_length text) as Hq.
  pose proof (replace_smart_quotes_length (_fix_mojibake text)) as Hq2.
  split.
  - destruct (postprocess_cases text mode) as [E|[E|[E|E]]]; rewrite E; lia.
  - intros Ha.
    assert (Hf : _fix_mojibake text = text)
      by (apply fix_mojibake_stable; left; exact Ha).
    destruct (postprocess_cases text mode) as [E|[E|[E|E]]]; rewrite E;
      rewrite ?Hf; try reflexivity; apply replace_smart_quotes_ascii, Ha.
Qed.

Lemma postprocess_conservative_witness :
  _postprocess_text (lit "plain text") (lit "fix_mojibake+ascii_quotes")
  = lit "plain text".
Proof.
  exact (proj2 (postprocess_conservative (lit "plain text")
                  (lit "fix_mojibake+ascii_quotes")) eq_refl).
Defined.

(** ** De-scaffolding and splitting *)

Lemma lstrip_with_all p l : forallb p l = true -> lstrip_with p l = [].
Proof.
  induction l as [|c l IH]; simpl; [reflexivity|].
  intros H; apply andb_true_iff in H as [Hc Hl]. rewrite Hc. auto.
Qed.

Lemma clean_text_stripped text : strip (clean_text text) = clean_text text.
Proof.
  unfold clean_text. destruct (is_empty text); [reflexivity|].
  apply strip_idem.
Qed.

Lemma clean_answer_stripped repr v :
  strip (_clean_answer repr v) = _clean_answer repr v.
Proof.
  unfold _clean_answer. destruct (negb (truthy v)); [reflexivity|].
  apply clean_text_stripped.
Qed.

(** X7. De-scaffolding returns a trimmed text that is a contiguous part of
    the text it was given, so it never adds or reorders characters; a text
    of white space only becomes the empty text. *)
Theorem clean_answer_part (repr : pyval -> pystr) (v : pyval) :
  strip (_clean_answer repr v) = _clean_answer repr v
  /\ (exists pre suf, py_str repr v = pre ++ _clean_answer repr v ++ suf)
  /\ (forallb isspace (py_str repr v) = true -> _clean_answer repr v = []).
Proof.
  split; [apply clean_answer_stripped|].
  unfold _clean_answer. destruct (negb (truthy v)).
  { split; [|reflexivity].
    exists (py_str repr v), []. rewrite app_nil_r; reflexivity. }
  split.
  - destruct (inner_of_clean_text (py_str repr v)) as (pre & suf & E & _).
    exists pre, suf; exact E.
  - intros Hw. unfold clean_text.
    destruct (is_empty (py_str repr v)); [reflexivity|].
    assert (E : strip (py_str repr v) = []).
    { unfold strip, strip_with. rewrite lstrip_with_all by exact Hw.
      reflexivity. }
    rewrite E. reflexivity.
Qed.

Lemma clean_answer_part_witness :
  _clean_answer no_text (PStr (lit " " ++ [9; 10])) = [].
Proof.
  exact (proj2 (proj2 (clean_answer_part no_text (PStr (lit " " ++ [9; 10]))))
           eq_refl).
Defined.

Lemma ci_prefix_exact p o x :
  ci_prefix p o = Some [] ->
  ci_prefix p (o ++ x) = Some x /\ length o = length p.
Proof.
  revert o; induction p as [|a p IH]; intros [|b o]; simpl;
    try discriminate.
  - intros _; split; [destruct x|]; reflexivity.
  - destruct (ci_eq a b); [|discriminate].
    intros H. destruct (IH _ H) as [E L]. rewrite E, L. auto.
Qed.

(** Neither tag matches at a character that is not [<]. *)
Lemma ci_prefix_open_no_lt h s :
  no_lt h = true -> ci_prefix TAG_OPEN (h :: s) = None.
Proof.
  intros H. cbn [TAG_OPEN lit list_ascii_of_string map ci_prefix].
  change (N_of_ascii "<") with 60. rewrite ci_eq_bracket by auto.
  unfold no_lt in H. apply negb_true_iff in H. rewrite H. reflexivity.
Qed.

Lemma ci_prefix_close_no_lt h s :
  no_lt h = true -> ci_prefix TAG_CLOSE (h :: s) = None.
Proof.
  intros H. cbn [TAG_CLOSE lit list_ascii_of_string map ci_prefix].
  change (N_of_ascii "<") with 60. rewrite ci_eq_bracket by auto.
  unfold no_lt in H. apply negb_true_iff in H. rewrite H. reflexivity.
Qed.

(** A text without [<] holds no marked block, and the search goes past
    such a text. *)
Lemma think_search_no_lt_none s :
  forallb no_lt s = true -> think_search s = None.
Proof.
  induction s as [|c s IH]; intros H; [reflexivity|].
  simpl in H; apply andb_true_iff in H as [Hc H].
  cbn [think_search]. unfold think_match at 1.
  rewrite (ci_prefix_open_no_lt _ _ Hc), (IH H). reflexivity.
Qed.

Lemma think_search_skip_no_lt pre s :
  forallb no_lt pre = true ->
  think_search (pre ++ s) = option_map (add_around pre []) (think_search s).
Proof.
  intros Hp; induction pre as [|c pre IH].
  - simpl app. destruct (think_search s) as [[[b g] a]|]; [|reflexivity].
    unfold add_around; simpl. rewrite app_nil_r; reflexivity.
  - simpl in Hp; apply andb_true_iff in Hp as [Hc Hp].
    change ((c :: pre) ++ s) with (c :: (pre ++ s)).
    cbn [think_search]. unfold think_match at 1.
    rewrite (ci_prefix_open_no_lt _ _ Hc), (IH Hp).
    destruct (think_search s) as [[[b g] a]|]; reflexivity.
Qed.

Lemma find_close_block inner c rest :
  forallb no_lt inner = true -> ci_prefix TAG_CLOSE c = Some [] ->
  find_close (inner ++ c ++ rest) = Some (inner, rest).
Proof.
  intros Hi Hc. destruct (ci_prefix_exact _ _ rest Hc) as [E L].
  induction inner as [|h inner IH].
  - cbn [app]. destruct (c ++ rest) as [|x y] eqn:Ecr.
    + destruct c; [discriminate L|discriminate Ecr].
    + cbn [find_close]. rewrite E. reflexivity.
  - simpl in Hi. apply andb_true_iff in Hi as [Hh Hi].
    cbn [app find_close]. rewrite (ci_prefix_close_no_lt _ _ Hh).
    rewrite (IH Hi). reflexivity.
Qed.

Lemma think_match_block o inner c rest :
  ci_prefix TAG_OPEN o = Some [] -> forallb no_lt inner = true ->
  ci_prefix TAG_CLOSE c = Some [] ->
  think_match (o ++ inner ++ c ++ rest) = Some (inner, rest).
Proof.
  intros Ho Hi Hc. unfold think_match.
  rewrite (proj1 (ci_prefix_exact _ _ _ Ho)).
  apply find_close_block; assumption.
Qed.

Lemma think_search_match s inner after :
  think_match s = Some (inner, after) -> think_search s = Some ([], inner, after).
Proof.
  intros H. destruct s as [|x s]; [vm_compute in H; discriminate H|].
  cbn [think_search]. rewrite H. reflexivity.
Qed.

Lemma think_sub_from_skip a r :
  think_sub_from (length a) (a ++ r) = think_sub_from 0 r.
Proof. induction a as [|x a IH]; [reflexivity|exact IH]. Qed.

Lemma think_sub_no_lt pre s :
  forallb no_lt pre = true -> think_sub (pre ++ s) = pre ++ think_sub s.
Proof.
  unfold think_sub. intros Hp; induction pre as [|h pre IH]; [reflexivity|].
  simpl in Hp. apply andb_true_iff in Hp as [Hh Hp].
  cbn [app think_sub_from]. unfold think_match at 1.
  rewrite (ci_prefix_open_no_lt _ _ Hh). rewrite (IH Hp). reflexivity.
Qed.

Lemma think_sub_block o inner c rest :
  ci_prefix TAG_OPEN o = Some [] -> forallb no_lt inner = true ->
  ci_prefix TAG_CLOSE c = Some [] ->
  think_sub (o ++ inner ++ c ++ rest) = think_sub rest.
Proof.
  intros Ho Hi Hc.
  pose proof (think_match_block o inner c rest Ho Hi Hc) as Hm.
  destruct (ci_prefix_exact _ _ [] Ho) as [_ Lo].
  destruct (ci_prefix_exact _ _ [] Hc) as [_ Lc].
  destruct o as [|h o']; [discriminate Lo|].
  unfold think_sub. cbn [app] in *. cbn [think_sub_from]. rewrite Hm.
  replace (length TAG_OPEN + length inner + length TAG_CLOSE - 1)%nat
    with (length (o' ++ inner ++ c))
    by (rewrite !length_app; change (length TAG_OPEN) with 7%nat in *;
        change (length TAG_CLOSE) with 8%nat in *; simpl in Lo; lia).
  replace (o' ++ inner ++ c ++ rest) with ((o' ++ inner ++ c) ++ rest)
    by (rewrite <- !app_assoc; reflexivity).
  apply think_sub_from_skip.
Qed.

(** X8. A reply whose first marked block is well formed is split there:
    when the text before the opening tag and the text inside the block
    have no [<], whatever the case of the two tags, the thinking is the
    trimmed inside of the block and the answer is the de-scaffolded rest,
    from which every later block is removed as well. *)
Theorem split_content_block (pre o inner c rest : pystr) :
  forallb no_lt pre = true -> forallb no_lt inner = true ->
  ci_prefix TAG_OPEN o = Some [] -> ci_prefix TAG_CLOSE c = Some [] ->
  _split_thinking_and_answer_from_content (pre ++ o ++ inner ++ c ++ rest)
  = (strip inner, clean_text (strip (pre ++ think_sub rest))).
Proof.
  intros Hp Hi Ho Hc. unfold _split_thinking_and_answer_from_content.
  assert (Hne : is_empty (pre ++ o ++ inner ++ c ++ rest) = false).
  { destruct (ci_prefix_exact _ _ [] Ho) as [_ Lo].
    destruct pre; [|reflexivity]. destruct o; [discriminate Lo|reflexivity]. }
  rewrite Hne, think_search_skip_no_lt by exact Hp.
  rewrite (think_search_match _ _ _ (think_match_block o inner c rest Ho Hi Hc)).
  cbn [option_map add_around fst snd].
  rewrite think_sub_no_lt by exact Hp.
  rewrite think_sub_block by assumption. reflexivity.
Qed.

Lemma split_content_block_witness :
  _split_thinking_and_answer_from_content two_blocks
  = (lit "a > b", lit "1 > 0 yes !").
Proof.
  refine (eq_trans
            (split_content_block (lit "Answer: 1 > 0 ") (lit "<Think>")
               (lit " a > b ") (lit "</THINK>")
               (lit "yes <think>more</think>!") _ _ _ _) _);
    reflexivity.
Defined.

(** X9. Without any reasoning signal, that is with [reasoning] and
    [thoughts] absent or false in a condition, a message with a textual
    content is split by its inline markers alone; if the content has no
    [<] at all, the thinking is empty and the answer is the de-scaffolded
    content. *)
Theorem split_without_reasoning (repr : pyval -> pystr)
  (d : list (pystr * pyval)) (c : pystr) :
  truthy (dict_get d (lit "reasoning")) = false ->
  truthy (dict_get d (lit "thoughts")) = false ->
  dict_get d (lit "content") = PStr c ->
  _split_thinking_and_answer repr (PDict d)
  = _split_thinking_and_answer_from_content c
  /\ (forallb no_lt c = true ->
      _split_thinking_and_answer repr (PDict d) = ([], clean_text c)).
Proof.
  intros Hr Ht Hc.
  assert (E : _split_thinking_and_answer repr (PDict d)
              = _split_thinking_and_answer_from_content c).
  { unfold _split_thinking_and_answer, py_or.
    rewrite Hr, Ht, Hc. cbn [truthy is_empty negb].
    destruct c as [|x c']; reflexivity. }
  split; [exact E|].
  intros Hp. rewrite E. unfold _split_thinking_and_answer_from_content.
  rewrite (think_search_no_lt_none _ Hp).
  destruct c; reflexivity.
Qed.

Lemma split_without_reasoning_witness :
  _split_thinking_and_answer no_text content_only_message
  = ([], lit "x -> y").
Proof.
  refine (eq_trans
            (proj2 (split_without_reasoning no_text
                      [(lit "role", PStr (lit "assistant"));
                       (lit "reasoning", PNone);
                       (lit "content", PStr (lit " Final: x -> y "))]
                      (lit " Final: x -> y ") _ _ _) _) _);
    reflexivity.
Defined.

Lemma split_from_content_stripped c :
  strip (fst (_split_thinking_and_answer_from_content c))
  = fst (_split_thinking_and_answer_from_content c)
  /\ strip (snd (_split_thinking_and_answer_from_content c))
     = snd (_split_thinking_and_answer_from_content c).
Proof.
  unfold _split_thinking_and_answer_from_content.
  destruct (is_empty c); [split; reflexivity|].
  destruct (think_search c) as [[[b g] a]|]; cbn [fst snd].
  - split; [apply strip_idem|apply clean_text_stripped].
  - split; [reflexivity|apply clean_text_stripped].
Qed.

(** X10. Whatever the message is, a mapping or not, with or without the
    expected entries and whatever their types, the splitter returns a
    thinking and an answer that are both trimmed. *)
Theorem split_outputs_trimmed (repr : pyval -> pystr) (message_obj : pyval) :
  strip (fst (_split_thinking_and_answer repr message_obj))
  = fst (_split_thinking_and_answer repr message_obj)
  /\ strip (snd (_split_thinking_and_answer repr message_obj))
     = snd (_split_thinking_and_answer repr message_obj).
Proof.
  unfold _split_thinking_and_answer.
  destruct (match message_obj with
            | PDict d => _
            | _ => _
            end) as [reasoning content].
  set (by_content := match content with
                     | PStr c => _split_thinking_and_answer_from_content c
                     | _ => ([], _clean_answer repr (PStr (py_str repr content)))
                     end).
  assert (Hb : strip (fst by_content) = fst by_content
               /\ strip (snd by_content) = snd by_content).
  { subst by_content.
    destruct content; try apply split_from_content_stripped;
      (split; [reflexivity|apply clean_answer_stripped]). }
  destruct reasoning; try exact Hb.
  destruct (negb (is_empty (strip s))); [|exact Hb].
  cbn [fst snd]. split; [apply strip_idem|apply clean_answer_stripped].
Qed.

(** ** Embedded JSON extractor: replies wrapped in prose *)

(** An object or an array is scanned the same way whatever follows it. *)
Lemma scan_bracket_frame n h r v rest :
  h = LBRACE \/ h = LBRACKET ->
  scan_once n (h :: r) = Some (v, rest) ->
  exists c,
    h :: r = c ++ rest /\ v <> PNone
    /\ forall t m, (2 * length c <= m)%nat -> scan_once m (c ++ t) = Some (v, t).
Proof.
  intros Hh H. destruct n as [|n]; [discriminate H|].
  destruct (frames n) as (_ & HA & HO).
  cbn [scan_once] in H.
  assert (E1 : (h =? 34) = false) by (destruct Hh; subst; reflexivity).
  rewrite E1 in H.
  destruct (skip_ws r) as [|c1 r1] eqn:Ew.
  { destruct Hh; subst; discriminate H. }
  destruct (skip_ws_cons _ _ _ Ew) as (Hc1 & ws & -> & Hws).
  destruct Hh as [-> | ->]; cbn [N.eqb Pos.eqb LBRACE LBRACKET] in H.
  - (* an object *)
    change (123 =? 123) with true in H. cbv iota in H.
    destruct (c1 =? 125) eqn:E3.
    + injection H as <- <-. apply N.eqb_eq in E3; subst c1.
      exists (LBRACE :: ws ++ [125]).
      split; [cbn [app]; rewrite <- app_assoc; reflexivity|].
      split; [discriminate|].
      intros t m Hm. destruct m as [|m]; [simpl in Hm; lia|].
      cbn [app scan_once LBRACE N.eqb Pos.eqb]. rewrite <- app_assoc.
      cbn [app]. rewrite skip_ws_frame by assumption. reflexivity.
    + destruct (HO _ _ _ _ H) as (c' & Ec & Hend & Hv & Hfr).
      destruct (consumed_head _ _ _ _ _ Ec Hend) as (c1' & ->).
      injection Ec as ->.
      exists (LBRACE :: ws ++ c1 :: c1').
      split; [cbn [app]; rewrite <- app_assoc; reflexivity|].
      split; [exact Hv|].
      intros t m Hm. destruct m as [|m]; [simpl in Hm; lia|].
      cbn [app scan_once LBRACE N.eqb Pos.eqb]. rewrite <- app_assoc.
      cbn [app]. rewrite skip_ws_frame by assumption. rewrite E3.
      apply (Hfr t m).
      cbn [length] in Hm. rewrite length_app in Hm. lia.
  - (* an array *)
    change (91 =? 123) with false in H. change (91 =? 91) with true in H.
    cbv iota in H.
    destruct (c1 =? 93) eqn:E3.
    + injection H as <- <-. apply N.eqb_eq in E3; subst c1.
      exists (LBRACKET :: ws ++ [93]).
      split; [cbn [app]; rewrite <- app_assoc; reflexivity|].
      split; [discriminate|].
      intros t m Hm. destruct m as [|m]; [simpl in Hm; lia|].
      cbn [app scan_once LBRACKET N.eqb Pos.eqb]. rewrite <- app_assoc.
      cbn [app]. rewrite skip_ws_frame by assumption. reflexivity.
    + destruct (HA _ _ _ _ H) as (c' & Ec & Hend & Hv & Hfr).
      destruct (consumed_head _ _ _ _ _ Ec Hend) as (c1' & ->).
      injection Ec as ->.
      exists (LBRACKET :: ws ++ c1 :: c1').
      split; [cbn [app]; rewrite <- app_assoc; reflexivity|].
      split; [exact Hv|].
      intros t m Hm. destruct m as [|m]; [simpl in Hm; lia|].
      cbn [app scan_once LBRACKET N.eqb Pos.eqb]. rewrite <- app_assoc.
      cbn [app]. rewrite skip_ws_frame by assumption. rewrite E3.
      apply (Hfr t m).
      cbn [length] in Hm. rewrite length_app in Hm. lia.
Qed.

Lemma rstrip_with_app_all p a b :
  forallb p b = true -> rstrip_with p (a ++ b) = rstrip_with p a.
Proof.
  intros Hb. induction a as [|x a IH]; cbn [app rstrip_with].
  - apply rstrip_with_all, Hb.
  - rewrite IH. reflexivity.
Qed.

Lemma rstrip_with_app_keep p a b :
  rstrip_with p b <> [] -> rstrip_with p (a ++ b) = a ++ rstrip_with p b.
Proof.
  intros Hb. induction a as [|x a IH]; cbn [app rstrip_with]; [reflexivity|].
  rewrite IH. destruct (a ++ rstrip_with p b) eqn:E; [|reflexivity].
  apply app_eq_nil in E as [_ E]. contradiction.
Qed.

Lemma rstrip_with_nil_all p y : rstrip_with p y = [] -> forallb p y = true.
Proof.
  induction y as [|c y IH]; simpl; [reflexivity|].
  destruct (rstrip_with p y); [|discriminate].
  destruct (p c); [|discriminate]. intros _. rewrite IH; reflexivity.
Qed.

(** After a text that does not end with white space, trimming on the right
    trims what follows. *)
Lemma rstrip_with_app_fixed p a b :
  rstrip_with p a = a -> a <> [] ->
  rstrip_with p (a ++ b) = a ++ rstrip_with p b.
Proof.
  intros Ha Hne. destruct (rstrip_with p b) eqn:E.
  - rewrite rstrip_with_app_all by (apply rstrip_with_nil_all, E).
    rewrite app_nil_r. exact Ha.
  - rewrite <- E. apply rstrip_with_app_keep. rewrite E; discriminate.
Qed.

Lemma lstrip_with_app_keep p a (x : pystr) :
  match x with [] => False | c :: _ => p c = false end ->
  lstrip_with p (a ++ x) = lstrip_with p a ++ x.
Proof.
  intros Hx. induction a as [|c a IH]; cbn [app lstrip_with].
  - destruct x as [|c r]; [contradiction|]. simpl. rewrite Hx. reflexivity.
  - destruct (p c); [exact IH|reflexivity].
Qed.

Lemma forallb_lstrip (q p : N -> bool) s :
  forallb q s = true -> forallb q (lstrip_with p s) = true.
Proof.
  induction s as [|c s IH]; simpl; [reflexivity|].
  intros H. destruct (p c); [|exact H].
  apply andb_true_iff in H as [_ H]. auto.
Qed.

Lemma bracket_is_ws h : h = LBRACE \/ h = LBRACKET -> is_ws h = false.
Proof. intros [-> | ->]; reflexivity. Qed.

(** A JSON object or array that stands alone: what it parses to, and how
    it is scanned before any other text. *)
Lemma loads_bracket_exact J h r v :
  J = h :: r -> h = LBRACE \/ h = LBRACKET ->
  loads J = Some v -> rstrip_with isspace J = J ->
  v <> PNone
  /\ forall t m, (2 * length J <= m)%nat -> scan_once m (J ++ t) = Some (v, t).
Proof.
  intros EJ Hh Hl Hr. unfold loads in Hl.
  assert (Hs : skip_ws J = J).
  { subst J. unfold skip_ws; simpl. rewrite (bracket_is_ws _ Hh). reflexivity. }
  rewrite Hs in Hl.
  destruct (scan_once _ J) as [[v' rest]|] eqn:Es; [|discriminate].
  destruct (skip_ws rest) eqn:Er; [|discriminate].
  injection Hl as ->.
  rewrite EJ in Es.
  destruct (scan_bracket_frame _ _ _ _ _ Hh Es) as (c & Ec & Hv & Hfr).
  rewrite <- EJ in Ec.
  assert (Hrest : rest = []).
  { apply skip_ws_nil, is_ws_forall_isspace in Er.
    rewrite Ec, rstrip_with_app_all in Hr by exact Er.
    destruct (rstrip_with_split isspace c) as (suf & E & _).
    apply (f_equal (@length N)) in Hr, E.
    rewrite !length_app in *. destruct rest; [reflexivity|simpl in *; lia]. }
  subst rest. rewrite app_nil_r in Ec. subst c. auto.
Qed.

Section AfterJson.

Variables (J : pystr) (h : N) (r : pystr) (v : pyval).
Hypothesis EJ : J = h :: r.
Hypothesis Hh : h = LBRACE \/ h = LBRACKET.
Hypothesis Hl : loads J = Some v.
Hypothesis Hr : rstrip_with isspace J = J.

Lemma json_nonempty : J <> [].
Proof. rewrite EJ; discriminate. Qed.

Lemma strip_json_tail y : strip (J ++ y) = J ++ rstrip_with isspace y.
Proof.
  unfold strip, strip_with.
  rewrite (lstrip_with_fixed isspace (J ++ y)).
  - apply rstrip_with_app_fixed; [exact Hr|apply json_nonempty].
  - rewrite EJ. cbn [app]. apply bracket_not_space, Hh.
Qed.

Lemma loads_json_tail y :
  y <> [] -> rstrip_with isspace y = y -> loads (J ++ y) = None.
Proof.
  intros Hy Hry. unfold loads.
  assert (Hs : skip_ws (J ++ y) = J ++ y).
  { rewrite EJ. unfold skip_ws; cbn [app lstrip_with].
    rewrite (bracket_is_ws _ Hh). reflexivity. }
  rewrite Hs.
  destruct (loads_bracket_exact J h r v EJ Hh Hl Hr) as [_ Hfr].
  rewrite Hfr by (rewrite length_app; lia).
  destruct (skip_ws y) eqn:E; [|reflexivity].
  apply skip_ws_nil, is_ws_forall_isspace, rstrip_with_all in E.
  congruence.
Qed.

Lemma safe_json_exact : _safe_json_loads J = v.
Proof. unfold _safe_json_loads. rewrite Hl. reflexivity. Qed.

Lemma safe_after_json y :
  _safe_json_loads (strip (J ++ y)) = PNone
  \/ _safe_json_loads (strip (J ++ y)) = v.
Proof.
  rewrite strip_json_tail.
  destruct (rstrip_with isspace y) as [|c y'] eqn:E.
  - right. rewrite app_nil_r. apply safe_json_exact.
  - left. unfold _safe_json_loads. rewrite loads_json_tail; [reflexivity| |].
    + discriminate.
    + rewrite <- E. apply rstrip_with_idem.
Qed.

Lemma first_parse_hit l1 x l2 :
  v <> PNone ->
  (forall y, In y l1 -> _safe_json_loads y = PNone \/ _safe_json_loads y = v) ->
  _safe_json_loads x = v ->
  first_parse (l1 ++ x :: l2) = v.
Proof.
  intros Hv Hl1 Hx. induction l1 as [|y l1 IH]; cbn [app first_parse].
  - rewrite Hx. destruct v; try reflexivity. contradiction.
  - destruct (Hl1 y (or_introl eq_refl)) as [E|E]; rewrite E.
    + apply IH. intros z Hz; apply Hl1; right; exact Hz.
    + destruct v; try reflexivity. contradiction.
Qed.

(** The candidates of the fallback search on the JSON text followed by at
    most 3999 characters. *)
Lemma candidates_after_json n' :
  (length n' < 4000)%nat ->
  first_parse (candidates_trimmed (J ++ n')) = v.
Proof.
  intros Hk.
  destruct (loads_bracket_exact J h r v EJ Hh Hl Hr) as [Hv _].
  unfold candidates_trimmed, candidates_by_trimming. rewrite map_map.
  set (cand := J ++ n').
  set (k := length n').
  assert (HJ : (0 < length J)%nat) by (rewrite EJ; simpl; lia).
  assert (Hlen : length cand = (length J + k)%nat)
    by (unfold cand, k; apply length_app).
  set (n := Nat.min 4000 (length cand)).
  assert (Hkn : (k < n)%nat) by (unfold n; lia).
  replace n with (k + S (n - S k))%nat by lia.
  rewrite seq_app, map_app. cbn [seq map Nat.add].
  assert (Hpre : forall i, (i <= k)%nat ->
            firstn (length cand - i) cand = J ++ firstn (k - i) n').
  { intros i Hi. unfold cand.
    replace (length (J ++ n') - i)%nat with (length J + (k - i))%nat
      by (fold cand; lia).
    apply firstn_app_2. }
  apply first_parse_hit; [exact Hv| |].
  - intros y Hy. apply in_map_iff in Hy as (i & <- & Hi).
    apply in_seq in Hi. rewrite Hpre by lia. apply safe_after_json.
  - rewrite Hpre by lia. rewrite Nat.sub_diag. cbn [firstn].
    rewrite strip_json_tail. cbn [rstrip_with]. rewrite app_nil_r.
    apply safe_json_exact.
Qed.

End AfterJson.

Lemma digit_prose d : is_digit d = true -> prose_char d = true.
Proof.
  unfold is_digit, prose_char, LBRACE, LBRACKET, BACKTICK. intros H. n2p.
  destruct (N.eqb_spec d 123); [lia|]. destruct (N.eqb_spec d 91); [lia|].
  destruct (N.eqb_spec d 96); [lia|]. reflexivity.
Qed.

Lemma digits_prose ds : forallb is_digit ds = true -> forallb prose_char ds = true.
Proof. apply forallb_impl, digit_prose. Qed.

Lemma forallb_app_true (q : N -> bool) a b :
  forallb q a = true -> forallb q b = true -> forallb q (a ++ b) = true.
Proof. intros Ha Hb. rewrite forallb_app, Ha, Hb. reflexivity. Qed.

(** A number is made of prose characters. *)
Lemma match_number_prose s v rest :
  match_number s = Some (v, rest) ->
  exists c, s = c ++ rest /\ forallb prose_char c = true.
Proof.
  unfold match_number.
  destruct (opt_minus s) as [neg s1] eqn:E1.
  destruct (int_part s1) as [[ids s2]|] eqn:E2; [|discriminate].
  destruct (frac_part s2) as [fds s3] eqn:E3.
  destruct (exp_part s3) as [ex s4] eqn:E4.
  intros H.
  assert (Hrest : rest = s4)
    by (destruct fds, ex as [[? ?]|]; injection H as _ <-; reflexivity).
  subst rest. clear H.
  destruct (opt_minus_spec _ _ _ E1) as (m & -> & Hm & _).
  destruct (int_part_spec _ _ _ E2) as (-> & _ & Hids & _).
  assert (Hf : exists cf, s2 = cf ++ s3 /\ forallb prose_char cf = true).
  { destruct (frac_part_spec _ _ _ E3) as (cf & Ecf & [[-> _]|(-> & _ & Hd)] & _).
    - exists []; auto.
    - exists (46 :: fds). split; [exact Ecf|].
      cbn [forallb]. rewrite (digits_prose _ Hd). reflexivity. }
  destruct Hf as (cf & -> & Hcf).
  assert (He : exists ce, s3 = ce ++ s4 /\ forallb prose_char ce = true).
  { clear E1 E2 E3. unfold exp_part in E4. destruct s3 as [|e s3].
    - injection E4 as _ <-. exists []; auto.
    - destruct ((e =? 101) || (e =? 69)) eqn:Ee.
      + destruct (exp_sign s3) as [eneg r1] eqn:Esg.
        destruct (span_digits r1) as [eds r2] eqn:Esp.
        destruct eds as [|d eds].
        * injection E4 as _ <-. exists []; auto.
        * injection E4 as _ <-.
          destruct (span_digits_spec _ _ _ Esp) as (Er1 & Hd & _).
          clear Esp. subst r1.
          assert (Hs : exists sg, s3 = sg ++ (d :: eds) ++ r2
                         /\ forallb prose_char sg = true).
          { unfold exp_sign in Esg. destruct s3 as [|c s3].
            - discriminate Esg.
            - destruct (c =? 45) eqn:K1.
              + injection Esg as _ E. apply N.eqb_eq in K1; subst c.
                exists [45]; rewrite E; auto.
              + destruct (c =? 43) eqn:K2.
                * injection Esg as _ E. apply N.eqb_eq in K2; subst c.
                  exists [43]; rewrite E; auto.
                * injection Esg as _ -> ->. exists []; auto. }
          destruct Hs as (sg & -> & Hsg).
          exists (e :: sg ++ d :: eds). split.
          { cbn [app]. rewrite <- app_assoc. reflexivity. }
          cbn [forallb]. apply andb_true_iff. split.
          { apply orb_true_iff in Ee as [Ee|Ee]; apply N.eqb_eq in Ee;
              subst e; reflexivity. }
          apply forallb_app_true; [exact Hsg|apply digits_prose, Hd].
      + injection E4 as _ <-. exists []; auto. }
  destruct He as (ce & -> & Hce).
  exists (m ++ ids ++ cf ++ ce). split.
  { rewrite <- !app_assoc. reflexivity. }
  repeat apply forallb_app_true; auto using digits_prose.
  destruct Hm as [-> | ->]; reflexivity.
Qed.

(** So is a constant. *)
Lemma constant_prose s v rest :
  constant s = Some (v, rest) ->
  exists c, s = c ++ rest /\ forallb prose_char c = true.
Proof.
  unfold constant. destruct s as [|h s]; [discriminate|].
  set (s0 := h :: s).
  assert (Hlit : forall (p : pystr) (w : pyval),
            option_map (pair w) (after_prefix p s0) = Some (v, rest) ->
            forallb prose_char p = true ->
            exists c, s0 = c ++ rest /\ forallb prose_char c = true).
  { intros p w H Hp.
    destruct (after_prefix p s0) as [r|] eqn:E; [|discriminate].
    injection H as _ <-. apply after_prefix_spec in E. exists p; auto. }
  destruct (h =? 110); [intros H; apply (Hlit _ _ H); reflexivity|].
  destruct (h =? 116); [intros H; apply (Hlit _ _ H); reflexivity|].
  destruct (h =? 102); [intros H; apply (Hlit _ _ H); reflexivity|].
  destruct (h =? 78); [intros H; apply (Hlit _ _ H); reflexivity|].
  destruct (h =? 73); [intros H; apply (Hlit _ _ H); reflexivity|].
  destruct (h =? 45); [intros H; apply (Hlit _ _ H); reflexivity|discriminate].
Qed.

(** A term that starts with a character of running text is a constant or
    a number, and is made of prose characters. *)
Lemma scan_scalar_prose n h r v rest :
  text_char h = true ->
  scan_once n (h :: r) = Some (v, rest) ->
  exists c, h :: r = c ++ rest /\ forallb prose_char c = true.
Proof.
  intros Hh. destruct n as [|n]; [discriminate|]. cbn [scan_once].
  unfold text_char, prose_char, LBRACE, LBRACKET in Hh.
  destruct (h =? 34) eqn:K1; [rewrite !andb_false_r in Hh; discriminate|].
  destruct (h =? 123) eqn:K2; [discriminate|].
  destruct (h =? 91) eqn:K3; [discriminate|].
  destruct (constant (h :: r)) as [[v' rest']|] eqn:Ec.
  - intros H; injection H as <- <-. eapply constant_prose, Ec.
  - apply match_number_prose.
Qed.

(** A run of prose characters that is a prefix of a text stops before the
    first bracket of the text. *)
Lemma app_split_before (c rest a : pystr) h r :
  c ++ rest = a ++ h :: r ->
  forallb prose_char c = true -> prose_char h = false ->
  exists a2, rest = a2 ++ h :: r.
Proof.
  revert a; induction c as [|x c IH]; intros a E Hc Hh.
  - exists a. exact E.
  - cbn [forallb] in Hc. apply andb_true_iff in Hc as [Hx Hc].
    destruct a as [|y a]; cbn [app] in E; injection E as -> E.
    + congruence.
    + eapply IH; eauto.
Qed.

Lemma bracket_not_prose h : h = LBRACE \/ h = LBRACKET -> prose_char h = false.
Proof. intros [-> | ->]; reflexivity. Qed.

Lemma text_char_prose c : text_char c = true -> prose_char c = true.
Proof. unfold text_char. intros H. apply andb_true_iff in H as [H _]. exact H. Qed.

(** Running text followed by a bracket is no JSON document. *)
Lemma loads_text_then_bracket x p h r :
  isspace x = false -> text_char x = true ->
  forallb prose_char p = true -> h = LBRACE \/ h = LBRACKET ->
  loads ((x :: p) ++ h :: r) = None.
Proof.
  intros Hsp Hx Hp Hh. unfold loads.
  assert (Hws : is_ws x = false).
  { destruct (is_ws x) eqn:E; [|reflexivity].
    apply is_ws_isspace in E. congruence. }
  assert (Hs : skip_ws ((x :: p) ++ h :: r) = (x :: p) ++ h :: r).
  { unfold skip_ws. cbn [app lstrip_with]. rewrite Hws. reflexivity. }
  rewrite Hs.
  destruct (scan_once _ _) as [[v rest]|] eqn:Es; [|reflexivity].
  cbn [app] in Es.
  destruct (scan_scalar_prose _ _ _ _ _ Hx Es) as (c & Ec & Hc).
  symmetry in Ec.
  destruct (app_split_before c rest (x :: p) h r Ec Hc (bracket_not_prose _ Hh))
    as (a2 & ->).
  assert (Hne : skip_ws (a2 ++ h :: r) <> []).
  { unfold skip_ws. rewrite lstrip_with_app_keep.
    - intros E. apply app_eq_nil in E as [_ E]. discriminate.
    - apply bracket_is_ws, Hh. }
  destruct (skip_ws (a2 ++ h :: r)); [contradiction|reflexivity].
Qed.

Lemma first_bracket_app a h r :
  forallb prose_char a = true -> h = LBRACE \/ h = LBRACKET ->
  first_bracket (a ++ h :: r) = Some (length a).
Proof.
  intros Ha Hh. induction a as [|x a IH]; cbn [app first_bracket].
  - destruct Hh as [-> | ->]; reflexivity.
  - cbn [forallb] in Ha. apply andb_true_iff in Ha as [Hx Ha].
    assert (E : (x =? LBRACE) || (x =? LBRACKET) = false).
    { unfold prose_char in Hx.
      destruct (x =? LBRACE); [discriminate|].
      destruct (x =? LBRACKET); [discriminate|]. reflexivity. }
    rewrite E, (IH Ha). reflexivity.
Qed.

Lemma skipn_length_app (a b : pystr) : skipn (length a) (a ++ b) = b.
Proof. induction a as [|x a IH]; [reflexivity|exact IH]. Qed.

Lemma space_text_char c : isspace c = true -> text_char c = true.
Proof.
  intros H. unfold text_char, prose_char, LBRACE, LBRACKET, BACKTICK.
  destruct (N.eqb_spec c 123) as [->|]; [discriminate|].
  destruct (N.eqb_spec c 91) as [->|]; [discriminate|].
  destruct (N.eqb_spec c 96) as [->|]; [discriminate|].
  destruct (N.eqb_spec c 34) as [->|]; [discriminate|]. reflexivity.
Qed.

(** The trimmed form of running text, a JSON object or array and what
    follows it. *)
Lemma strip_around_json pre J h r noise :
  J = h :: r -> h = LBRACE \/ h = LBRACKET ->
  rstrip_with isspace J = J ->
  strip (pre ++ J ++ noise)
  = lstrip_with isspace pre ++ J ++ rstrip_with isspace noise.
Proof.
  intros EJ Hh Hr. unfold strip, strip_with.
  rewrite (lstrip_with_app_keep isspace pre (J ++ noise))
    by (rewrite EJ; cbn [app]; apply bracket_not_space, Hh).
  assert (HJ : J <> []) by (rewrite EJ; discriminate).
  rewrite app_assoc, rstrip_with_app_fixed.
  - rewrite <- app_assoc. reflexivity.
  - rewrite rstrip_with_app_keep; rewrite Hr; [reflexivity|exact HJ].
  - intros E. apply app_eq_nil in E as [_ E]. contradiction.
Qed.

(** X11. A JSON object or array is found in the prose around it: when the
    text before it has no double quote, bracket or backtick, the text
    after it is shorter than 4000 characters, and the object or array
    itself parses and does not end with white space, the extractor
    returns its value, whatever follows it. *)
Theorem extract_json_from_prose pre J h r noise v :
  J = h :: r -> h = LBRACE \/ h = LBRACKET ->
  loads J = Some v -> rstrip_with isspace J = J ->
  forallb text_char pre = true ->
  (length noise < 4000)%nat ->
  _extract_json_from_text (pre ++ J ++ noise) = v.
Proof.
  intros EJ Hh Hl Hr Hpre Hn.
  destruct (loads_bracket_exact J h r v EJ Hh Hl Hr) as [Hv _].
  unfold _extract_json_from_text.
  assert (Hne : is_empty (pre ++ J ++ noise) = false).
  { apply is_empty_false. rewrite EJ. destruct pre; discriminate. }
  rewrite Hne.
  set (pre' := lstrip_with isspace pre).
  set (n' := rstrip_with isspace noise).
  assert (Hstrip : strip (pre ++ J ++ noise) = pre' ++ J ++ n')
    by (apply (strip_around_json pre J h r noise EJ Hh Hr)).
  assert (Hpre' : forallb text_char pre' = true) by (apply forallb_lstrip, Hpre).
  assert (Hprose : forallb prose_char pre' = true)
    by (revert Hpre'; apply forallb_impl, text_char_prose).
  assert (Hfence : startswith (pre' ++ J ++ n') FENCE = false).
  { destruct pre' as [|x p] eqn:Ep.
    - rewrite EJ. cbn [app].
      apply (startswith_head _ h (r ++ n') 96 (lit "``") eq_refl).
      destruct Hh as [-> | ->]; discriminate.
    - cbn [app].
      apply (startswith_head _ x (p ++ J ++ n') 96 (lit "``") eq_refl).
      cbn [forallb] in Hprose. apply andb_true_iff in Hprose as [Hx _].
      intros ->. discriminate Hx. }
  assert (Ht : strip_fences (pre ++ J ++ noise) = pre' ++ J ++ n').
  { unfold strip_fences. rewrite Hstrip, Hfence. reflexivity. }
  rewrite Ht.
  assert (Hlen : (length n' < 4000)%nat).
  { destruct (rstrip_with_split isspace noise) as (suf & E & _).
    apply (f_equal (@length N)) in E. rewrite length_app in E.
    fold n' in E. lia. }
  assert (Hscan : scan_from_bracket (pre' ++ J ++ n') = v).
  { rewrite scan_from_bracket_eq
      by (rewrite <- Hstrip; apply strip_rstripped).
    rewrite EJ. cbn [app].
    rewrite (first_bracket_app pre' h (r ++ n') Hprose Hh).
    rewrite skipn_length_app.
    change (h :: r ++ n') with ((h :: r) ++ n'). rewrite <- EJ.
    apply (candidates_after_json J h r v EJ Hh Hl Hr n' Hlen). }
  assert (Hdirect : _safe_json_loads (pre' ++ J ++ n') = PNone
                    \/ _safe_json_loads (pre' ++ J ++ n') = v).
  { destruct pre' as [|x p] eqn:Ep.
    - cbn [app]. unfold n'.
      rewrite <- (strip_json_tail J h r EJ Hh Hr noise).
      apply (safe_after_json J h r v EJ Hh Hl Hr).
    - left. unfold _safe_json_loads.
      rewrite EJ. cbn [app].
      change (x :: p ++ h :: r ++ n') with ((x :: p) ++ h :: (r ++ n')).
      rewrite loads_text_then_bracket; [reflexivity| | | |exact Hh].
      + pose proof (lstrip_with_head_ok isspace pre) as Hk.
        fold pre' in Hk. rewrite Ep in Hk. exact Hk.
      + cbn [forallb] in Hpre'. apply andb_true_iff in Hpre' as [Hx _].
        exact Hx.
      + cbn [forallb] in Hprose. apply andb_true_iff in Hprose as [_ Hp].
        exact Hp. }
  destruct Hdirect as [E|E]; rewrite E.
  - exact Hscan.
  - destruct v; try reflexivity. contradiction.
Qed.

Lemma extract_json_from_prose_witness :
  _extract_json_from_text wrapped_reply
  = PDict [(lit "a", PList [PInt 1; PInt 2])].
Proof.
  refine (extract_json_from_prose
            (lit "Sure, here it is: ") (litq "{'a': [1, 2]}")
            123 (litq "'a': [1, 2]}") (lit " - hope this helps [ok]")
            _ _ _ _ _ _ _).
  - reflexivity.
  - left; reflexivity.
  - vm_compute; reflexivity.
  - reflexivity.
  - reflexivity.
  - vm_compute; lia.
Defined.

(** ** Model selection: which entry of the payload is returned *)

Lemma item_model_id_trimmed d m : item_model_id d = Some m -> strip m = m.
Proof.
  unfold item_model_id.
  destruct (py_or _ _); try discriminate.
  destruct (nonblank s); [|discriminate].
  intros H; injection H as <-. apply strip_idem.
Qed.

Lemma data_entry_id_ok item m :
  data_entry_id item = Some m -> m <> [] /\ strip m = m.
Proof.
  destruct item; try discriminate. cbn [data_entry_id]. intros H.
  split; [eapply item_model_id_nonempty, H|eapply item_model_id_trimmed, H].
Qed.

Lemma models_entry_id_ok item m :
  models_entry_id item = Some m -> m <> [] /\ strip m = m.
Proof.
  destruct item; try discriminate; cbn [models_entry_id].
  - destruct (nonblank s) eqn:E; [|discriminate].
    intros H; injection H as <-. split; [apply nonblank_strip, E|apply strip_idem].
  - intros H.
    split; [eapply item_model_id_nonempty, H|eapply item_model_id_trimmed, H].
Qed.

Lemma pick_from_data_step item rest :
  pick_from_data (item :: rest)
  = match data_entry_id item with
    | Some mid => Some mid
    | None => pick_from_data rest
    end.
Proof. destruct item; reflexivity. Qed.

Lemma pick_from_models_step item rest :
  pick_from_models (item :: rest)
  = match models_entry_id item with
    | Some mid => Some mid
    | None => pick_from_models rest
    end.
Proof.
  destruct item; try reflexivity.
  cbn [pick_from_models models_entry_id]. destruct (nonblank s); reflexivity.
Qed.

Lemma pick_from_data_first junk item rest mid :
  Forall (fun i => data_entry_id i = None) junk ->
  data_entry_id item = Some mid ->
  pick_from_data (junk ++ item :: rest) = Some mid.
Proof.
  intros Hj Hi. induction Hj as [|x junk Hx _ IH]; cbn [app];
    rewrite pick_from_data_step.
  - rewrite Hi; reflexivity.
  - rewrite Hx; exact IH.
Qed.

Lemma pick_from_models_first junk item rest mid :
  Forall (fun i => models_entry_id i = None) junk ->
  models_entry_id item = Some mid ->
  pick_from_models (junk ++ item :: rest) = Some mid.
Proof.
  intros Hj Hi. induction Hj as [|x junk Hx _ IH]; cbn [app];
    rewrite pick_from_models_step.
  - rewrite Hi; reflexivity.
  - rewrite Hx; exact IH.
Qed.

Lemma pick_from_data_none items :
  Forall (fun i => data_entry_id i = None) items -> pick_from_data items = None.
Proof.
  intros H; induction H as [|x l Hx _ IH]; [reflexivity|].
  rewrite pick_from_data_step, Hx. exact IH.
Qed.

Lemma pick_from_data_found items mid :
  pick_from_data items = Some mid ->
  exists junk item rest,
    items = junk ++ item :: rest
    /\ Forall (fun i => data_entry_id i = None) junk
    /\ data_entry_id item = Some mid.
Proof.
  induction items as [|x l IH]; [discriminate|].
  rewrite pick_from_data_step. destruct (data_entry_id x) as [m|] eqn:E.
  - intros H; injection H as <-. exists [], x, l. auto.
  - intros H. destruct (IH H) as (junk & item & rest & -> & Hj & Hi).
    exists (x :: junk), item, rest. auto.
Qed.

Lemma pick_from_models_found items mid :
  pick_from_models items = Some mid ->
  exists junk item rest,
    items = junk ++ item :: rest
    /\ Forall (fun i => models_entry_id i = None) junk
    /\ models_entry_id item = Some mid.
Proof.
  induction items as [|x l IH]; [discriminate|].
  rewrite pick_from_models_step. destruct (models_entry_id x) as [m|] eqn:E.
  - intros H; injection H as <-. exists [], x, l. auto.
  - intros H. destruct (IH H) as (junk & item & rest & -> & Hj & Hi).
    exists (x :: junk), item, rest. auto.
Qed.

(** X12. The model picker returns the identifier of the first usable entry
    of the ["data"] list, whatever the entries after it and the ["models"]
    entry hold; when ["data"] is no list or holds no usable entry, it
    returns the identifier of the first usable entry of the ["models"]
    list. *)
Theorem pick_model_first_usable (p : list (pystr * pyval))
  (junk : list pyval) (item : pyval) (rest : list pyval) (mid : pystr) :
  (dict_get p (lit "data") = PList (junk ++ item :: rest) ->
   Forall (fun i => data_entry_id i = None) junk ->
   data_entry_id item = Some mid ->
   _pick_model_from_models_payload (PDict p) = Ok (Some mid))
  /\ (match dict_get p (lit "data") with
      | PList data => Forall (fun i => data_entry_id i = None) data
      | _ => True
      end ->
      dict_get p (lit "models") = PList (junk ++ item :: rest) ->
      Forall (fun i => models_entry_id i = None) junk ->
      models_entry_id item = Some mid ->
      _pick_model_from_models_payload (PDict p) = Ok (Some mid)).
Proof.
  unfold _pick_model_from_models_payload. split.
  - intros -> Hj Hi. rewrite (pick_from_data_first _ _ _ _ Hj Hi). reflexivity.
  - intros Hd -> Hj Hi.
    rewrite (pick_from_models_first _ _ _ _ Hj Hi).
    destruct (dict_get p (lit "data")); try reflexivity.
    rewrite (pick_from_data_none _ Hd). reflexivity.
Qed.

Lemma pick_model_first_usable_witness :
  _pick_model_from_models_payload models_payload = Ok (Some (lit "qwen3-8b"))
  /\ _pick_model_from_models_payload legacy_models_payload
     = Ok (Some (lit "llava:7b")).
Proof.
  split.
  - refine (proj1 (pick_model_first_usable _
              [PInt 7; PDict [(lit "id", PStr (lit "  "))]]
              (PDict [(lit "id", PStr []); (lit "name", PStr (lit " qwen3-8b "))])
              [PDict [(lit "id", PStr (lit "other"))]] _) _ _ _).
    + reflexivity.
    + repeat constructor.
    + reflexivity.
  - refine (proj2 (pick_model_first_usable _
              [PNone; PStr (lit " ")] (PStr (lit " llava:7b"))
              [PDict [(lit "model", PStr (lit "later"))]] _) _ _ _ _).
    + vm_compute. repeat constructor.
    + reflexivity.
    + repeat constructor.
    + reflexivity.
Defined.

(** X13. Whatever the payload, an identifier that the model picker returns
    is not empty, carries no white space around it, and is the trimmed
    identifier of the first usable entry of the ["data"] list or of the
    ["models"] list of the payload; the picker raises on a payload that is
    no mapping only. *)
Theorem pick_model_sound (payload : pyval) :
  (forall mid,
     _pick_model_from_models_payload payload = Ok (Some mid) ->
     mid <> [] /\ strip mid = mid
     /\ exists p junk item rest,
          payload = PDict p
          /\ ((dict_get p (lit "data") = PList (junk ++ item :: rest)
               /\ Forall (fun i => data_entry_id i = None) junk
               /\ data_entry_id item = Some mid)
              \/ (dict_get p (lit "models") = PList (junk ++ item :: rest)
                  /\ Forall (fun i => models_entry_id i = None) junk
                  /\ models_entry_id item = Some mid)))
  /\ (forall e,
        _pick_model_from_models_payload payload = Raise e ->
        is_dict payload = false).
Proof.
  split.
  - intros mid H.
    assert (Hshape : exists p junk item rest,
              payload = PDict p
              /\ ((dict_get p (lit "data") = PList (junk ++ item :: rest)
                   /\ Forall (fun i => data_entry_id i = None) junk
                   /\ data_entry_id item = Some mid)
                  \/ (dict_get p (lit "models") = PList (junk ++ item :: rest)
                      /\ Forall (fun i => models_entry_id i = None) junk
                      /\ models_entry_id item = Some mid))).
    { unfold _pick_model_from_models_payload in H.
      destruct payload as [| | | | | |p]; try discriminate.
      assert (Hm : match dict_get p (lit "models") with
                   | PList models => Ok (pick_from_models models)
                   | _ => Ok None
                   end = Ok (Some mid) ->
                   exists junk item rest,
                     dict_get p (lit "models") = PList (junk ++ item :: rest)
                     /\ Forall (fun i => models_entry_id i = None) junk
                     /\ models_entry_id item = Some mid).
      { destruct (dict_get p (lit "models")); try discriminate.
        intros K; injection K as K.
        destruct (pick_from_models_found _ _ K) as (junk & item & rest & -> & Hj & Hi).
        exists junk, item, rest. auto. }
      destruct (dict_get p (lit "data")) eqn:Ed;
        try (destruct (Hm H) as (junk & item & rest & E & Hj & Hi);
             exists p, junk, item, rest; auto).
      destruct (pick_from_data l) as [m|] eqn:Ep.
      - injection H as ->.
        destruct (pick_from_data_found _ _ Ep) as (junk & item & rest & -> & Hj & Hi).
        exists p, junk, item, rest. auto.
      - destruct (Hm H) as (junk & item & rest & E & Hj & Hi).
        exists p, junk, item, rest; auto. }
    destruct Hshape as (p & junk & item & rest & Ep & Hi).
    assert (Hok : mid <> [] /\ strip mid = mid).
    { destruct Hi as [(_ & _ & Hi)|(_ & _ & Hi)];
        [eapply data_entry_id_ok, Hi|eapply models_entry_id_ok, Hi]. }
    destruct Hok as [H1 H2]. split; [exact H1|]. split; [exact H2|].
    exists p, junk, item, rest. auto.
  - intros e. unfold _pick_model_from_models_payload.
    destruct payload; try reflexivity.
    destruct (dict_get d (lit "data"));
      try (destruct (dict_get d (lit "models")); discriminate).
    destruct (pick_from_data l); [discriminate|].
    destruct (dict_get d (lit "models")); discriminate.
Qed.

Lemma pick_model_sound_witness :
  lit "qwen3-8b" <> [] /\ strip (lit "qwen3-8b") = lit "qwen3-8b".
Proof.
  destruct (proj1 (pick_model_sound models_payload) (lit "qwen3-8b") eq_refl)
    as (H1 & H2 & _).
  split; [exact H1|exact H2].
Defined.

(** ** The probe of the models endpoint *)

Lemma rstrip_char_slashes url k :
  rstrip_char 47 (url ++ repeat 47 k) = rstrip_char 47 url.
Proof.
  unfold rstrip_char. apply rstrip_with_app_all.
  induction k as [|k IH]; [reflexivity|exact IH].
Qed.

(** X14. The probe sends one request, a GET of the address without its
    trailing slashes followed by [/v1/models], under the headers and the
    timeout it was given; trailing slashes of the address make no
    difference; it finds nothing when the server does not answer or
    answers with another status than 200, and an identifier it finds is
    not empty and carries no white space around it. *)
Theorem get_first_model_id_probe (http : request -> option http_response)
  (url : pystr) (headers : headers_t) (timeout_s : Z) (k : nat) :
  let req := GetReq (rstrip_char 47 url ++ lit "/v1/models") headers timeout_s in
  snd (_get_first_model_id http url headers timeout_s) = [req]
  /\ _get_first_model_id http (url ++ repeat 47 k) headers timeout_s
     = _get_first_model_id http url headers timeout_s
  /\ (http req = None ->
      fst (_get_first_model_id http url headers timeout_s) = None)
  /\ (forall r, http req = Some r -> status_code r <> 200%Z ->
      fst (_get_first_model_id http url headers timeout_s) = None)
  /\ (forall mid,
        fst (_get_first_model_id http url headers timeout_s) = Some mid ->
        mid <> [] /\ strip mid = mid).
Proof.
  intros req. split; [|split; [|split; [|split]]].
  - unfold _get_first_model_id. fold req.
    destruct (http req) as [r|]; [|reflexivity].
    destruct (negb _); [reflexivity|].
    destruct (json_body r) as [j|]; [|reflexivity].
    destruct (_pick_model_from_models_payload j); reflexivity.
  - unfold _get_first_model_id. rewrite rstrip_char_slashes. reflexivity.
  - intros H. unfold _get_first_model_id. fold req. rewrite H. reflexivity.
  - intros r H Hs. unfold _get_first_model_id. fold req. rewrite H.
    apply Z.eqb_neq in Hs. rewrite Hs. reflexivity.
  - intros mid H.
    destruct (_get_first_model_id http url headers timeout_s) as [found reqs] eqn:E.
    cbn [fst] in H. subst found.
    unfold _get_first_model_id in E. fold req in E.
    destruct (http req) as [r|]; [|discriminate].
    destruct (negb _); [discriminate|].
    destruct (json_body r) as [j|]; [|discriminate].
    destruct (_pick_model_from_models_payload j) as [res|] eqn:Ep; [|discriminate].
    injection E as -> _.
    unfold _pick_model_from_models_payload in Ep.
    destruct j as [| | | | | |p]; try discriminate.
    assert (Hm : forall items, pick_from_models items = Some mid ->
                   mid <> [] /\ strip mid = mid).
    { intros items K.
      destruct (pick_from_models_found _ _ K) as (_ & item & _ & _ & _ & Hi).
      eapply models_entry_id_ok, Hi. }
    assert (Hd : forall items, pick_from_data items = Some mid ->
                   mid <> [] /\ strip mid = mid).
    { intros items K.
      destruct (pick_from_data_found _ _ K) as (_ & item & _ & _ & _ & Hi).
      eapply data_entry_id_ok, Hi. }
    destruct (dict_get p (lit "data")) as [| | | | |l|];
      try (destruct (dict_get p (lit "models")); try discriminate;
           injection Ep as Ep; eapply Hm, Ep).
    destruct (pick_from_data l) as [m|] eqn:Ek.
    + injection Ep as ->. eapply Hd, Ek.
    + destruct (dict_get p (lit "models")); try discriminate.
      injection Ep as Ep; eapply Hm, Ep.
Qed.

(** ** The lines of a stream *)

Lemma strip_nil_forall s : strip s = [] -> forallb isspace s = true.
Proof.
  unfold strip, strip_with. intros H.
  apply rstrip_with_nil_all in H.
  destruct (lstrip_with_split isspace s) as (pre & E & Hp).
  rewrite E. apply forallb_app_true; assumption.
Qed.

Lemma strip_forall_nil s : forallb isspace s = true -> strip s = [].
Proof.
  intros H. unfold strip, strip_with. rewrite lstrip_with_all by exact H.
  reflexivity.
Qed.

(** X15. The lines that the decoder reads from a response are trimmed and
    not empty; they are the trimmed forms of the lines of the response
    that are present and not blank, in their order, so every such line is
    read; and reading the lines read gives them again. *)
Theorem iter_sse_lines_clean (resp : list (option pystr)) :
  Forall (fun l => l <> [] /\ strip l = l) (_iter_sse_lines resp)
  /\ _iter_sse_lines resp
     = filter (fun l => negb (is_empty l))
         (flat_map (fun raw => match raw with
                               | Some r => [strip r]
                               | None => []
                               end) resp)
  /\ (forall raw, In (Some raw) resp -> strip raw <> [] ->
        In (strip raw) (_iter_sse_lines resp))
  /\ _iter_sse_lines (map Some (_iter_sse_lines resp)) = _iter_sse_lines resp.
Proof.
  assert (Hclean : Forall (fun l => l <> [] /\ strip l = l) (_iter_sse_lines resp)).
  { induction resp as [|[raw|] resp IH]; cbn [_iter_sse_lines];
      [constructor| |exact IH].
    destruct (is_empty (strip raw)) eqn:E; [exact IH|].
    constructor; [|exact IH].
    split; [apply is_empty_false, E|apply strip_idem]. }
  split; [exact Hclean|]. split; [|split].
  - clear Hclean. induction resp as [|[raw|] resp IH]; cbn [_iter_sse_lines flat_map app];
      [reflexivity| |exact IH].
    cbn [filter]. destruct (is_empty (strip raw)); cbn [negb]; rewrite IH;
      reflexivity.
  - clear Hclean. intros raw Hin Hne.
    induction resp as [|x resp IH]; [contradiction|].
    destruct Hin as [-> | Hin].
    + cbn [_iter_sse_lines]. apply is_empty_false in Hne. rewrite Hne.
      left; reflexivity.
    + specialize (IH Hin). destruct x as [r|]; cbn [_iter_sse_lines]; [|exact IH].
      destruct (is_empty (strip r)); [exact IH|right; exact IH].
  - induction Hclean as [|l ls [Hne Hl] _ IH]; [reflexivity|].
    cbn [map _iter_sse_lines]. rewrite Hl.
    apply is_empty_false in Hne. rewrite Hne, IH. reflexivity.
Qed.

(** ** The results of the streaming decoder *)

Lemma strip_join_nonblank parts frag :
  In frag parts -> strip frag <> [] -> strip (join parts) <> [].
Proof.
  intros Hin Hne E. apply Hne, strip_forall_nil.
  apply strip_nil_forall in E. unfold join in E.
  apply forallb_forall. intros c Hc.
  rewrite forallb_forall in E. apply E, in_concat.
  exists frag; auto.
Qed.

(** X16. The content and the reasoning that the streaming decoder returns
    carry no white space around them, whatever the response. *)
Theorem stream_outputs_trimmed (resp : list (option pystr)) :
  strip (fst (fst (_parse_stream_and_accumulate resp)))
  = fst (fst (_parse_stream_and_accumulate resp))
  /\ strip (snd (fst (_parse_stream_and_accumulate resp)))
     = snd (fst (_parse_stream_and_accumulate resp)).
Proof.
  unfold _parse_stream_and_accumulate, finish_stream.
  set (st := fst (stream_loop _ _)).
  destruct (is_empty _ && negb _); cbn [fst snd];
    [|split; apply strip_idem].
  pose proof (split_from_content_stripped (strip (join (content_parts st))))
    as [H1 H2].
  destruct (_split_thinking_and_answer_from_content _) as [think ans].
  cbn [fst snd] in *.
  destruct (negb (is_empty think)); cbn [fst snd];
    [split; assumption|split; apply strip_idem].
Qed.

(** X17. Reasoning streamed in the field of its own takes precedence: when
    one of the reasoning fragments received holds something else than
    white space, the decoder returns the trimmed concatenation of the
    reasoning fragments, which is not empty, and the trimmed concatenation
    of the content fragments as it is, inline markers included. *)
Theorem stream_dedicated_reasoning (resp : list (option pystr)) (frag : pystr) :
  let st := fst (stream_loop (_iter_sse_lines resp) acc_init) in
  In frag (reasoning_parts st) -> strip frag <> [] ->
  _parse_stream_and_accumulate resp
  = (strip (join (content_parts st)), strip (join (reasoning_parts st)), meta st)
  /\ strip (join (reasoning_parts st)) <> [].
Proof.
  intros st Hin Hne.
  pose proof (strip_join_nonblank _ _ Hin Hne) as Hr.
  split; [|exact Hr].
  unfold _parse_stream_and_accumulate, finish_stream. fold st.
  apply is_empty_false in Hr. rewrite Hr. reflexivity.
Qed.

Lemma stream_dedicated_reasoning_witness :
  _parse_stream_and_accumulate reasoning_stream
  = (lit "<think>x</think>ok", lit "plan", {| done := true; chunks := 2 |}).
Proof.
  refine (eq_trans
            (proj1 (stream_dedicated_reasoning reasoning_stream (lit "plan ") _ _))
            _).
  - vm_compute. left; reflexivity.
  - vm_compute; discriminate.
  - vm_compute; reflexivity.
Defined.

(** ** The requests of a call *)

Lemma get_first_model_id_requests (http : request -> option http_response)
  url headers timeout_s :
  snd (_get_first_model_id http url headers timeout_s)
  = [GetReq (rstrip_char 47 url ++ lit "/v1/models") headers timeout_s].
Proof.
  unfold _get_first_model_id.
  destruct (http _) as [r|]; [|reflexivity].
  destruct (negb _); [reflexivity|].
  destruct (json_body r) as [j|]; [|reflexivity].
  destruct (_pick_model_from_models_payload j); reflexivity.
Qed.

Lemma postprocess_nil mode : _postprocess_text [] mode = [].
Proof.
  destruct (postprocess_cases [] mode) as [E|[E|[E|E]]]; rewrite E; reflexivity.
Qed.

Section RunRequests.

Variable tensor : Type.
Variable http : request -> option http_response.
Variable png_base64 : tensor -> option pystr.
Variable json_dumps : pyval -> pystr.
Variable json_dumps_indent : pyval -> pystr.
Variable repr : pyval -> pystr.

Lemma select_model_requests (a : run_args tensor) base headers timeout_s :
  rstrip_char 47 base = base ->
  snd (select_model http a base headers timeout_s) = []
  \/ snd (select_model http a base headers timeout_s)
     = [GetReq (base ++ lit "/v1/models") headers timeout_s].
Proof.
  intros Hb. unfold select_model.
  destruct (is_empty _); [|left; reflexivity].
  pose proof (get_first_model_id_requests http base headers timeout_s) as Hr.
  destruct (_get_first_model_id _ _ _ _) as [found reqs].
  cbn [snd] in *. rewrite Hb in Hr. right. exact Hr.
Qed.

Lemma chat_requests (a : run_args tensor) endpoint payload headers timeout_s m :
  snd (chat http json_dumps json_dumps_indent repr a endpoint payload headers
            timeout_s m)
  = [PostReq endpoint payload headers timeout_s (stream a)].
Proof.
  unfold chat. destruct (http _) as [resp|]; [|reflexivity].
  destruct (negb _); [reflexivity|]. destruct (stream a); reflexivity.
Qed.

Lemma chat_ok (a : run_args tensor) endpoint payload headers timeout_s m o :
  fst (chat http json_dumps json_dumps_indent repr a endpoint payload headers
           timeout_s m) = Ok o ->
  exists resp,
    http (PostReq endpoint payload headers timeout_s (stream a)) = Some resp
    /\ status_code resp = 200%Z
    /\ (if stream a
        then finish_streamed json_dumps json_dumps_indent repr a resp m
        else finish_single json_dumps_indent repr a resp m) = Ok o.
Proof.
  unfold chat. destruct (http _) as [resp|]; [|discriminate].
  destruct (status_code resp =? 200)%Z eqn:Es; cbn [negb fst]; [|discriminate].
  apply Z.eqb_eq in Es. intros H. exists resp.
  split; [reflexivity|]. split; [exact Es|].
  destruct (stream a); exact H.
Qed.

(** The JSON output of the two branches. *)
Lemma json_str_of_cases jm answer mode :
  (jm = false -> json_str_of json_dumps_indent jm answer mode = [])
  /\ (json_str_of json_dumps_indent jm answer mode = []
      \/ (jm = true /\ _extract_json_from_text answer <> PNone
          /\ json_str_of json_dumps_indent jm answer mode
             = _postprocess_text
                 (json_dumps_indent (_extract_json_from_text answer)) mode)).
Proof.
  unfold json_str_of. split.
  - intros ->. cbn [is_none negb]. apply postprocess_nil.
  - destruct jm; [|left; apply postprocess_nil].
    destruct (_extract_json_from_text answer) eqn:E; cbn [is_none negb];
      try (right; split; [reflexivity|split; [discriminate|reflexivity]]).
    left; apply postprocess_nil.
Qed.

Lemma finish_streamed_json (a : run_args tensor) resp m answer thinking js raw m' :
  finish_streamed json_dumps json_dumps_indent repr a resp m
  = Ok (answer, thinking, js, raw, m') ->
  js = json_str_of json_dumps_indent (json_mode a) answer (text_postprocess a).
Proof.
  unfold finish_streamed.
  destruct (_parse_stream_and_accumulate _) as [[c r] mt].
  intros H; injection H as <- _ <- _ _. reflexivity.
Qed.

Lemma finish_single_json (a : run_args tensor) resp m answer thinking js raw m' :
  finish_single json_dumps_indent repr a resp m
  = Ok (answer, thinking, js, raw, m') ->
  js = [] \/ js = json_str_of json_dumps_indent (json_mode a) answer
                    (text_postprocess a).
Proof.
  unfold finish_single.
  destruct (json_body resp) as [data|]; [|discriminate].
  destruct data; try discriminate.
  destruct (negb (truthy _)).
  - intros H; injection H as _ _ <- _ _. left; reflexivity.
  - destruct (index0 _) as [c0|]; [|discriminate].
    destruct (dict_get _ (lit "message"));
      try (intros H; injection H as <- _ <- _ _; right; reflexivity).
    destruct (_split_thinking_and_answer _ _).
    intros H; injection H as <- _ <- _ _. right; reflexivity.
Qed.

End RunRequests.

(** X18. A call sends at most two requests: first, unless a custom model
    is named, one GET of the models endpoint, then at most one POST of the
    chat endpoint; both go to the trimmed server address, under the
    headers built from the API key and the same timeout, 300 when none is
    given.  A call that returns for a prompt that is not blank has sent
    the POST and has been answered with status 200. *)
Theorem run_requests (tensor : Type)
  (http : request -> option http_response)
  (png_base64 : tensor -> option pystr)
  (json_dumps json_dumps_indent repr : pyval -> pystr)
  (a : run_args tensor) :
  let base := rstrip_char 47 (strip (server_url a)) in
  let hs := _build_headers (api_key a) in
  let t := if (timeout_seconds a =? 0)%Z then 300%Z else timeout_seconds a in
  let probe := GetReq (base ++ lit "/v1/models") hs t in
  let post payload :=
    PostReq (base ++ lit "/v1/chat/completions") payload hs t (stream a) in
  let res := fst (run http png_base64 json_dumps json_dumps_indent repr a) in
  let tr := snd (run http png_base64 json_dumps json_dumps_indent repr a) in
  exists probes posts,
    tr = probes ++ posts
    /\ (probes = [] \/ probes = [probe])
    /\ (posts = [] \/ exists payload, posts = [post payload])
    /\ (model_mode a = lit "custom" -> strip (model_override a) <> [] ->
        probes = [])
    /\ (forall o, res = Ok o -> strip (prompt a) <> [] ->
        exists payload resp,
          posts = [post payload]
          /\ http (post payload) = Some resp
          /\ status_code resp = 200%Z).
Proof.
  intros base hs t probe post res tr. subst res tr. unfold run.
  fold base hs t.
  assert (Hnone : forall (r : pyresult outputs),
            (forall o, r = Ok o -> strip (prompt a) <> [] -> False) ->
            exists probes posts : list request,
              @nil request = probes ++ posts
              /\ (probes = [] \/ probes = [probe])
              /\ (posts = [] \/ exists payload, posts = [post payload])
              /\ (model_mode a = lit "custom" ->
                  strip (model_override a) <> [] -> probes = [])
              /\ (forall o, r = Ok o -> strip (prompt a) <> [] ->
                  exists payload resp,
                    posts = [post payload]
                    /\ http (post payload) = Some resp
                    /\ status_code resp = 200%Z)).
  { intros r Hr. exists [], []. repeat (split; auto).
    intros o Ho Hp. destruct (Hr o Ho Hp). }
  destruct (is_empty base) eqn:Eb.
  { cbn [fst snd]. apply Hnone. discriminate. }
  destruct (is_empty (strip (prompt a))) eqn:Ep.
  { cbn [fst snd]. apply Hnone. intros o _ Hp.
    apply is_empty_true in Ep. contradiction. }
  clear Hnone.
  assert (Hbase : rstrip_char 47 base = base)
    by (unfold base, rstrip_char; apply rstrip_with_idem).
  pose proof (select_model_requests tensor http a base hs t Hbase) as Hsel.
  pose proof (select_model_spec tensor http a base hs t) as Hspec.
  destruct (select_model http a base hs t) as [m trace].
  cbn [snd] in Hsel. fold probe in Hsel.
  destruct (Hspec m trace eq_refl) as (_ & Hcustom & _). clear Hspec.
  destruct (_image_tensor_to_base64_png png_base64 (image a)) as [data_url|e].
  - set (payload := build_payload a m _).
    pose proof (chat_requests tensor http json_dumps json_dumps_indent repr a
                  (base ++ lit "/v1/chat/completions") payload hs t m) as Hsent.
    pose proof (chat_ok tensor http json_dumps json_dumps_indent repr a
                  (base ++ lit "/v1/chat/completions") payload hs t m) as Hok.
    destruct (chat _ _ _ _ _ _ _ _ _ _) as [r sent].
    cbn [fst snd] in *. subst sent. fold (post payload) in *.
    exists trace, [post payload].
    split; [reflexivity|]. split; [exact Hsel|].
    split; [right; exists payload; reflexivity|].
    split; [intros H1 H2; apply (Hcustom H1 H2)|].
    intros o Ho _. destruct (Hok o Ho) as (resp & Hh & Hs & _).
    exists payload, resp. auto.
  - cbn [fst snd]. exists trace, [].
    split; [symmetry; apply app_nil_r|]. split; [exact Hsel|].
    split; [left; reflexivity|].
    split; [intros H1 H2; apply (Hcustom H1 H2)|].
    discriminate.
Qed.

(** X19. The JSON output of a call comes from its answer output: it is
    empty when JSON mode is off, and otherwise it is either empty or the
    post-processed rendering of the value that the extractor finds in the
    answer returned, which is then not [None]. *)
Theorem run_json_output (tensor : Type)
  (http : request -> option http_response)
  (png_base64 : tensor -> option pystr)
  (json_dumps json_dumps_indent repr : pyval -> pystr)
  (a : run_args tensor) (answer thinking js raw m : pystr) :
  fst (run http png_base64 json_dumps json_dumps_indent repr a)
  = Ok (answer, thinking, js, raw, m) ->
  (json_mode a = false -> js = [])
  /\ (js = []
      \/ (json_mode a = true
          /\ _extract_json_from_text answer <> PNone
          /\ js = _postprocess_text
                    (json_dumps_indent (_extract_json_from_text answer))
                    (text_postprocess a))).
Proof.
  unfold run.
  destruct (is_empty (rstrip_char 47 (strip (server_url a))));
    [discriminate|].
  destruct (is_empty (strip (prompt a))).
  { cbn [fst]. intros H; injection H as _ _ <- _ _. auto. }
  destruct (select_model _ _ _ _ _) as [mu trace].
  destruct (_image_tensor_to_base64_png _ _) as [data_url|e]; [|discriminate].
  set (payload := build_payload a mu _).
  pose proof (chat_ok tensor http json_dumps json_dumps_indent repr a
                (rstrip_char 47 (strip (server_url a))
                 ++ lit "/v1/chat/completions") payload
                (_build_headers (api_key a))
                (if (timeout_seconds a =? 0)%Z then 300%Z else timeout_seconds a)
                mu) as Hok.
  destruct (chat _ _ _ _ _ _ _ _ _ _) as [r sent]. cbn [fst] in *.
  intros ->. destruct (Hok _ eq_refl) as (resp & _ & _ & Hfin).
  pose proof (json_str_of_cases json_dumps_indent (json_mode a) answer
                (text_postprocess a)) as [Hoff Hon].
  assert (Hjs : js = [] \/ js = json_str_of json_dumps_indent (json_mode a)
                                  answer (text_postprocess a)).
  { destruct (stream a).
    - right. eapply finish_streamed_json, Hfin.
    - eapply finish_single_json, Hfin. }
  destruct Hjs as [-> | ->]; [auto|].
  split; [exact Hoff|exact Hon].
Qed.

Lemma run_json_output_witness :
  (json_mode json_args = false -> lit "{..}" = [])
  /\ (lit "{..}" = []
      \/ (json_mode json_args = true
          /\ _extract_json_from_text (lit "Here: " ++ litq "{'a': 1}") <> PNone
          /\ lit "{..}"
             = _postprocess_text
                 (lit "{..}") (text_postprocess json_args))).
Proof.
  apply (run_json_output unit chat_server no_png no_text (fun _ => lit "{..}")
           no_text json_args (lit "Here: " ++ litq "{'a': 1}") []
           (lit "{..}") (lit "{..}") (lit "my-model")).
  vm_compute; reflexivity.
Defined.

(** ** The payload of the chat request *)

Lemma build_payload_fields (tensor : Type) (a : run_args tensor) m msgs :
  exists d,
    build_payload a m msgs = PDict d
    /\ dict_get d (lit "model") = PStr m
    /\ dict_get d (lit "messages") = PList msgs
    /\ dict_get d (lit "max_tokens")
       = (if (0 <? max_tokens a)%Z then PInt (max_tokens a) else PNone)
    /\ dict_get d (lit "seed")
       = (if (0 <=? seed a)%Z then PInt (seed a) else PNone)
    /\ dict_get d (lit "stop")
       = (if is_empty (select_stop a) then PNone else PStr (select_stop a))
    /\ dict_get d (lit "response_format")
       = (if json_mode a
          then PDict [(lit "type", PStr (lit "json_object"))] else PNone)
    /\ dict_get d (lit "stream") = (if stream a then PBool true else PNone).
Proof.
  unfold build_payload. eexists. split; [reflexivity|].
  destruct (0 <? max_tokens a)%Z, (0 <=? seed a)%Z,
    (is_empty (select_stop a)), (json_mode a), (stream a);
    repeat split; reflexivity.
Qed.

(** X20. The payload of the chat request names the model that the call
    reports, which is never empty, and holds the messages built from the
    trimmed prompt; it holds [max_tokens] only when the value is positive,
    [seed] only when it is not negative, [stop] only when the stop text is
    not empty, [response_format] only in JSON mode and [stream] only when
    streaming, and the request streams exactly then. *)
Theorem run_payload (tensor : Type)
  (http : request -> option http_response)
  (png_base64 : tensor -> option pystr)
  (json_dumps json_dumps_indent repr : pyval -> pystr)
  (a : run_args tensor)
  (url : pystr) (payload : pyval) (hs : headers_t) (t : Z) (s : bool) :
  In (PostReq url payload hs t s)
     (snd (run http png_base64 json_dumps json_dumps_indent repr a)) ->
  exists d m data_url,
    payload = PDict d
    /\ dict_get d (lit "model") = PStr m /\ m <> []
    /\ (forall o,
          fst (run http png_base64 json_dumps json_dumps_indent repr a) = Ok o ->
          model_used_of o = m)
    /\ dict_get d (lit "messages")
       = PList (build_messages a (strip (prompt a)) data_url)
    /\ dict_get d (lit "max_tokens")
       = (if (0 <? max_tokens a)%Z then PInt (max_tokens a) else PNone)
    /\ dict_get d (lit "seed")
       = (if (0 <=? seed a)%Z then PInt (seed a) else PNone)
    /\ dict_get d (lit "stop")
       = (if is_empty (select_stop a) then PNone else PStr (select_stop a))
    /\ dict_get d (lit "response_format")
       = (if json_mode a
          then PDict [(lit "type", PStr (lit "json_object"))] else PNone)
    /\ dict_get d (lit "stream") = (if stream a then PBool true else PNone)
    /\ s = stream a.
Proof.
  unfold run.
  set (base := rstrip_char 47 (strip (server_url a))).
  set (hs0 := _build_headers (api_key a)).
  set (t0 := if (timeout_seconds a =? 0)%Z then 300%Z else timeout_seconds a).
  destruct (is_empty base); [intros []|].
  destruct (is_empty (strip (prompt a))); [intros []|].
  assert (Hbase : rstrip_char 47 base = base)
    by (unfold base, rstrip_char; apply rstrip_with_idem).
  pose proof (select_model_requests tensor http a base hs0 t0 Hbase) as Hsel.
  pose proof (select_model_spec tensor http a base hs0 t0) as Hspec.
  destruct (select_model http a base hs0 t0) as [m trace].
  cbn [snd] in Hsel.
  destruct (Hspec m trace eq_refl) as (Hm & _). clear Hspec.
  assert (Htrace : ~ In (PostReq url payload hs t s) trace).
  { destruct Hsel as [-> | ->]; [intros []|].
    intros [H|[]]; discriminate H. }
  destruct (_image_tensor_to_base64_png png_base64 (image a)) as [data_url|e];
    [|cbn [snd]; intros H; contradiction].
  set (msgs := build_messages a (strip (prompt a)) data_url).
  pose proof (chat_requests tensor http json_dumps json_dumps_indent repr a
                (base ++ lit "/v1/chat/completions") (build_payload a m msgs)
                hs0 t0 m) as Hsent.
  pose proof (chat_model tensor http json_dumps json_dumps_indent repr a
                (base ++ lit "/v1/chat/completions") (build_payload a m msgs)
                hs0 t0 m) as Hmodel.
  destruct (chat _ _ _ _ _ _ _ _ _ _) as [r sent].
  cbn [fst snd] in *. subst sent.
  intros Hin. apply in_app_or in Hin as [Hin|[Hin|[]]]; [contradiction|].
  injection Hin as _ <- _ _ <-.
  destruct (build_payload_fields tensor a m msgs)
    as (d & Ed & H1 & H2 & H3 & H4 & H5 & H6 & H7).
  exists d, m, data_url. rewrite Ed.
  repeat (split; [assumption || reflexivity|]).
  split; [|repeat (split; [assumption|]); reflexivity].
  intros o Ho. subst r. eapply Hmodel. reflexivity.
Qed.

Lemma run_payload_witness :
  exists d,
    build_payload json_args (lit "my-model")
      (build_messages json_args (lit "list it") None) = PDict d
    /\ dict_get d (lit "model") = PStr (lit "my-model")
    /\ dict_get d (lit "max_tokens") = PInt 64
    /\ dict_get d (lit "stream") = PNone.
Proof.
  destruct (run_payload unit chat_server no_png no_text no_text no_text
              json_args
              (lit "http://127.0.0.1:8082/v1/chat/completions")
              (build_payload json_args (lit "my-model")
                 (build_messages json_args (lit "list it") None))
              [(lit "Content-Type", lit "application/json");
               (lit "Authorization", lit "Bearer secret")]
              300%Z false)
    as (d & m & data_url & Ed & Hm & _ & Ho & _ & Hmax & _ & _ & _ & Hs & _).
  - left. vm_compute. reflexivity.
  - exists d. split; [exact Ed|]. split; [|split; [exact Hmax|exact Hs]].
    rewrite Hm. f_equal. symmetry. exact (Ho _ eq_refl).
Defined.

(** ** The system text and the headers *)

Lemma strip_head_ok s :
  match strip s with [] => True | c :: _ => isspace c = false end.
Proof.
  unfold strip, strip_with. apply rstrip_with_head_ok, lstrip_with_head_ok.
Qed.

(** A trimmed text in front and a text that does not end with white space
    behind: nothing is left to trim. *)
Lemma strip_between a mid b :
  strip a = a -> a <> [] -> rstrip_with isspace b = b -> b <> [] ->
  strip (a ++ mid ++ b) = a ++ mid ++ b.
Proof.
  intros Ha Hne Hb Hnb. unfold strip at 1, strip_with.
  rewrite lstrip_with_fixed.
  - rewrite app_assoc, rstrip_with_app_keep by (rewrite Hb; exact Hnb).
    rewrite Hb, <- app_assoc. reflexivity.
  - pose proof (strip_head_ok a) as H. rewrite Ha in H.
    destruct a as [|c r]; [contradiction|exact H].
Qed.

Lemma json_instruction_rstripped hint :
  strip hint = hint ->
  rstrip_with isspace (json_instruction_with hint) = json_instruction_with hint
  /\ json_instruction_with hint <> []
  /\ strip (json_instruction_with hint) = json_instruction_with hint.
Proof.
  intros Hh. unfold json_instruction_with.
  destruct (is_empty hint) eqn:E.
  - split; [reflexivity|]. split; [discriminate|reflexivity].
  - apply is_empty_false in E.
    assert (Hr : rstrip_with isspace hint = hint)
      by (rewrite <- Hh; apply strip_rstripped).
    assert (H1 : rstrip_with isspace
                   (JSON_INSTRUCTION ++ [NL] ++ lit "JSON schema / shape hint:"
                    ++ [NL] ++ hint)
                 = JSON_INSTRUCTION ++ [NL] ++ lit "JSON schema / shape hint:"
                   ++ [NL] ++ hint).
    { rewrite !app_assoc. rewrite rstrip_with_app_keep by (rewrite Hr; exact E).
      rewrite Hr. reflexivity. }
    split; [exact H1|]. split; [discriminate|].
    unfold strip, strip_with. rewrite lstrip_with_fixed by reflexivity.
    exact H1.
Qed.

(** X21. The system text sent is the trimmed system prompt outside JSON
    mode; in JSON mode it is the JSON instruction, with the trimmed shape
    hint when there is one, after the trimmed system prompt and an empty
    line when the prompt is not blank, nothing of it being trimmed away.
    So it never carries white space around it, it is never empty in JSON
    mode, and the messages are the user message alone when it is empty and
    the system message followed by the user message otherwise. *)
Theorem system_text_spec (tensor : Type) (a : run_args tensor) :
  let sys := strip (system_prompt a) in
  let instruction := json_instruction_with (strip (json_schema_hint a)) in
  system_text a
  = (if json_mode a
     then if is_empty sys then instruction
          else sys ++ [NL; NL] ++ instruction
     else sys)
  /\ strip (system_text a) = system_text a
  /\ (json_mode a = true -> system_text a <> [])
  /\ (forall user_text data_url,
        exists user_content,
          build_messages a user_text data_url
          = (if is_empty (system_text a) then []
             else [PDict [(lit "role", PStr (lit "system"));
                          (lit "content", PStr (system_text a))]])
            ++ [PDict [(lit "role", PStr (lit "user"));
                       (lit "content", user_content)]]
          /\ (image a = None -> user_content = PStr user_text)).
Proof.
  intros sys instruction.
  destruct (json_instruction_rstripped (strip (json_schema_hint a))
              (strip_idem _)) as (Hr & Hne & Hs).
  fold instruction in Hr, Hne, Hs.
  assert (Hform : system_text a
                  = (if json_mode a
                     then if is_empty sys then instruction
                          else sys ++ [NL; NL] ++ instruction
                     else sys)).
  { unfold system_text. fold sys. destruct (json_mode a); [|reflexivity].
    assert (Ei : (if negb (is_empty (strip (json_schema_hint a)))
                  then JSON_INSTRUCTION ++ [NL] ++ lit "JSON schema / shape hint:"
                       ++ [NL] ++ strip (json_schema_hint a)
                  else JSON_INSTRUCTION) = instruction).
    { unfold instruction, json_instruction_with.
      destruct (is_empty (strip (json_schema_hint a))); reflexivity. }
    rewrite Ei.
    destruct (is_empty sys) eqn:Es; cbn [negb]; [reflexivity|].
    apply is_empty_false in Es.
    apply strip_between; auto. apply strip_idem. }
  split; [exact Hform|]. split; [|split].
  - rewrite Hform. destruct (json_mode a); [|apply strip_idem].
    destruct (is_empty sys) eqn:Es; [exact Hs|].
    apply is_empty_false in Es. apply strip_between; auto. apply strip_idem.
  - intros Hj. rewrite Hform, Hj.
    destruct (is_empty sys); [exact Hne|].
    intros E. apply app_eq_nil in E as [_ E]. discriminate E.
  - intros user_text data_url. unfold build_messages.
    destruct (is_empty (system_text a)); cbn [negb];
      (eexists; split; [reflexivity|]);
      intros ->; reflexivity.
Qed.

(** X22. The headers of a call depend on the API key only through its
    trimmed form: a blank key gives the content type alone, so no
    [Authorization] header is sent, and any other key gives the content
    type and [Bearer] followed by the trimmed key; no header value is
    empty or carries white space around it. *)
Theorem build_headers_spec (api_key : pystr) :
  _build_headers api_key = _build_headers (strip api_key)
  /\ _build_headers api_key
     = (lit "Content-Type", lit "application/json")
       :: (if is_empty (strip api_key) then []
           else [(lit "Authorization", lit "Bearer " ++ strip api_key)])
  /\ Forall (fun kv => snd kv <> [] /\ strip (snd kv) = snd kv)
            (_build_headers api_key).
Proof.
  split; [|split].
  - unfold _build_headers. rewrite strip_idem. reflexivity.
  - unfold _build_headers. destruct (is_empty (strip api_key)); reflexivity.
  - unfold _build_headers.
    destruct (is_empty (strip api_key)) eqn:E; cbn [negb app].
    + constructor; [split; [discriminate|reflexivity]|constructor].
    + apply is_empty_false in E.
      constructor; [split; [discriminate|reflexivity]|].
      constructor; [|constructor]. cbn [snd]. split; [discriminate|].
      assert (Hr : rstrip_with isspace (strip api_key) = strip api_key)
        by apply strip_rstripped.
      unfold strip at 1, strip_with.
      rewrite lstrip_with_fixed by reflexivity.
      rewrite rstrip_with_app_keep by (rewrite Hr; exact E).
      rewrite Hr. reflexivity.
Qed.

(** ** Embedded JSON extractor: where the value comes from *)

Lemma parse_container n :
  (forall s acc v rest, parse_array n s acc = Some (v, rest) ->
     is_container v = true)
  /\ (forall s acc v rest, parse_object n s acc = Some (v, rest) ->
        is_container v = true).
Proof.
  induction n as [|n [IHa IHo]]; [split; discriminate|]. split.
  - intros s acc v rest. cbn [parse_array].
    destruct (scan_once n s) as [[v0 r]|]; [|discriminate].
    destruct (skip_ws r) as [|c r1]; [discriminate|].
    destruct (c =? 93).
    + intros H; injection H as <- _. reflexivity.
    + destruct (c =? 44); [apply IHa|discriminate].
  - intros s acc v rest. cbn [parse_object].
    destruct s as [|q r]; [discriminate|].
    destruct (q =? 34); [|discriminate].
    destruct (scanstring r [] None) as [[key r1]|]; [|discriminate].
    destruct (skip_ws r1) as [|col r2]; [discriminate|].
    destruct (col =? 58); [|discriminate].
    destruct (scan_once n (skip_ws r2)) as [[v0 r3]|]; [|discriminate].
    destruct (skip_ws r3) as [|c r4]; [discriminate|].
    destruct (c =? 125).
    + intros H; injection H as <- _. reflexivity.
    + destruct (c =? 44); [apply IHo|discriminate].
Qed.

(** A document that starts with a bracket is a list or a mapping. *)
Lemma loads_bracket_container h r v :
  h = LBRACE \/ h = LBRACKET -> loads (h :: r) = Some v ->
  is_container v = true.
Proof.
  intros Hh. unfold loads.
  assert (Hs : skip_ws (h :: r) = h :: r).
  { unfold skip_ws; simpl. rewrite (bracket_is_ws _ Hh). reflexivity. }
  rewrite Hs.
  destruct (scan_once _ _) as [[v' rest]|] eqn:Es; [|discriminate].
  destruct (skip_ws rest); [|discriminate].
  intros H; injection H as <-.
  cbn [Nat.add Nat.mul length] in Es. cbn [scan_once] in Es.
  destruct Hh as [-> | ->].
  - change (LBRACE =? 34) with false in Es.
    change (LBRACE =? 123) with true in Es. cbv iota in Es.
    destruct (skip_ws r) as [|c1 r1]; [discriminate|].
    destruct (c1 =? 125).
    + injection Es as <- _. reflexivity.
    + eapply (proj2 (parse_container _)), Es.
  - change (LBRACKET =? 34) with false in Es.
    change (LBRACKET =? 123) with false in Es.
    change (LBRACKET =? 91) with true in Es. cbv iota in Es.
    destruct (skip_ws r) as [|c1 r1]; [discriminate|].
    destruct (c1 =? 93).
    + injection Es as <- _. reflexivity.
    + eapply (proj1 (parse_container _)), Es.
Qed.

Lemma first_parse_some l v :
  first_parse l = v -> v <> PNone ->
  exists c, In c l /\ loads c = Some v.
Proof.
  intros H Hv. induction l as [|c l IH]; cbn [first_parse] in H;
    [congruence|].
  assert (Hc : _safe_json_loads c = v -> exists c0, In c0 (c :: l) /\ loads c0 = Some v).
  { intros E. exists c. split; [left; reflexivity|].
    unfold _safe_json_loads in E. destruct (loads c); congruence. }
  destruct (_safe_json_loads c) eqn:E;
    try (apply Hc; exact H).
  destruct (IH H) as (c0 & Hin & Hl). exists c0. split; [right; exact Hin|exact Hl].
Qed.

Lemma first_bracket_split t start :
  first_bracket t = Some start ->
  exists pre c s,
    t = pre ++ c :: s /\ length pre = start
    /\ first_bracket pre = None /\ (c = LBRACE \/ c = LBRACKET).
Proof.
  revert start; induction t as [|x t IH]; intros start; [discriminate|].
  cbn [first_bracket].
  destruct ((x =? LBRACE) || (x =? LBRACKET)) eqn:E.
  - intros H; injection H as <-. exists [], x, t.
    repeat split.
    apply orb_true_iff in E as [E|E]; apply N.eqb_eq in E; auto.
  - destruct (first_bracket t) as [n|]; [|discriminate].
    intros H; injection H as <-.
    destruct (IH n eq_refl) as (pre & c & s & -> & Hl & Hp & Hc).
    exists (x :: pre), c, s. cbn [app length first_bracket].
    rewrite E, Hp, Hl. auto.
Qed.

(** The trimmed form of a text that starts with a bracket is a part of it
    that starts with that bracket. *)
Lemma strip_bracket_part h x :
  h = LBRACE \/ h = LBRACKET ->
  exists y b, strip (h :: x) = h :: y /\ h :: x = (h :: y) ++ b.
Proof.
  intros Hh. pose proof (bracket_not_space _ Hh) as Hs.
  unfold strip, strip_with. cbn [lstrip_with]. rewrite Hs.
  destruct (rstrip_with_split isspace (h :: x)) as (b & E & _).
  cbn [rstrip_with] in *. destruct (rstrip_with isspace x) as [|c r].
  - rewrite Hs in *. exists [], b. auto.
  - exists (c :: r), b. auto.
Qed.

(** X23. A value that the extractor returns is read from the text: some
    contiguous part of the trimmed, fence-free text parses to it.  That
    part is the whole of it, or it starts at the first bracket of the
    text, and then the value is a list or a mapping. *)
Theorem extract_json_sound (text : pystr) (v : pyval) :
  _extract_json_from_text text = v -> v <> PNone ->
  exists pre chunk post,
    strip_fences text = pre ++ chunk ++ post
    /\ loads chunk = Some v
    /\ ((pre = [] /\ post = [])
        \/ (first_bracket pre = None
            /\ (exists h r, chunk = h :: r /\ (h = LBRACE \/ h = LBRACKET))
            /\ is_container v = true)).
Proof.
  unfold _extract_json_from_text.
  destruct (is_empty text); [congruence|].
  set (t := strip_fences text).
  assert (Hdirect : _safe_json_loads t = v -> v <> PNone ->
            exists pre chunk post,
              t = pre ++ chunk ++ post /\ loads chunk = Some v
              /\ ((pre = [] /\ post = [])
                  \/ (first_bracket pre = None
                      /\ (exists h r, chunk = h :: r
                                      /\ (h = LBRACE \/ h = LBRACKET))
                      /\ is_container v = true))).
  { intros E Hv. exists [], t, []. split; [rewrite app_nil_r; reflexivity|].
    split; [|left; auto].
    unfold _safe_json_loads in E. destruct (loads t); congruence. }
  destruct (_safe_json_loads t) eqn:Ed; try (apply Hdirect; reflexivity).
  clear Hdirect. intros H Hv.
  rewrite scan_from_bracket_eq in H by apply strip_fences_rstripped.
  fold t in H.
  destruct (first_bracket t) as [start|] eqn:Eb; [|congruence].
  destruct (first_bracket_split _ _ Eb) as (pre & h & s & Et & Hlen & Hpre & Hh).
  rewrite Et, <- Hlen, skipn_length_app in H.
  destruct (first_parse_some _ _ H Hv) as (c & Hin & Hl).
  unfold candidates_trimmed, candidates_by_trimming in Hin.
  rewrite map_map in Hin. apply in_map_iff in Hin as (i & <- & Hi).
  apply in_seq in Hi.
  destruct (length (h :: s) - i)%nat as [|k] eqn:Ek; [lia|].
  cbn [firstn] in Hl |- *.
  destruct (strip_bracket_part h (firstn k s) Hh) as (y & b & Ey & Eparts).
  rewrite Ey in Hl.
  exists pre, (h :: y), (b ++ skipn k s).
  split.
  { rewrite Et. f_equal. rewrite app_assoc, <- Eparts. cbn [app].
    rewrite firstn_skipn. reflexivity. }
  split; [exact Hl|]. right.
  split; [exact Hpre|]. split; [exists h, y; auto|].
  eapply loads_bracket_container; eauto.
Qed.

Lemma extract_json_sound_witness :
  exists pre chunk post,
    strip_fences wrapped_reply = pre ++ chunk ++ post
    /\ loads chunk = Some (PDict [(lit "a", PList [PInt 1; PInt 2])])
    /\ ((pre = [] /\ post = [])
        \/ (first_bracket pre = None
            /\ (exists h r, chunk = h :: r /\ (h = LBRACE \/ h = LBRACKET))
            /\ is_container (PDict [(lit "a", PList [PInt 1; PInt 2])]) = true)).
Proof.
  apply (extract_json_sound wrapped_reply).
  - vm_compute; reflexivity.
  - discriminate.
Defined.
